(** * Danish language tool: vocabulary index, grammar check and translation

    A shallow embedding of [main.js]: the [VocabularyManager] class (the
    all-forms index and the root sets, with their caches), and the two
    sentence operations of [App], [translateSentenceWords] and
    [checkGrammar].

    Conventions of the embedding.
    - A JavaScript string is a sequence of code units; the code units of
      the Latin-1 range (which holds the Danish letters) are the 256 values
      of [ascii], so a string is a Stdlib [string].
    - A property that may be missing is an [option]: [None] is [undefined].
    - An object enumerated with [for ... in] is the list of its
      (key, value) pairs in enumeration order.
    - A [Map] keeps insertion order, so it is an association list in which
      [set] replaces in place or appends.
    - [this.vocabManager] is a record with the four cache fields; the
      methods that read or fill a cache are written in a state monad. *)

From Stdlib Require Import String Ascii List Bool Arith Lia.
From Stdlib Require Import Permutation.
Import ListNotations.
Open Scope list_scope.
Open Scope string_scope.
Open Scope nat_scope.

(* ------------------------------------------------------------------ *)
(** ** JavaScript primitives used by the source *)

Module JS.

(** Truthiness of a value that is a string or [undefined]. *)
Definition truthy (v : option string) : bool :=
  match v with
  | Some s => negb (String.eqb s "")
  | None => false
  end.

(** [a || b] on such values. *)
Definition or (a b : option string) : option string :=
  if truthy a then a else b.

(** Template-literal rendering [`${v}`]. *)
Definition show (v : option string) : string :=
  match v with
  | Some s => s
  | None => "undefined"
  end.

Definition in_range (lo hi n : nat) : bool := (lo <=? n) && (n <=? hi).

(** [String.prototype.toLowerCase] on Latin-1 code units: A-Z and the
    accented capitals 0xC0-0xDE (but not the multiplication sign 0xD7)
    move up by 32. *)
Definition toLowerCase_char (c : ascii) : ascii :=
  let n := nat_of_ascii c in
  if in_range 65 90 n || (in_range 192 222 n && negb (n =? 215))
  then ascii_of_nat (n + 32) else c.

Fixpoint toLowerCase (s : string) : string :=
  match s with
  | EmptyString => EmptyString
  | String c r => String (toLowerCase_char c) (toLowerCase r)
  end.

(** White space of [\s] and of [trim]: TAB, LF, VT, FF, CR, SP, NBSP. *)
Definition isWhiteSpace (c : ascii) : bool :=
  let n := nat_of_ascii c in
  in_range 9 13 n || (n =? 32) || (n =? 160).

Fixpoint trimStart (s : string) : string :=
  match s with
  | EmptyString => EmptyString
  | String c r => if isWhiteSpace c then trimStart r else s
  end.

(** [trimEnd]: a character is kept when it is not white space or when
    something is kept after it. *)
Fixpoint trimEnd (s : string) : string :=
  match s with
  | EmptyString => EmptyString
  | String c r =>
      match trimEnd r with
      | EmptyString => if isWhiteSpace c then EmptyString else String c EmptyString
      | r' => String c r'
      end
  end.

Definition trim (s : string) : string := trimEnd (trimStart s).

(** [s.endsWith(suffix)]. *)
Definition endsWith (s suffix : string) : bool :=
  (String.length suffix <=? String.length s) &&
  String.eqb (substring (String.length s - String.length suffix) (String.length suffix) s) suffix.

(** [s.slice(0, -n)] for [n > 0]. *)
Definition slice0 (s : string) (n : nat) : string :=
  substring 0 (String.length s - n) s.

(** [s.includes(sub)]. *)
Fixpoint includes (s sub : string) : bool :=
  prefix sub s ||
  match s with
  | EmptyString => false
  | String _ r => includes r sub
  end.

(** [array.includes(x)] on an array of strings. *)
Definition array_includes (l : list string) (x : string) : bool :=
  existsb (String.eqb x) l.

(** [array.join(sep)]; an [undefined] element is rendered as the empty
    string. *)
Fixpoint join (sep : string) (l : list (option string)) : string :=
  match l with
  | [] => ""
  | [x] => match x with Some s => s | None => "" end
  | x :: r => (match x with Some s => s | None => "" end) ++ sep ++ join sep r
  end.

(** [s.split(/\s+/)]: the pieces between the maximal runs of white
    space.  [cur] is the piece being read, [in_ws] tells that the last
    character read was white space. *)
Fixpoint split_ws_from (cur : string) (in_ws : bool) (s : string) : list string :=
  match s with
  | EmptyString => [cur]
  | String c r =>
      if isWhiteSpace c
      then if in_ws then split_ws_from "" true r
           else cur :: split_ws_from "" true r
      else split_ws_from (cur ++ String c "") false r
  end.

Definition split_ws (s : string) : list string := split_ws_from "" false s.

(** The punctuation class [[.,?!;]]. *)
Definition isPunct (c : ascii) : bool :=
  existsb (Ascii.eqb c) ["."; ","; "?"; "!"; ";"]%char.

(** [s.replace(/[.,?!;]/g, '')]. *)
Fixpoint removePunct (s : string) : string :=
  match s with
  | EmptyString => EmptyString
  | String c r => if isPunct c then removePunct r else String c (removePunct r)
  end.

(** [word.replace(/[.,?!;]$/, '')]: one punctuation mark at the end of
    the word is removed. *)
Fixpoint stripFinalPunct (s : string) : string :=
  match s with
  | EmptyString => EmptyString
  | String c EmptyString => if isPunct c then EmptyString else s
  | String c r => String c (stripFinalPunct r)
  end.

Definition nonEmpty (s : string) : bool := negb (String.length s =? 0).

(** *** [Map] with string keys *)

Definition Map (V : Type) : Type := list (string * V).

Fixpoint get {V} (m : Map V) (k : string) : option V :=
  match m with
  | [] => None
  | (k', v) :: r => if String.eqb k' k then Some v else get r k
  end.

Definition has {V} (m : Map V) (k : string) : bool :=
  match get m k with Some _ => true | None => false end.

(** [m.set(k, v)]: an existing key keeps its place and takes the new
    value, a new key goes to the end. *)
Fixpoint set {V} (m : Map V) (k : string) (v : V) : Map V :=
  match m with
  | [] => [(k, v)]
  | (k', v') :: r => if String.eqb k' k then (k', v) :: r else (k', v') :: set r k v
  end.

Definition values {V} (m : Map V) : list V := map snd m.

End JS.

(* ------------------------------------------------------------------ *)
(** ** The vocabulary data *)

(** Modelled from the spec: the table [vocabulary.js] that [main.js]
    imports is not among the sources, so the vocabulary is an argument
    of all that follows, and an entry is given the shape of the data
    model (section 3 of the specification), under the property names
    by which [main.js] reads it.  [en] and [et] are the gloss of a
    common-gender and of a neuter noun (the gender of a noun is which
    of the two it has), [example] and [translated] the example sentence
    and its translation, [conjugations] the map from a tense name to a
    form, [et_form] the alternate form of an adjective.  An entry has
    no property named [root], [baseEn] or [conjugatedForm]: these are
    the properties of the derived records only. *)
Record Entry : Type := mkEntry {
  en : option string;
  et : option string;
  example : option string;
  translated : option string;
  conjugations : option (list (string * string));
  et_form : option string
}.

Definition noEntry : Entry := mkEntry None None None None None None.

(** The imported [vocabulary] object: level, then category, then word. *)
Definition Vocabulary : Type :=
  list (string * list (string * list (string * Entry))).

(** A value of the [allWords] map.  [data] holds the properties spread
    from the entry ([...this.vocabulary[level][category][word]]); a
    derived record has none of them, save [et_form] for an adjective's
    alternate form. *)
Record WordData : Type := mkWordData {
  data : Entry;
  category : string;
  level : string;
  root : option string;
  conjugatedForm : option string;
  baseEn : option string
}.

(** [obj.hasOwnProperty(name)] for the two gender properties. *)
Definition hasOwnProperty_en (w : WordData) : bool :=
  match en (data w) with Some _ => true | None => false end.
Definition hasOwnProperty_et (w : WordData) : bool :=
  match et (data w) with Some _ => true | None => false end.

(** [conjugations.present] and the like. *)
Definition conj (cs : list (string * string)) (tense : string) : option string :=
  JS.get cs tense.

(* ------------------------------------------------------------------ *)
(** ** [class VocabularyManager] *)

Module VocabularyManager.

(** The fields of the object. *)
Record t : Type := mk {
  vocabulary : Vocabulary;
  allWordsCache : option (JS.Map WordData);
  allVerbsCache : option (list string);
  allNounsCache : option (list string);
  allAdjectivesCache : option (list string)
}.

(** [constructor()]. *)
Definition new (v : Vocabulary) : t := mk v None None None None.

(** A method: it reads the object and may assign its fields. *)
Definition M (A : Type) : Type := t -> A * t.

Definition ret {A} (a : A) : M A := fun vm => (a, vm).

Definition bind {A B} (m : M A) (f : A -> M B) : M B :=
  fun vm => let (a, vm') := m vm in f a vm'.

Notation "x <- m ;; k" := (bind m (fun x => k))
  (at level 61, m at next level, right associativity).

(** [getWordsForLevel(level)]: [this.vocabulary[level] || {}]. *)
Definition getWordsForLevel (lvl : string) : M (list (string * list (string * Entry))) :=
  fun vm =>
    (match JS.get (vocabulary vm) lvl with Some c => c | None => [] end, vm).

(** The record stored for a conjugated form (lines 65-71). *)
Definition conjugatedRecord (word lvl conjugatedForm : string) (wordData : WordData)
  : WordData :=
  mkWordData noEntry "verbs" lvl (Some word) (Some conjugatedForm)
             (en (data wordData)) .

(** The record stored for an adjective's 'et' form (lines 77-83). *)
Definition etFormRecord (word lvl etf : string) (wordData : WordData) : WordData :=
  mkWordData (mkEntry None None None None None (Some etf)) "adjectives" lvl
             (Some word) None (en (data wordData)).

(** The loop over [wordData.conjugations] (lines 60-73). *)
Definition addConjugations (word lvl : string) (wordData : WordData)
  (conjs : list (string * string)) (allWords : JS.Map WordData) : JS.Map WordData :=
  fold_left
    (fun allWords (c : string * string) =>
       let conjugatedForm := snd c in
       if negb (String.eqb conjugatedForm word) && negb (JS.has allWords conjugatedForm)
       then JS.set allWords conjugatedForm (conjugatedRecord word lvl conjugatedForm wordData)
       else allWords)
    conjs allWords.

(** The body of the innermost loop of [getAllWords] (lines 50-84). *)
Definition addWord (lvl cat word : string) (e : Entry) (allWords : JS.Map WordData)
  : JS.Map WordData :=
  let wordData := mkWordData e cat lvl None None None in
  let allWords := JS.set allWords word wordData in
  let allWords :=
    match conjugations (data wordData) with
    | Some conjs =>
        if String.eqb cat "verbs" then addConjugations word lvl wordData conjs allWords
        else allWords
    | None => allWords
    end in
  match et_form (data wordData) with
  | Some etf =>
      if String.eqb cat "adjectives" && JS.truthy (Some etf) && negb (String.eqb etf word)
      then JS.set allWords etf (etFormRecord word lvl etf wordData)
      else allWords
  | None => allWords
  end.

Definition addCategory (lvl cat : string) (words : list (string * Entry))
  (allWords : JS.Map WordData) : JS.Map WordData :=
  fold_left (fun m (w : string * Entry) => addWord lvl cat (fst w) (snd w) m) words allWords.

Definition addLevel (lvl : string) (cats : list (string * list (string * Entry)))
  (allWords : JS.Map WordData) : JS.Map WordData :=
  fold_left (fun m (c : string * list (string * Entry)) => addCategory lvl (fst c) (snd c) m)
            cats allWords.

(** The three nested loops of [getAllWords] (lines 46-87), started from
    [new Map()]. *)
Definition buildAllWords (v : Vocabulary) : JS.Map WordData :=
  fold_left (fun m (l : string * list (string * list (string * Entry))) =>
               addLevel (fst l) (snd l) m) v [].

(** [getAllWords()]: the cached map when there is one, else the map is
    built and cached. *)
Definition getAllWords : M (JS.Map WordData) :=
  fun vm =>
    match allWordsCache vm with
    | Some m => (m, vm)
    | None =>
        let allWords := buildAllWords (vocabulary vm) in
        (allWords, mk (vocabulary vm) (Some allWords) (allVerbsCache vm)
                      (allNounsCache vm) (allAdjectivesCache vm))
    end.

(** The words of one category over all levels, in enumeration order:
    the loops of [getAllVerbs], [getAllNouns] and [getAllAdjectives].
    A [Set] is only asked for membership, so it is the list of its
    elements. *)
Definition rootsOf (cat : string) (v : Vocabulary) : list string :=
  flat_map (fun l : string * list (string * list (string * Entry)) =>
              match JS.get (snd l) cat with
              | Some words => map fst words
              | None => []
              end) v.

Definition getAllVerbs : M (list string) :=
  fun vm =>
    match allVerbsCache vm with
    | Some s => (s, vm)
    | None =>
        let allVerbs := rootsOf "verbs" (vocabulary vm) in
        (allVerbs, mk (vocabulary vm) (allWordsCache vm) (Some allVerbs)
                      (allNounsCache vm) (allAdjectivesCache vm))
    end.

Definition getAllNouns : M (list string) :=
  fun vm =>
    match allNounsCache vm with
    | Some s => (s, vm)
    | None =>
        let allNouns := rootsOf "nouns" (vocabulary vm) in
        (allNouns, mk (vocabulary vm) (allWordsCache vm) (allVerbsCache vm)
                      (Some allNouns) (allAdjectivesCache vm))
    end.

Definition getAllAdjectives : M (list string) :=
  fun vm =>
    match allAdjectivesCache vm with
    | Some s => (s, vm)
    | None =>
        let allAdjectives := rootsOf "adjectives" (vocabulary vm) in
        (allAdjectives, mk (vocabulary vm) (allWordsCache vm) (allVerbsCache vm)
                           (allNounsCache vm) (Some allAdjectives))
    end.

(** [getWordData(word)]. *)
Definition getWordData (word : string) : M (option WordData) :=
  allWords <- getAllWords ;; ret (JS.get allWords word).

End VocabularyManager.

(* ------------------------------------------------------------------ *)
(** ** Regular expressions of the phrase repair

    The fragment of JavaScript regular expressions that lines 452-477
    use, with the backtracking semantics of the language: alternatives
    are tried left to right, [+] and [?] are greedy, and a later failure
    makes an earlier choice be reconsidered.  The matcher is written in
    continuation-passing style: [k] is what remains to be matched. *)

Module Regex.

Inductive regex : Type :=
| Lit (s : string)                 (* the characters of [s] *)
| PlusCls (p : ascii -> bool)      (* [c+] for a character class [c] *)
| WordBoundary                     (* [\b] *)
| Seq (r1 r2 : regex)
| Alt (r1 r2 : regex)              (* [r1|r2] *)
| Opt (r : regex)                  (* [r?] *)
| Group (i : nat) (r : regex).     (* the [i]-th capturing parentheses *)

(** The class [\w]. *)
Definition isWordChar (c : ascii) : bool :=
  let n := nat_of_ascii c in
  JS.in_range 48 57 n || JS.in_range 65 90 n || JS.in_range 97 122 n || (n =? 95).

Definition wordBefore (prev : option ascii) : bool :=
  match prev with Some c => isWordChar c | None => false end.

Definition wordAfter (s : string) : bool :=
  match s with String c _ => isWordChar c | EmptyString => false end.

(** The captures of a match, most recent first. *)
Definition Captures : Type := list (nat * string).

Definition capture (caps : Captures) (i : nat) : option string :=
  match find (fun c : nat * string => fst c =? i) caps with
  | Some c => Some (snd c)
  | None => None
  end.

(** The characters of [s] that come before its suffix [rest]. *)
Definition consumed (s rest : string) : string :=
  substring 0 (String.length s - String.length rest) s.

(** Reading the literal [l] at the head of [s]: the last character read
    and what remains. *)
Fixpoint readLit (l : string) (prev : option ascii) (s : string)
  : option (option ascii * string) :=
  match l with
  | EmptyString => Some (prev, s)
  | String a l' =>
      match s with
      | String c s' => if Ascii.eqb a c then readLit l' (Some c) s' else None
      | EmptyString => None
      end
  end.

Definition Result : Type := string * Captures.

(** [rmatch r prev s caps k]: match [r] at the head of [s], the
    character before it being [prev], then go on with [k]. *)
Fixpoint rmatch (r : regex) (prev : option ascii) (s : string) (caps : Captures)
  (k : option ascii -> string -> Captures -> option Result) {struct r} : option Result :=
  match r with
  | Lit l =>
      match readLit l prev s with
      | Some (prev', s') => k prev' s' caps
      | None => None
      end
  | PlusCls p =>
      (fix more (prev : option ascii) (s : string) {struct s} : option Result :=
         match s with
         | String c s' =>
             if p c then
               match more (Some c) s' with
               | Some res => Some res
               | None => k (Some c) s' caps
               end
             else None
         | EmptyString => None
         end) prev s
  | WordBoundary =>
      if xorb (wordBefore prev) (wordAfter s) then k prev s caps else None
  | Seq r1 r2 =>
      rmatch r1 prev s caps (fun prev' s' caps' => rmatch r2 prev' s' caps' k)
  | Alt r1 r2 =>
      match rmatch r1 prev s caps k with
      | Some res => Some res
      | None => rmatch r2 prev s caps k
      end
  | Opt r1 =>
      match rmatch r1 prev s caps k with
      | Some res => Some res
      | None => k prev s caps
      end
  | Group i r1 =>
      rmatch r1 prev s caps
             (fun prev' s' caps' => k prev' s' ((i, consumed s s') :: caps'))
  end.

(** A match that starts at the head of [s]: what follows the match, and
    the captures. *)
Definition matchHere (r : regex) (prev : option ascii) (s : string) : option Result :=
  rmatch r prev s [] (fun _ s' caps => Some (s', caps)).

(** [s.replace(/r/g, f)]: the matches are looked for from left to right,
    each search starting where the last match ended; [f] gets the matched
    text and the captures.  [skip] counts the characters of [s] that the
    last match already took. *)
Fixpoint replaceAllFrom (r : regex) (f : string -> Captures -> string)
  (prev : option ascii) (s : string) (skip : nat) {struct s} : string :=
  match s with
  | EmptyString =>
      match skip, matchHere r prev s with
      | O, Some (_, caps) => f "" caps
      | _, _ => ""
      end
  | String c rest =>
      match skip with
      | S n => replaceAllFrom r f (Some c) rest n
      | O =>
          match matchHere r prev s with
          | Some (s', caps) =>
              match String.length s - String.length s' with
              | O => f "" caps ++ String c (replaceAllFrom r f (Some c) rest 0)
              | S n => f (consumed s s') caps ++ replaceAllFrom r f (Some c) rest n
              end
          | None => String c (replaceAllFrom r f (Some c) rest 0)
          end
      end
  end.

Definition replaceAll (r : regex) (f : string -> Captures -> string) (s : string) : string :=
  replaceAllFrom r f None s 0.

(** [s.replace(/r/, text)] without the [g] flag: the first match only. *)
Fixpoint replaceFirstFrom (r : regex) (text : string) (prev : option ascii) (s : string)
  {struct s} : string :=
  match matchHere r prev s with
  | Some (s', _) => text ++ s'
  | None =>
      match s with
      | EmptyString => ""
      | String c rest => String c (replaceFirstFrom r text (Some c) rest)
      end
  end.

Definition replaceFirst (r : regex) (text : string) (s : string) : string :=
  replaceFirstFrom r text None s.

(** [a|b|c|...] for literal alternatives. *)
Fixpoint anyOf (l : list string) : regex :=
  match l with
  | [] => Lit ""
  | [a] => Lit a
  | a :: l' => Alt (Lit a) (anyOf l')
  end.

End Regex.

(* ------------------------------------------------------------------ *)
(** ** [class App]: translation *)

Module Translate.
Import VocabularyManager Regex.

(** The glosses listed in the two regular expressions of lines 452 and
    468 (the same list in both). *)
Definition verbGlosses : list string :=
  ["eat"; "read"; "see"; "have"; "be"; "call"; "come"; "live"; "can"; "will";
   "must"; "may"; "know"; "take"; "give"; "find"; "speak"; "understand"; "love";
   "drive"; "work"; "visit"; "make"; "buy"; "think/find"; "help"; "sell"; "ask";
   "answer"; "study"; "develop"; "discuss"; "explain"; "suggest"; "decide";
   "analyze"; "argue"; "contribute"; "consider"; "criticize"; "conclude";
   "abstract"; "articulate"; "legitimize"; "synthesize"; "decipher";
   "internalize"; "proliferate"; "illuminate"; "evaluate"; "imply"; "reflect";
   "specify"; "emphasize"].

Definition commonSubjects : list string :=
  ["jeg"; "du"; "han"; "hun"; "vi"; "de"; "pigen"; "drengen"; "huset"; "bilen"].

(** A capture that takes part in every match of its expression. *)
Definition group (caps : Captures) (i : nat) : string :=
  match capture caps i with Some s => s | None => "" end.

(** [/(\b\w+\b) to (eat|...)\b/g] and its callback (lines 452-463). *)
Definition reToVerb : regex :=
  Seq (Group 1 (Seq WordBoundary (Seq (PlusCls isWordChar) WordBoundary)))
      (Seq (Lit " to ") (Seq (Group 2 (anyOf verbGlosses)) WordBoundary)).

Definition toVerbCallback (matched : string) (caps : Captures) : string :=
  let p1 := group caps 1 in
  let p2 := group caps 2 in
  if negb (JS.includes (JS.toLowerCase p1) "to")
  then if JS.array_includes commonSubjects (JS.toLowerCase p1)
       then p1 ++ " " ++ p2 ++ "s"
       else matched
  else matched.

(** [/(\b(eat|...))s?\b/g] and its callback (lines 468-472). *)
Definition reVerb : regex :=
  Seq (Group 1 (Seq WordBoundary (Group 2 (anyOf verbGlosses))))
      (Seq (Opt (Lit "s")) WordBoundary).

Definition verbCallback (matched : string) (caps : Captures) : string :=
  let p2 := group caps 2 in
  if String.eqb p2 "be" then "is"
  else if String.eqb p2 "can" || String.eqb p2 "will" || String.eqb p2 "must"
          || String.eqb p2 "may"
       then matched
       else "is " ++ p2 ++ "ing".

(** [(an?)] as group 1. *)
Definition anGroup : regex := Group 1 (Seq (Lit "a") (Opt (Lit "n"))).

(** [/ the (an?)\b/g], replaced by [' the ']. *)
Definition reTheAn : regex := Seq (Lit " the ") (Seq anGroup WordBoundary).

(** [/ an? (an?)\b/g], replaced by [' $1']. *)
Definition reAnAn : regex :=
  Seq (Lit " a") (Seq (Opt (Lit "n")) (Seq (Lit " ") (Seq anGroup WordBoundary))).

(** [/\s+a\s+an\s+/] and [/\s+an\s+a\s+/]. *)
Definition spaces : regex := PlusCls JS.isWhiteSpace.
Definition reAAn : regex := Seq spaces (Seq (Lit "a") (Seq spaces (Seq (Lit "an") spaces))).
Definition reAnA : regex := Seq spaces (Seq (Lit "an") (Seq spaces (Seq (Lit "a") spaces))).

(** The "final pass" on the joined words (lines 449-479). *)
Definition phraseRepair (joined : string) : string :=
  let finalTranslation := joined in
  let finalTranslation := replaceAll reToVerb toVerbCallback finalTranslation in
  let finalTranslation := replaceAll reVerb verbCallback finalTranslation in
  let finalTranslation := replaceAll reTheAn (fun _ _ => " the ") finalTranslation in
  let finalTranslation := replaceAll reAnAn (fun _ caps => " " ++ group caps 1) finalTranslation in
  replaceFirst reAnA " an " (replaceFirst reAAn " a " finalTranslation).

(** The search of lines 412-439 for one entry: a verb one of whose
    conjugated forms is the word, or an adjective whose 'et' form is the
    word, gives its [en]. *)
Definition scanEntry (cat word : string) (d : Entry) : option (option string) :=
  let isConjugation :=
    match conjugations d with
    | Some cs => String.eqb cat "verbs" && existsb (fun c => String.eqb (snd c) word) cs
    | None => false
    end in
  let isEtForm :=
    String.eqb cat "adjectives" &&
    match et_form d with Some f => String.eqb f word | None => false end in
  if isConjugation || isEtForm then Some (en d) else None.

(** The first hit of [f] in a list: a loop left by [break]. *)
Fixpoint firstHit {A B} (f : A -> option B) (l : list A) : option B :=
  match l with
  | [] => None
  | a :: r => match f a with Some b => Some b | None => firstHit f r end
  end.

Definition scanVocabulary (v : Vocabulary) (word : string) : option (option string) :=
  firstHit (fun l : string * list (string * list (string * Entry)) =>
    firstHit (fun c : string * list (string * Entry) =>
      firstHit (fun w : string * Entry => scanEntry (fst c) word (snd w)) (snd c))
      (snd l)) v.

(** The value pushed on [translatedWords] for one word (lines 388-444). *)
Definition translateWord (allWords : JS.Map WordData) (v : Vocabulary) (word : string)
  : option string :=
  match JS.get allWords word with
  | Some wordData =>
      if String.eqb (category wordData) "verbs"
      then JS.or (baseEn wordData) (en (data wordData))
      else if String.eqb (category wordData) "nouns"
      then JS.or (en (data wordData)) (et (data wordData))
      else if String.eqb (category wordData) "adjectives"
      then JS.or (baseEn wordData) (en (data wordData))
      else JS.or (JS.or (en (data wordData)) (et (data wordData))) (Some word)
  | None =>
      match scanVocabulary v word with
      | Some gloss => gloss
      | None => Some word
      end
  end.

(** The words of the sentence (line 384). *)
Definition wordsOf (sentence : string) : list string :=
  filter JS.nonEmpty (JS.split_ws (JS.removePunct (JS.toLowerCase sentence))).

(** Does a record hold this sentence as its example (line 378)? *)
Definition isExampleOf (sentence : string) (wordData : WordData) : bool :=
  JS.truthy (example (data wordData)) &&
  match example (data wordData) with
  | Some ex => String.eqb (JS.toLowerCase ex) (JS.toLowerCase sentence)
  | None => false
  end.

(** [translatedWords] after the loop of lines 387-445. *)
Definition translatedWords (allWords : JS.Map WordData) (v : Vocabulary) (sentence : string)
  : list (option string) :=
  map (translateWord allWords v) (wordsOf sentence).

(** [translateSentenceWords(sentence)]; [None] is the value [undefined],
    returned when the matching record has no [translated]. *)
Definition translateSentenceWords (sentence : string) : M (option string) :=
  allWords <- getAllWords ;;
  fun vm =>
    match find (isExampleOf sentence) (JS.values allWords) with
    | Some wordData => (translated (data wordData), vm)
    | None =>
        (Some (phraseRepair (JS.join " " (translatedWords allWords (vocabulary vm) sentence))),
         vm)
    end.

Definition dquote : string := String (ascii_of_nat 34) "".

(** [translateSentence()]: [input] is the value of the text area, the
    result is the text given to [updateMentorText]. *)
Definition translateSentence (input : string) : M string :=
  let sentence := JS.toLowerCase (JS.trim input) in
  if String.length sentence =? 0
  then ret "Write a sentence first to translate!"
  else
    translatedText <- translateSentenceWords sentence ;;
    ret ("Translation: " ++ dquote ++ JS.show translatedText ++ dquote).

End Translate.

(* ------------------------------------------------------------------ *)
(** ** [class App]: grammar check *)

(** The objects stored in [knownWordsInfo] (lines 550 and 553). *)
Module WordInfo.

Record t : Type := mk {
  word : string;
  rootWord : option string;            (* [None] is [null] *)
  category : string;
  originalWordData : option WordData   (* [None] is [null] *)
}.

(** The object literal has the four properties above and no other:
    reading its [root] gives [undefined]. *)
Definition root (_ : t) : option string := None.

End WordInfo.

(** The entries of the [feedback] array, one constructor for each
    [feedback.push] of [checkGrammar]; [message] is the string pushed. *)
Inductive Diagnostic : Type :=
| Unrecognized (word : string)                                       (* line 552 *)
| VerbNotSecond                                                      (* line 574 *)
| NoVerbFound                                                        (* line 576 *)
| InfinitiveUsed (verbWord : string) (expected : option string)     (* line 594 *)
| WrongConjugation (verbWord : string) (expected : option string)   (* line 598 *)
| NounArticle (rootWord : option string) (use notUse : string)      (* lines 618, 620 *)
| NounArticleAfterAdjective (noun adjective : option string) (use notUse : string)
                                                                     (* lines 632, 634 *)
| AdjectiveEtForm (rootWord : option string) (form etForm : string) (* line 643 *)
| AdjectiveBaseForm (rootWord : option string) (form : string) (base : option string)
                    (article : string).                              (* lines 645-651 *)

(** [`${v}`] for a value that is a string or [null]. *)
Definition showNull (v : option string) : string :=
  match v with Some s => s | None => "null" end.

Definition message (d : Diagnostic) : string :=
  match d with
  | Unrecognized w =>
      "I don't recognize the word '" ++ w ++ "'. Are you sure it's correct?"
  | VerbNotSecond =>
      "Hmm, try to place the verb in the second position of your sentence. That's a classic Danish rule for main clauses!"
  | NoVerbFound =>
      "I can't find a verb in your sentence. A sentence usually needs one!"
  | InfinitiveUsed v e =>
      "The verb '" ++ v ++ "' is in its infinitive form. For this sentence, you likely need the present tense form: '"
      ++ JS.show e ++ "'."
  | WrongConjugation v e =>
      "The verb '" ++ v ++ "' might be conjugated incorrectly. The present tense form is '"
      ++ JS.show e ++ "'."
  | NounArticle r use notUse =>
      "The noun '" ++ showNull r ++ "' should typically use '" ++ use ++ "', not '"
      ++ notUse ++ "'."
  | NounArticleAfterAdjective n a use notUse =>
      "The noun '" ++ showNull n ++ "' (following adjective '" ++ showNull a
      ++ "') should use '" ++ use ++ "', not '" ++ notUse ++ "'."
  | AdjectiveEtForm r f e =>
      "The adjective '" ++ showNull r ++ "' (form: '" ++ f
      ++ "') should be its 'et-form' ('" ++ e ++ "') when used with 'et'."
  | AdjectiveBaseForm r f b article =>
      "The adjective '" ++ showNull r ++ "' (form: '" ++ f
      ++ "') should be its base form ('" ++ JS.show b ++ "') when used with '"
      ++ article ++ "'."
  end.

Module Grammar.
Import VocabularyManager.

(** [a === b] on values that are a string or [undefined]. *)
Definition strictEq (a b : option string) : bool :=
  match a, b with
  | Some x, Some y => String.eqb x y
  | None, None => true
  | _, _ => false
  end.

Definition isSome {A} (o : option A) : bool :=
  match o with Some _ => true | None => false end.

(** The words of the sentence (line 499). *)
Definition wordsOf (sentence : string) : list string :=
  filter JS.nonEmpty (map JS.stripFinalPunct (JS.split_ws sentence)).

(** [possibleRoots] (lines 530-535). *)
Definition possibleRoots (word : string) : list string :=
  let len := String.length word in
  [word]
  ++ (if JS.endsWith word "er" && (2 <? len) then [JS.slice0 word 2] else [])
  ++ (if JS.endsWith word "ede" && (3 <? len) then [JS.slice0 word 3] else [])
  ++ (if JS.endsWith word "te" && (2 <? len) then [JS.slice0 word 2] else [])
  ++ (if JS.endsWith word "et" && (2 <? len) then [JS.slice0 word 2] else [])
  ++ (if JS.endsWith word "t" && (1 <? len) then [JS.slice0 word 1] else []).

(** The loop of lines 537-546: the first candidate that is a key. *)
Fixpoint firstKnown (allWordsMap : JS.Map WordData) (roots : list string)
  : option (string * WordData) :=
  match roots with
  | [] => None
  | tempRoot :: r =>
      match JS.get allWordsMap tempRoot with
      | Some tempWordData => Some (tempRoot, tempWordData)
      | None => firstKnown allWordsMap r
      end
  end.

(** One turn of the loop of step 1 (lines 510-554): what is stored in
    [knownWordsInfo] for the word.  The word was found exactly when the
    [category] is not the one of line 553, see [found]. *)
Definition recognize (allWordsMap : JS.Map WordData) (word : string) : WordInfo.t :=
  match JS.get allWordsMap word with
  | Some originalWordData =>
      WordInfo.mk word (JS.or (root originalWordData) (Some word))
                  (category originalWordData) (Some originalWordData)
  | None =>
      match firstKnown allWordsMap (possibleRoots word) with
      | Some (tempRoot, tempWordData) =>
          WordInfo.mk word (Some tempRoot) (category tempWordData) (Some tempWordData)
      | None => WordInfo.mk word None "unknown" None
      end
  end.

(** The variable [found] at line 549. *)
Definition found (allWordsMap : JS.Map WordData) (word : string) : bool :=
  match JS.get allWordsMap word with
  | Some _ => true
  | None => isSome (firstKnown allWordsMap (possibleRoots word))
  end.

(** Step 1: [knownWordsInfo], as the list of its values at the keys
    0, 1, ..., and the feedback of line 552. *)
Definition knownWordsInfo (allWordsMap : JS.Map WordData) (words : list string)
  : list WordInfo.t :=
  map (recognize allWordsMap) words.

Definition unknownFeedback (allWordsMap : JS.Map WordData) (words : list string)
  : list Diagnostic :=
  flat_map (fun word => if found allWordsMap word then [] else [Unrecognized word]) words.

(** Step 2, the loop of lines 561-569: the position of the first word of
    category 'verbs' whose root is an infinitive; [None] when
    [verbFound] stays false. *)
Definition isVerbInfo (allVerbsSet : list string) (d : WordInfo.t) : bool :=
  String.eqb (WordInfo.category d) "verbs" &&
  match WordInfo.rootWord d with
  | Some r => JS.array_includes allVerbsSet r
  | None => false
  end.

Fixpoint verbPositionFrom (allVerbsSet : list string) (known : list WordInfo.t) (pos : nat)
  : option nat :=
  match known with
  | [] => None
  | d :: r => if isVerbInfo allVerbsSet d then Some pos
              else verbPositionFrom allVerbsSet r (S pos)
  end.

Definition verbPosition (allVerbsSet : list string) (known : list WordInfo.t) : option nat :=
  verbPositionFrom allVerbsSet known 0.

(** Lines 573-577. *)
Definition v2Feedback (nwords : nat) (verbPos : option nat) : list Diagnostic :=
  match verbPos with
  | Some pos => if (1 <? nwords) && negb (pos =? 1) then [VerbNotSecond] else []
  | None => [NoVerbFound]
  end.

(** [getWordData(key)] for a key that is a string, or [null] or
    [undefined], which are not keys of the map. *)
Definition getWordDataOf (key : option string) : M (option WordData) :=
  match key with
  | Some word => getWordData word
  | None => _ <- getAllWords ;; ret None
  end.

(** Step 2.5 (lines 580-602). *)
Definition conjugationFeedback (words : list string) (known : list WordInfo.t)
  (verbPos : option nat) : M (list Diagnostic) :=
  match verbPos with
  | None => ret []
  | Some pos =>
      match nth_error words pos, nth_error known pos with
      | Some verbWord, Some verbInfo =>
          verbRootData <- getWordDataOf (JS.or (WordInfo.root verbInfo) (Some verbWord)) ;;
          match verbRootData with
          | Some verbRootData =>
              match conjugations (data verbRootData) with
              | Some conjs =>
                  if String.eqb (category verbRootData) "verbs" then
                    let expectedPresentForm := conj conjs "present" in
                    if negb (strictEq (Some verbWord) expectedPresentForm) then
                      if strictEq (Some verbWord) (root verbRootData)
                      then ret [InfinitiveUsed verbWord expectedPresentForm]
                      else ret [WrongConjugation verbWord expectedPresentForm]
                    else ret []
                  else ret []
              | None => ret []
              end
          | None => ret []
          end
      | _, _ => ret []
      end
  end.

(** The two article checks against the noun (lines 617-621 and
    631-635); [mk] builds the diagnostic from the two articles. *)
Definition articleFeedback (article : string) (nounData : WordData)
  (mk : string -> string -> Diagnostic) : list Diagnostic :=
  if String.eqb article "en" && hasOwnProperty_et nounData then [mk "et" "en"]
  else if String.eqb article "et" && hasOwnProperty_en nounData then [mk "en" "et"]
  else [].

(** The check of the adjective's form (lines 639-654). *)
Definition adjectiveFeedback (article : string) (nextWordInfo : WordInfo.t)
  (adjectiveRootData : option WordData) : list Diagnostic :=
  match adjectiveRootData with
  | Some adjectiveRootData =>
      if String.eqb (category adjectiveRootData) "adjectives" then
        let form := WordInfo.word nextWordInfo in
        let base := AdjectiveBaseForm (WordInfo.rootWord nextWordInfo) form
                                      (root adjectiveRootData) in
        let notBase := negb (strictEq (Some form) (root adjectiveRootData)) in
        if JS.truthy (et_form (data adjectiveRootData)) then
          if String.eqb article "et"
             && negb (strictEq (Some form) (et_form (data adjectiveRootData)))
          then [AdjectiveEtForm (WordInfo.rootWord nextWordInfo) form
                                (JS.show (et_form (data adjectiveRootData)))]
          else if String.eqb article "en" && notBase then [base "en"]
          else []
        else
          if String.eqb article "et" && notBase then [base "et"]
          else if String.eqb article "en" && notBase then [base "en"]
          else []
      else []
  | None => []
  end.

(** One turn of the loop of step 3 (lines 606-658). *)
Definition agreementAt (known : list WordInfo.t) (i : nat) : M (list Diagnostic) :=
  match nth_error known i with
  | None => ret []
  | Some wordInfo =>
      if String.eqb (WordInfo.category wordInfo) "unknown" then ret []
      else if String.eqb (WordInfo.word wordInfo) "en"
              || String.eqb (WordInfo.word wordInfo) "et" then
        match nth_error known (i + 1) with
        | None => ret []
        | Some nextWordInfo =>
            if String.eqb (WordInfo.category nextWordInfo) "nouns"
               && isSome (WordInfo.originalWordData nextWordInfo) then
              nounData <- getWordDataOf (WordInfo.rootWord nextWordInfo) ;;
              match nounData with
              | Some nounData =>
                  ret (articleFeedback (WordInfo.word wordInfo) nounData
                         (NounArticle (WordInfo.rootWord nextWordInfo)))
              | None => ret []
              end
            else if String.eqb (WordInfo.category nextWordInfo) "adjectives"
                    && isSome (WordInfo.originalWordData nextWordInfo) then
              match nth_error known (i + 2) with
              | None => ret []
              | Some followingNounInfo =>
                  if String.eqb (WordInfo.category followingNounInfo) "nouns"
                     && isSome (WordInfo.originalWordData followingNounInfo) then
                    nounData <- getWordDataOf (WordInfo.rootWord followingNounInfo) ;;
                    match nounData with
                    | Some nounData =>
                        adjectiveRootData <-
                          getWordDataOf (WordInfo.rootWord nextWordInfo) ;;
                        ret (articleFeedback (WordInfo.word wordInfo) nounData
                               (NounArticleAfterAdjective
                                  (WordInfo.rootWord followingNounInfo)
                                  (WordInfo.rootWord nextWordInfo))
                             ++ adjectiveFeedback (WordInfo.word wordInfo) nextWordInfo
                                  adjectiveRootData)%list
                    | None => ret []
                    end
                  else ret []
              end
            else ret []
        end
      else ret []
  end.

(** A loop whose turns push on [feedback]. *)
Fixpoint forEach {A} (f : A -> M (list Diagnostic)) (l : list A) : M (list Diagnostic) :=
  match l with
  | [] => ret []
  | a :: r => d <- f a ;; ds <- forEach f r ;; ret (d ++ ds)%list
  end.

(** Step 3 (lines 605-659). *)
Definition agreementFeedback (known : list WordInfo.t) (nwords : nat) : M (list Diagnostic) :=
  forEach (agreementAt known) (seq 0 nwords).

(** [checkGrammar()] up to line 660: the [feedback] array, or [None]
    when the method returned at line 496 or 503.  [input] is the value
    of the text area. *)
Definition checkGrammarFeedback (input : string) : M (option (list Diagnostic)) :=
  let sentence := JS.toLowerCase (JS.trim input) in
  allWordsMap <- getAllWords ;;
  allVerbsSet <- getAllVerbs ;;
  _ <- getAllNouns ;;
  _ <- getAllAdjectives ;;
  if (String.length sentence =? 0) || (String.length (JS.trim sentence) =? 0)
  then ret None
  else
    let words := wordsOf sentence in
    if length words =? 0 then ret None
    else
      let known := knownWordsInfo allWordsMap words in
      let verbPos := verbPosition allVerbsSet known in
      conjugation <- conjugationFeedback words known verbPos ;;
      agreement <- agreementFeedback known (length words) ;;
      ret (Some (unknownFeedback allWordsMap words
                 ++ v2Feedback (length words) verbPos
                 ++ conjugation ++ agreement)%list).

(** The glyph that ends the success message lies outside Latin-1; it is
    kept as the four bytes of its UTF-8 form. *)
Definition partyPopper : string :=
  String (ascii_of_nat 240) (String (ascii_of_nat 159)
    (String (ascii_of_nat 142) (String (ascii_of_nat 137) ""))).

(** The text given to [updateMentorText] (lines 495, 502, 662-666). *)
Definition mentorText (feedback : option (list Diagnostic)) : string :=
  match feedback with
  | None => "Write a sentence first!"
  | Some [] =>
      "Fantastisk! Your sentence looks good to me. Keep up the great work! "
      ++ partyPopper
  | Some feedback =>
      "I found a few things to work on: "
      ++ JS.join " " (map (fun d => Some (message d)) feedback)
  end.

(** [checkGrammar()]. *)
Definition checkGrammar (input : string) : M string :=
  feedback <- checkGrammarFeedback input ;; ret (mentorText feedback).

End Grammar.

(* ------------------------------------------------------------------ *)
(** ** [class UIManager]: the shuffle and the word bank *)

Module UIManager.

(** A JavaScript array of strings; an element can be [undefined]. *)
Definition StringArray : Type := list (option string).

(** [array[i]]: [undefined] beyond the end. *)
Definition at_ (array : StringArray) (i : nat) : option string :=
  match nth_error array i with
  | Some x => x
  | None => None
  end.

(** [array[i] = x]: an index beyond the end extends the array, and the
    elements skipped read as [undefined]. *)
Fixpoint assign (array : StringArray) (i : nat) (x : option string) {struct i}
  : StringArray :=
  match i, array with
  | O, [] => [x]
  | O, _ :: r => x :: r
  | S i', [] => None :: assign [] i' x
  | S i', a :: r => a :: assign r i' x
  end.

(** The random source.  [draw n] is the integer that the [n]-th
    evaluation of [Math.floor(Math.random() * (i + 1))] gives in a run
    of the program; how many evaluations were made is passed along. *)
Definition Random : Type := nat -> nat.

(** The loop of [shuffleArray] (lines 259-262) from the index [i] down
    to 1. *)
Fixpoint shuffleFrom (draw : Random) (n : nat) (i : nat) (array : StringArray)
  : StringArray * nat :=
  match i with
  | O => (array, n)
  | S i' =>
      let j := draw n in
      let ai := at_ array i in
      let aj := at_ array j in
      shuffleFrom draw (S n) i' (assign (assign array i aj) j ai)
  end.

(** [shuffleArray(array)]. *)
Definition shuffleArray (draw : Random) (n : nat) (array : StringArray)
  : StringArray * nat :=
  shuffleFrom draw n (length array - 1) array.

(** What [populateWordBank] pushes for a verb (lines 232-236). *)
Definition bankWord (infinitive : string) (e : Entry) : string :=
  match conjugations e with
  | Some conjs =>
      match conj conjs "present" with
      | Some present => if JS.truthy (Some present) then present else infinitive
      | None => infinitive
      end
  | None => infinitive
  end.

(** The array [allWords] of [populateWordBank] before the shuffle
    (lines 227-243). *)
Definition bankWords (levelVocab : list (string * list (string * Entry))) : list string :=
  flat_map (fun c : string * list (string * Entry) =>
              if String.eqb (fst c) "verbs"
              then map (fun w : string * Entry => bankWord (fst w) (snd w)) (snd c)
              else map fst (snd c))
           levelVocab.

(** [populateWordBank(levelVocab)]: the words given to the buttons that
    are appended to the word bank, which was emptied first
    (lines 226 and 245-250). *)
Definition populateWordBank (draw : Random) (n : nat)
  (levelVocab : list (string * list (string * Entry))) : StringArray * nat :=
  let (shuffled, n') := shuffleArray draw n (map Some (bankWords levelVocab)) in
  (firstn 15 shuffled, n').

End UIManager.

(* ------------------------------------------------------------------ *)
(** ** [class App]: the suggestion *)

Module Suggestion.
Import UIManager.







End Suggestion.

(* ------------------------------------------------------------------ *)
(** ** Definitions used by the statements *)

(** A state of the [VocabularyManager] in which each cache is empty or
    holds what its method builds; the states that the program reaches
    are such ([reachable_coherent]). *)
Definition coherent (vm : VocabularyManager.t) : Prop :=
  let v := VocabularyManager.vocabulary vm in
  (VocabularyManager.allWordsCache vm = None \/
   VocabularyManager.allWordsCache vm = Some (VocabularyManager.buildAllWords v)) /\
  (VocabularyManager.allVerbsCache vm = None \/
   VocabularyManager.allVerbsCache vm = Some (VocabularyManager.rootsOf "verbs" v)) /\
  (VocabularyManager.allNounsCache vm = None \/
   VocabularyManager.allNounsCache vm = Some (VocabularyManager.rootsOf "nouns" v)) /\
  (VocabularyManager.allAdjectivesCache vm = None \/
   VocabularyManager.allAdjectivesCache vm = Some (VocabularyManager.rootsOf "adjectives" v)).

(** The states that a new object reaches by calls of its methods and of
    the two operations of [App]. *)
Inductive reachable (v : Vocabulary) : VocabularyManager.t -> Prop :=
| reach_new : reachable v (VocabularyManager.new v)
| reach_getAllWords vm :
    reachable v vm -> reachable v (snd (VocabularyManager.getAllWords vm))
| reach_getAllVerbs vm :
    reachable v vm -> reachable v (snd (VocabularyManager.getAllVerbs vm))
| reach_getAllNouns vm :
    reachable v vm -> reachable v (snd (VocabularyManager.getAllNouns vm))
| reach_getAllAdjectives vm :
    reachable v vm -> reachable v (snd (VocabularyManager.getAllAdjectives vm))
| reach_getWordData word vm :
    reachable v vm -> reachable v (snd (VocabularyManager.getWordData word vm))
| reach_getWordsForLevel lvl vm :
    reachable v vm -> reachable v (snd (VocabularyManager.getWordsForLevel lvl vm))
| reach_checkGrammar input vm :
    reachable v vm -> reachable v (snd (Grammar.checkGrammar input vm))
| reach_translateSentence input vm :
    reachable v vm -> reachable v (snd (Translate.translateSentence input vm)).

(** The state with the four caches filled. *)
Definition warm (v : Vocabulary) : VocabularyManager.t :=
  VocabularyManager.mk v
    (Some (VocabularyManager.buildAllWords v))
    (Some (VocabularyManager.rootsOf "verbs" v))
    (Some (VocabularyManager.rootsOf "nouns" v))
    (Some (VocabularyManager.rootsOf "adjectives" v)).

(** The index and the verb roots of a vocabulary. *)
Definition allForms (v : Vocabulary) : JS.Map WordData := VocabularyManager.buildAllWords v.
Definition verbRoots (v : Vocabulary) : list string := VocabularyManager.rootsOf "verbs" v.

(** The sentence that [checkGrammar] analyses, and its words. *)
Definition sentenceOf (input : string) : string := JS.toLowerCase (JS.trim input).
Definition tokens (input : string) : list string := Grammar.wordsOf (sentenceOf input).

(** The feedback of a grammar check, and a translation, on a new
    object. *)
Definition analyzeSentence (v : Vocabulary) (input : string) : option (list Diagnostic) :=
  fst (Grammar.checkGrammarFeedback input (VocabularyManager.new v)).

Definition translation (v : Vocabulary) (sentence : string) : option string :=
  fst (Translate.translateSentenceWords sentence (VocabularyManager.new v)).

(** Kinds of diagnostics. *)
Definition isVerbNotSecond (d : Diagnostic) : bool :=
  match d with VerbNotSecond => true | _ => false end.
Definition isNoVerbFound (d : Diagnostic) : bool :=
  match d with NoVerbFound => true | _ => false end.
Definition isInfinitiveUsed (d : Diagnostic) : bool :=
  match d with InfinitiveUsed _ _ => true | _ => false end.
Definition isConjugation (d : Diagnostic) : bool :=
  match d with InfinitiveUsed _ _ | WrongConjugation _ _ => true | _ => false end.
Definition isGenderMismatch (d : Diagnostic) : bool :=
  match d with NounArticle _ _ _ | NounArticleAfterAdjective _ _ _ _ => true | _ => false end.
Definition isAdjectiveForm (d : Diagnostic) : bool :=
  match d with AdjectiveEtForm _ _ _ | AdjectiveBaseForm _ _ _ _ => true | _ => false end.
Definition isAgreement (d : Diagnostic) : bool := isGenderMismatch d || isAdjectiveForm d.
Definition isUnrecognized (d : Diagnostic) : bool :=
  match d with Unrecognized _ => true | _ => false end.

Definition countIf (p : Diagnostic -> bool) (l : list Diagnostic) : nat :=
  length (filter p l).

(** *** Token resolution in the words of the specification

    The four suffix rules, in their order: the suffixes that a rule
    stands for and the number of characters that it strips.  The third
    rule, "a 2-character past-weak/definite suffix", stands for the
    past ending [te] and the definite ending [et]. *)
Definition stripRules : list (list string * nat) :=
  [(["er"], 2); (["ede"], 3); (["te"; "et"], 2); (["t"], 1)].

(** [stem] is the candidate that [rule] makes of [token]: the token is
    [stem] followed by a suffix of the rule, the suffix has the number
    of characters that the rule strips, and [stem] is not empty. *)
Definition candidateBy (rule : list string * nat) (token stem : string) : Prop :=
  exists suffix,
    In suffix (fst rule) /\ String.length suffix = snd rule /\
    token = stem ++ suffix /\ stem <> "".

(** The root of an exact match: the root that the record names, the
    token itself when the record names none. *)
Definition rootOfRecord (record : WordData) (token : string) : string :=
  match root record with
  | Some r => if String.eqb r "" then token else r
  | None => token
  end.

(** The index as the specification reads it, said on the pairs of the
    map and not by the lookup of the code: [key] is a key, and the
    record under [key] is the one of the first pair with this key. *)
Definition indexHasKey (forms : JS.Map WordData) (key : string) : Prop :=
  In key (map fst forms).

Definition indexHolds (forms : JS.Map WordData) (key : string) (record : WordData) : Prop :=
  exists before after,
    forms = (before ++ (key, record) :: after)%list /\ ~ indexHasKey before key.

(** The resolution of a token to a category, a root and a record, in
    the three cases of the specification.  No function of the code is
    used to say it: a candidate is given by an equation between
    strings, "found" by the pairs of the index, and "the first
    candidate found" by the position of its rule among the four.
    - The token is a key: the category and the root are those of its
      record.
    - The token is no key, the rule at the position [i] makes a
      candidate that is a key, and no rule before it does: the root is
      that candidate, the category the one of its record.
    - The token is no key and no rule makes a candidate that is a key:
      category 'unknown', no root, no record. *)
Inductive resolveSpec (forms : JS.Map WordData) (token : string)
  : string -> option string -> option WordData -> Prop :=
| resolvedExact record :
    indexHolds forms token record ->
    resolveSpec forms token (category record) (Some (rootOfRecord record token))
                (Some record)
| resolvedStripped i rule stem record :
    ~ indexHasKey forms token ->
    nth_error stripRules i = Some rule ->
    candidateBy rule token stem ->
    indexHolds forms stem record ->
    (forall j rule' stem', j < i -> nth_error stripRules j = Some rule' ->
       candidateBy rule' token stem' -> ~ indexHasKey forms stem') ->
    resolveSpec forms token (category record) (Some stem) (Some record)
| resolvedUnknown :
    ~ indexHasKey forms token ->
    (forall rule stem, In rule stripRules -> candidateBy rule token stem ->
       ~ indexHasKey forms stem) ->
    resolveSpec forms token "unknown" None None.

(** *** The candidates of the code, rule by rule

    What the five tests of lines 531-535 push for a token, grouped by
    the rule to which a test belongs. *)
Definition candidateOf (token : string) (rule : list string * nat) : list string :=
  if existsb (JS.endsWith token) (fst rule) && (snd rule <? String.length token)
  then [JS.slice0 token (snd rule)] else [].

Definition suffixCandidates (token : string) : list string :=
  flat_map (candidateOf token) stripRules.

(** *** Example vocabularies *)

(** The noun "lyst" and the adjective "lys", whose 'et' form is
    "lyst". *)
Definition lystVocabulary : Vocabulary :=
  [("A1",
    [("nouns", [("lyst", mkEntry (Some "desire") None None None None None)]);
     ("adjectives",
      [("lys", mkEntry (Some "bright") None None None None (Some "lyst"))])])].

(** A neuter noun and a verb with two tenses; no articles. *)
Definition husVocabulary : Vocabulary :=
  [("A1",
    [("nouns", [("hus", mkEntry None (Some "house") None None None None)]);
     ("verbs",
      [("spise", mkEntry (Some "to eat") None None None
                         (Some [("present", "spiser"); ("past", "spiste")]) None)])])].

(** The same with the two articles as words of their own. *)
Definition articleVocabulary : Vocabulary :=
  [("A1",
    [("nouns", [("hus", mkEntry None (Some "house") None None None None);
                ("pige", mkEntry (Some "girl") None None None None None)]);
     ("verbs",
      [("spise", mkEntry (Some "to eat") None None None
                         (Some [("present", "spiser"); ("past", "spiste")]) None)]);
     ("adjectives",
      [("stor", mkEntry (Some "big") None None None None (Some "stort"))]);
     ("articles", [("en", mkEntry (Some "a") None None None None None);
                   ("et", mkEntry (Some "a") None None None None None)])])].

(** Two entries with the same example and two translations of it. *)
Definition exampleVocabulary : Vocabulary :=
  [("A1",
    [("nouns",
      [("hus", mkEntry None (Some "house") (Some "Huset er stort.")
                       (Some "The house is big.") None None)]);
     ("adjectives",
      [("stor", mkEntry (Some "big") None (Some "Huset er stort.")
                        (Some "The house is large.") None (Some "stort"))])])].

(** The word "lys" as a noun, with an example, and as an adjective,
    without one. *)
Definition shadowedVocabulary : Vocabulary :=
  [("A1",
    [("nouns",
      [("lys", mkEntry (Some "light") None (Some "Lyset er smukt.")
                       (Some "The light is beautiful.") None None)]);
     ("adjectives",
      [("lys", mkEntry (Some "bright") None None None None (Some "lyst"))])])].

(** An entry whose example is the empty string. *)
Definition emptyExampleVocabulary : Vocabulary :=
  [("A1",
    [("nouns",
      [("hus", mkEntry None (Some "house") (Some "") (Some "The house is big.")
                       None None)])])].

(** The Danish verb for 'to buy' in code units: k, the o with a stroke
    (the unit 248, which is no character of the class [\w]), b, e. *)
Definition koebe : string := "k" ++ String (ascii_of_nat 248) "be".

(** *** The results without the caches *)

(** The feedback of [checkGrammar] as a function of the vocabulary: the
    four steps on the index and the verb roots. *)
Definition feedbackOn (v : Vocabulary) (input : string) : option (list Diagnostic) :=
  let sentence := sentenceOf input in
  if (String.length sentence =? 0) || (String.length (JS.trim sentence) =? 0) then None
  else
    let words := Grammar.wordsOf sentence in
    if length words =? 0 then None
    else
      let known := Grammar.knownWordsInfo (allForms v) words in
      let verbPos := Grammar.verbPosition (verbRoots v) known in
      Some (Grammar.unknownFeedback (allForms v) words
            ++ Grammar.v2Feedback (length words) verbPos
            ++ fst (Grammar.conjugationFeedback words known verbPos (warm v))
            ++ fst (Grammar.agreementFeedback known (length words) (warm v)))%list.

(** The result of [translateSentenceWords] as a function of the
    vocabulary. *)
Definition translationOn (v : Vocabulary) (sentence : string) : option string :=
  match find (Translate.isExampleOf sentence) (JS.values (allForms v)) with
  | Some wordData => translated (data wordData)
  | None =>
      Some (Translate.phraseRepair
              (JS.join " " (Translate.translatedWords (allForms v) v sentence)))
  end.

(** A method call that leaves the object with its caches filled as it
    is. *)
Definition stable (v : Vocabulary) {A} (m : VocabularyManager.M A) : Prop :=
  snd (m (warm v)) = warm v.

(** A property of the result of a method call that holds in every
    state of the object. *)
Definition always {A} (P : A -> Prop) (m : VocabularyManager.M A) : Prop :=
  forall vm, P (fst (m vm)).

(** A string of white space only. *)
Fixpoint allWhiteSpace (s : string) : bool :=
  match s with
  | EmptyString => true
  | String c r => JS.isWhiteSpace c && allWhiteSpace r
  end.

(** *** The verb of a sentence *)

(** A resolved word that counts as the verb: its category is 'verbs'
    and its root is a verb root. *)
Definition isVerb (verbs : list string) (d : WordInfo.t) : Prop :=
  WordInfo.category d = "verbs" /\
  exists r, WordInfo.rootWord d = Some r /\ In r verbs.

(** [pos] is the position of the first such word. *)
Definition firstVerbAt (verbs : list string) (known : list WordInfo.t) (pos : nat) : Prop :=
  (exists d, nth_error known pos = Some d /\ isVerb verbs d) /\
  (forall j d, j < pos -> nth_error known j = Some d -> ~ isVerb verbs d).

(** *** Article and noun *)

Definition otherArticle (article : string) : string :=
  if String.eqb article "en" then "et" else "en".

(** The noun has the gender property of the other article. *)
Definition hasOpposite (article : string) (nounData : WordData) : bool :=
  if String.eqb article "en" then hasOwnProperty_et nounData
  else hasOwnProperty_en nounData.

(** The statement of C5 for one sentence: its two words are an article
    and a word that resolves to a noun whose record has the opposite
    gender property; then the feedback holds exactly one gender-mismatch
    diagnostic, which names the noun. *)
Definition genderMismatchClaim (v : Vocabulary) (input article noun nounRoot : string)
  (nounData : WordData) : Prop :=
  tokens input = [article; noun] ->
  (article = "en" \/ article = "et") ->
  WordInfo.category (Grammar.recognize (allForms v) noun) = "nouns" ->
  WordInfo.rootWord (Grammar.recognize (allForms v) noun) = Some nounRoot ->
  JS.get (allForms v) nounRoot = Some nounData ->
  hasOpposite article nounData = true ->
  exists fb,
    analyzeSentence v input = Some fb /\
    filter isGenderMismatch fb
    = [NounArticle (Some nounRoot) (otherArticle article) article].

(** *** Statements on the translation *)

(** [e] is an entry of the vocabulary whose stored example is the
    sentence, compared without regard to case. *)
Definition entryWithExample (v : Vocabulary) (sentence : string) (e : Entry) : Prop :=
  exists lvl cats cat words w ex,
    In (lvl, cats) v /\ In (cat, words) cats /\ In (w, e) words /\
    example e = Some ex /\ JS.toLowerCase ex = JS.toLowerCase sentence.

(** The statement of C7 for one sentence: when some entry of the
    vocabulary has the sentence as its example, the translation
    returned is the [translated] of such an entry. *)
Definition exampleShortcutClaim (v : Vocabulary) (sentence : string) : Prop :=
  (exists e, entryWithExample v sentence e) ->
  exists e, entryWithExample v sentence e /\ translation v sentence = translated e.

(** The statement of C6 for one word of one sentence: the word is not
    resolved by the index, by suffix stripping or by the scan of the
    vocabulary; then the translation holds the word as it is. *)
Definition unknownTokenClaim (v : Vocabulary) (sentence token : string) : Prop :=
  In token (Translate.wordsOf sentence) ->
  Grammar.found (allForms v) token = false ->
  Translate.scanVocabulary v token = None ->
  exists out, translation v sentence = Some out /\ JS.includes out token = true.

(** The records of a map that come before the first one that satisfies
    [p]: [first] is that one. *)
Definition firstSuch {A} (p : A -> bool) (l : list A) (first : A) : Prop :=
  exists before after,
    l = (before ++ first :: after)%list /\
    p first = true /\ forall x, In x before -> p x = false.

(** *** Records of the index *)

(** Every record of a map satisfies [P]. *)
Definition mapAll (P : WordData -> Prop) (m : JS.Map WordData) : Prop :=
  forall k wordData, JS.get m k = Some wordData -> P wordData.

(** A record with a [root] has no [conjugations]: it is a derived
    record. *)
Definition rootOrConjugations (wordData : WordData) : Prop :=
  root wordData = None \/ conjugations (data wordData) = None.

(** *** The words and forms of a vocabulary *)

(** The entries in the order in which the loops of [getAllWords] visit
    them, each with its level, category and word. *)
Definition entriesOf (v : Vocabulary) : list (string * string * string * Entry) :=
  flat_map (fun l : string * list (string * list (string * Entry)) =>
    flat_map (fun c : string * list (string * Entry) =>
      map (fun w : string * Entry => (fst l, fst c, fst w, snd w)) (snd c))
      (snd l)) v.

(** One turn of the innermost loop on such an entry. *)
Definition addEntry (m : JS.Map WordData) (q : string * string * string * Entry)
  : JS.Map WordData :=
  match q with
  | (lvl, cat, word, e) => VocabularyManager.addWord lvl cat word e m
  end.

(** The record that [getAllWords] stores for a word under the word
    itself. *)
Definition rootRecord (lvl cat : string) (e : Entry) : WordData :=
  mkWordData e cat lvl None None None.

(** [k] is a word of the vocabulary, a conjugated form of one of its
    verbs, or the 'et' form of one of its adjectives. *)
Definition isRootWord (v : Vocabulary) (k : string) : Prop :=
  exists lvl cat e, In (lvl, cat, k, e) (entriesOf v).

Definition isConjugatedForm (v : Vocabulary) (k : string) : Prop :=
  exists lvl word e conjs tense,
    In (lvl, "verbs", word, e) (entriesOf v) /\
    conjugations e = Some conjs /\ In (tense, k) conjs.

Definition isEtForm (v : Vocabulary) (k : string) : Prop :=
  exists lvl word e,
    In (lvl, "adjectives", word, e) (entriesOf v) /\
    et_form e = Some k /\ k <> "".

(** What a record of the index under the key [k] can be: the record of
    a word [k] of the vocabulary, or the derived record of a verb one of
    whose conjugated forms is [k], or the derived record of an adjective
    whose 'et' form is [k]. *)
Definition recordOf (v : Vocabulary) (k : string) (d : WordData) : Prop :=
  (exists lvl cat e,
     In (lvl, cat, k, e) (entriesOf v) /\ d = rootRecord lvl cat e) \/
  (exists lvl word e conjs tense,
     In (lvl, "verbs", word, e) (entriesOf v) /\
     conjugations e = Some conjs /\ In (tense, k) conjs /\ k <> word /\
     d = VocabularyManager.conjugatedRecord word lvl k (rootRecord lvl "verbs" e)) \/
  (exists lvl word e,
     In (lvl, "adjectives", word, e) (entriesOf v) /\
     et_form e = Some k /\ k <> "" /\ k <> word /\
     d = VocabularyManager.etFormRecord word lvl k (rootRecord lvl "adjectives" e)).

(** No non-empty 'et' form of an adjective, other than the adjective
    itself, is a word of the vocabulary. *)
Definition noEtFormClash (v : Vocabulary) : Prop :=
  forall lvl word e form,
    In (lvl, "adjectives", word, e) (entriesOf v) ->
    et_form e = Some form -> form <> "" -> form <> word ->
    ~ isRootWord v form.

(** The key [r] holds a record that is not the derived record of a
    conjugated form. *)
Definition notConjugated (m : JS.Map WordData) (r : string) : Prop :=
  exists d, JS.get m r = Some d /\ conjugatedForm d = None.

(** *** The parts of a feedback *)

(** The diagnostics of step 2. *)
Definition isStep2 (d : Diagnostic) : bool := isVerbNotSecond d || isNoVerbFound d.

(** The position of the verb in the sentence that [checkGrammar]
    analyses. *)
Definition verbPositionOf (v : Vocabulary) (input : string) : option nat :=
  Grammar.verbPosition (verbRoots v) (Grammar.knownWordsInfo (allForms v) (tokens input)).

(** *** The characters of a word *)

(** Every character of [s] satisfies [p]. *)
Fixpoint allChars (p : ascii -> bool) (s : string) : bool :=
  match s with
  | EmptyString => true
  | String c r => p c && allChars p r
  end.

Definition notWhiteSpace (c : ascii) : bool := negb (JS.isWhiteSpace c).
Definition notPunct (c : ascii) : bool := negb (JS.isPunct c).

(** A character that [toLowerCase] leaves as it is. *)
Definition isLowerCase (c : ascii) : bool := Ascii.eqb (JS.toLowerCase_char c) c.

(** The endings that step 1 of [checkGrammar] strips. *)
Definition strippedEndings : list string := ["er"; "ede"; "te"; "et"; "t"].

(** *** The random draws *)

(** The draws of a shuffle that starts at the [n]-th evaluation and
    runs from the index [i] down to 1 fall within the part of the array
    still to be shuffled: the draw made at the index [i - k] is at most
    [i - k]. *)
Definition drawsInRange (draw : UIManager.Random) (n i : nat) : Prop :=
  forall k, k < i -> draw (n + k) <= i - k.

(** Equality of array elements is decidable. *)
Definition element_dec (a b : option string) : {a = b} + {a <> b}.
Proof. decide equality. apply string_dec. Defined.

(** The words of a level, as [Object.keys] and the lookups of
    [getSuggestion] see them. *)
Definition levelOf (v : Vocabulary) (lvl : string) : list (string * list (string * Entry)) :=
  fst (VocabularyManager.getWordsForLevel lvl (VocabularyManager.new v)).

(** *** The phrase repair on a subject and a verb *)

(** What the repair makes of a verb gloss: the copula becomes "is", a
    modal is kept (with the ending [ending] it has), any other gloss
    gets the continuous form. *)
Definition repairedVerb (gloss ending : string) : string :=
  if String.eqb gloss "be" then "is"
  else if JS.array_includes ["can"; "will"; "must"; "may"] gloss then gloss ++ ending
  else "is " ++ gloss ++ "ing".

(** *** Words that the phrase repair leaves alone *)

(** The characters of the class [\w] at the head of a string. *)
Fixpoint leadingRun (s : string) : string :=
  match s with
  | String c r => if Regex.isWordChar c then String c (leadingRun r) else ""
  | EmptyString => ""
  end.

(** The maximal runs of characters of the class [\w] in a string, from
    left to right; [inWord] tells that the character before [s] is one
    of a run. *)
Fixpoint wordRunsFrom (inWord : bool) (s : string) : list string :=
  match s with
  | EmptyString => []
  | String c r =>
      if Regex.isWordChar c
      then (if inWord then [] else [leadingRun s]) ++ wordRunsFrom true r
      else wordRunsFrom false r
  end.

Definition wordRuns (s : string) : list string := wordRunsFrom false s.

(** The words that the expressions of lines 452-477 name: the
    infinitive marker, the two articles and the listed glosses, with or
    without a final [s]. *)
Definition repairWords : list string :=
  ["to"; "a"; "an"]
  ++ Translate.verbGlosses ++ map (fun g => g ++ "s") Translate.verbGlosses.

(** No maximal run of characters of the class [\w] in the token is one
    of these words, and the token does not hold "think/find", the one
    listed gloss that is more than a run. *)
Definition namesNoRepairWord (token : string) : bool :=
  forallb (fun w => negb (JS.array_includes repairWords w)) (wordRuns token)
  && negb (JS.includes token "think/find").

(** The first character of [s], if any, satisfies [p]; the last one
    does. *)
Definition headIs (p : ascii -> bool) (s : string) : bool :=
  match s with
  | EmptyString => true
  | String c _ => p c
  end.

Fixpoint lastIs (p : ascii -> bool) (s : string) : bool :=
  match s with
  | EmptyString => true
  | String c EmptyString => p c
  | String _ r => lastIs p r
  end.

(** [out] holds [token] as a word of its own: with white space or the
    end of the string on either side. *)
Definition standsAsWord (token out : string) : Prop :=
  exists before after,
    out = before ++ token ++ after /\
    lastIs JS.isWhiteSpace before = true /\ headIs JS.isWhiteSpace after = true.

(** *** The matches of a regular expression *)

(** The character before the position reached by reading [s], [prev]
    being the one before [s]. *)
Fixpoint lastOr (prev : option ascii) (s : string) : option ascii :=
  match s with
  | EmptyString => prev
  | String c r => lastOr (Some c) r
  end.

(** [Matches r prev s caps prev' s' caps']: the expression [r] can
    read a prefix of [s], the character before it being [prev], and
    leave [s'], with [prev'] before it; the captures go from [caps] to
    [caps'].  Every result of [Regex.rmatch] is of this kind
    ([rmatch_sound]). *)
Inductive Matches : Regex.regex -> option ascii -> string -> Regex.Captures
                    -> option ascii -> string -> Regex.Captures -> Prop :=
| M_Lit l prev s caps s' :
    s = l ++ s' -> Matches (Regex.Lit l) prev s caps (lastOr prev l) s' caps
| M_Plus p prev s caps m s' :
    s = m ++ s' -> m <> "" -> allChars p m = true ->
    Matches (Regex.PlusCls p) prev s caps (lastOr prev m) s' caps
| M_Boundary prev s caps :
    xorb (Regex.wordBefore prev) (Regex.wordAfter s) = true ->
    Matches Regex.WordBoundary prev s caps prev s caps
| M_Seq r1 r2 prev s caps p1 s1 c1 p2 s2 c2 :
    Matches r1 prev s caps p1 s1 c1 -> Matches r2 p1 s1 c1 p2 s2 c2 ->
    Matches (Regex.Seq r1 r2) prev s caps p2 s2 c2
| M_AltL r1 r2 prev s caps p' s' c' :
    Matches r1 prev s caps p' s' c' -> Matches (Regex.Alt r1 r2) prev s caps p' s' c'
| M_AltR r1 r2 prev s caps p' s' c' :
    Matches r2 prev s caps p' s' c' -> Matches (Regex.Alt r1 r2) prev s caps p' s' c'
| M_OptSome r prev s caps p' s' c' :
    Matches r prev s caps p' s' c' -> Matches (Regex.Opt r) prev s caps p' s' c'
| M_OptNone r prev s caps :
    Matches (Regex.Opt r) prev s caps prev s caps
| M_Group i r prev s caps p' s' c' :
    Matches r prev s caps p' s' c' ->
    Matches (Regex.Group i r) prev s caps p' s' ((i, Regex.consumed s s') :: c').

(* ------------------------------------------------------------------ *)
(** ** Lemmas on the primitives *)

Section MapFacts.
Context {V : Type}.
Implicit Types (m : JS.Map V) (k : string) (v : V).

Lemma get_set_same m k v : JS.get (JS.set m k v) k = Some v.
Proof.
  induction m as [|[k' v'] m IH]; simpl.
  - now rewrite String.eqb_refl.
  - destruct (String.eqb k' k) eqn:E; simpl; now rewrite E.
Qed.

Lemma get_set_other m k k' v :
  k <> k' -> JS.get (JS.set m k v) k' = JS.get m k'.
Proof.
  intros Hne. induction m as [|[k0 v0] m IH]; simpl.
  - destruct (String.eqb k k') eqn:E; [apply String.eqb_eq in E; contradiction | reflexivity].
  - destruct (String.eqb k0 k) eqn:E; simpl.
    + apply String.eqb_eq in E. subst k0.
      destruct (String.eqb k k') eqn:E'; [apply String.eqb_eq in E'; contradiction | reflexivity].
    + now rewrite IH.
Qed.

End MapFacts.

Lemma length_append (a b : string) :
  String.length (a ++ b) = String.length a + String.length b.
Proof. induction a as [|c a IH]; simpl; [reflexivity | now rewrite IH]. Qed.

Lemma append_assoc (a b c : string) : (a ++ b) ++ c = a ++ b ++ c.
Proof. induction a as [|x a IH]; simpl; [reflexivity | now rewrite IH]. Qed.

Lemma substring0_app (a b : string) : substring 0 (String.length a) (a ++ b) = a.
Proof.
  induction a as [|c a IH]; simpl; [now destruct b | now rewrite IH].
Qed.

Lemma substring_skip_app (a b : string) :
  substring (String.length a) (String.length b) (a ++ b) = b.
Proof.
  induction a as [|c a IH]; simpl; [|exact IH].
  induction b as [|c b IH]; simpl; [reflexivity | now rewrite IH].
Qed.

Lemma append_inj_r (a a' b b' : string) :
  a ++ b = a' ++ b' -> String.length b = String.length b' -> a = a' /\ b = b'.
Proof.
  revert a'. induction a as [|c a IH]; intros [|c' a'] H L; simpl in *.
  - now split.
  - exfalso. rewrite H in L. simpl in L. rewrite length_append in L. lia.
  - exfalso. rewrite <- H in L. simpl in L. rewrite length_append in L. lia.
  - injection H as -> H. destruct (IH a' H L) as [-> ->]. now split.
Qed.

Lemma length_toLowerCase (s : string) : String.length (JS.toLowerCase s) = String.length s.
Proof. induction s as [|c s IH]; simpl; [reflexivity | now rewrite IH]. Qed.

Lemma length_substring0 (s : string) (n : nat) :
  n <= String.length s -> String.length (substring 0 n s) = n.
Proof.
  revert n. induction s as [|c s IH]; intros [|n] H; simpl in *; try lia.
  rewrite IH; lia.
Qed.

Lemma slice0_nonempty (s : string) (n : nat) :
  n < String.length s -> JS.slice0 s n <> "".
Proof.
  intros H E. unfold JS.slice0 in E.
  assert (L : String.length (substring 0 (String.length s - n) s) = String.length s - n)
    by (apply length_substring0; lia).
  rewrite E in L. simpl in L. lia.
Qed.

(** A word cannot end both in [te] and in [et]. *)
Lemma endsWith_te_not_et (w : string) :
  JS.endsWith w "te" = true -> JS.endsWith w "et" = false.
Proof.
  unfold JS.endsWith. simpl String.length.
  destruct (2 <=? String.length w); simpl; [|discriminate].
  intros H. apply String.eqb_eq in H. rewrite H. reflexivity.
Qed.

Lemma substring_split (s : string) (k : nat) :
  k <= String.length s ->
  substring 0 k s ++ substring k (String.length s - k) s = s.
Proof.
  revert k. induction s as [|c s IH]; intros [|k] H; simpl in *; try lia.
  - reflexivity.
  - f_equal. clear. induction s as [|c s IH]; simpl; [reflexivity | now rewrite IH].
  - f_equal. apply IH. lia.
Qed.

(** A word that ends with a suffix is what [slice] keeps, followed by
    the suffix. *)
Lemma endsWith_slice0 (w suffix : string) :
  JS.endsWith w suffix = true -> w = JS.slice0 w (String.length suffix) ++ suffix.
Proof.
  unfold JS.endsWith, JS.slice0. intros H. apply andb_true_iff in H.
  destruct H as [L E]. apply Nat.leb_le in L. apply String.eqb_eq in E.
  assert (S : substring 0 (String.length w - String.length suffix) w
              ++ substring (String.length w - String.length suffix)
                   (String.length w - (String.length w - String.length suffix)) w
              = w) by (apply substring_split; lia).
  replace (String.length w - (String.length w - String.length suffix))
    with (String.length suffix) in S by lia.
  rewrite E in S. now symmetry.
Qed.

Lemma slice0_app (stem suffix : string) :
  JS.slice0 (stem ++ suffix) (String.length suffix) = stem.
Proof.
  unfold JS.slice0. rewrite length_append.
  replace (String.length stem + String.length suffix - String.length suffix)
    with (String.length stem) by lia.
  apply substring0_app.
Qed.

Lemma endsWith_app (stem suffix : string) : JS.endsWith (stem ++ suffix) suffix = true.
Proof.
  unfold JS.endsWith. rewrite length_append. apply andb_true_iff. split.
  - apply Nat.leb_le. lia.
  - replace (String.length stem + String.length suffix - String.length suffix)
      with (String.length stem) by lia.
    rewrite substring_skip_app. apply String.eqb_refl.
Qed.

(* ------------------------------------------------------------------ *)
(** ** The index *)

(** The loop over the conjugations leaves every key that is in the map
    with the record it has: line 64 asks [!allWords.has(...)]. *)
Lemma addConjugations_keeps word lvl wordData conjs (allWords : JS.Map WordData) k r :
  JS.get allWords k = Some r ->
  JS.get (VocabularyManager.addConjugations word lvl wordData conjs allWords) k = Some r.
Proof.
  unfold VocabularyManager.addConjugations. revert allWords.
  induction conjs as [|[ct form] conjs IH]; intros allWords Hk; simpl; [exact Hk|].
  apply IH.
  destruct (negb (String.eqb form word) && negb (JS.has allWords form)) eqn:E; [|exact Hk].
  apply andb_true_iff in E. destruct E as [_ E]. apply negb_true_iff in E.
  rewrite get_set_other; [exact Hk|].
  intros ->. unfold JS.has in E. now rewrite Hk in E.
Qed.

(** C1 (violated by the code, at the insertion of lines 76-84).  In the
    vocabulary with the noun "lyst" and the adjective "lys" whose 'et'
    form is "lyst", "lyst" is a root of the dataset, yet after the build
    the record under the key "lyst" is the derived record of the
    adjective: its root is "lys" and its category is 'adjectives'.  The
    insertion of an 'et' form does not ask whether the key is present,
    as the insertion of a conjugated form does ([addConjugations_keeps]). *)
Theorem getAllWords_et_form_overwrites_root :
  In "lyst" (VocabularyManager.rootsOf "nouns" lystVocabulary) /\
  exists derived,
    JS.get (fst (VocabularyManager.getAllWords (VocabularyManager.new lystVocabulary)))
           "lyst" = Some derived /\
    root derived = Some "lys" /\
    category derived = "adjectives" /\
    en (data derived) = None.
Proof.
  split; [simpl; auto|].
  eexists. split; [reflexivity|]. repeat split.
Qed.

(* ------------------------------------------------------------------ *)
(** ** The caches *)

Section Caches.
Import VocabularyManager.
Variable v : Vocabulary.

Lemma new_coherent : coherent (new v).
Proof. unfold coherent; simpl; auto. Qed.

Lemma warm_coherent : coherent (warm v).
Proof. unfold coherent; simpl; auto. Qed.

Lemma stable_ret {A} (a : A) : stable v (ret a).
Proof. reflexivity. Qed.

Lemma stable_bind {A B} (m : M A) (f : A -> M B) :
  stable v m -> (forall a, stable v (f a)) -> stable v (bind m f).
Proof.
  unfold stable, bind. intros Hm Hf.
  destruct (m (warm v)) as [a vm'] eqn:E. simpl in Hm. subst vm'. apply Hf.
Qed.

Lemma getAllWords_warm : getAllWords (warm v) = (allForms v, warm v).
Proof. reflexivity. Qed.

Lemma getWordData_warm (w : string) :
  getWordData w (warm v) = (JS.get (allForms v) w, warm v).
Proof. reflexivity. Qed.

Lemma getWordDataOf_warm (key : option string) :
  Grammar.getWordDataOf key (warm v)
  = (match key with Some w => JS.get (allForms v) w | None => None end, warm v).
Proof. destruct key; reflexivity. Qed.

Lemma stable_getWordDataOf (key : option string) : stable v (Grammar.getWordDataOf key).
Proof. unfold stable. now rewrite getWordDataOf_warm. Qed.

Lemma stable_conjugationFeedback words known verbPos :
  stable v (Grammar.conjugationFeedback words known verbPos).
Proof.
  unfold Grammar.conjugationFeedback.
  destruct verbPos as [pos|]; [|apply stable_ret].
  destruct (nth_error words pos); [|apply stable_ret].
  destruct (nth_error known pos); [|apply stable_ret].
  apply stable_bind; [apply stable_getWordDataOf|].
  intros [d|]; [|apply stable_ret].
  destruct (conjugations (data d)); [|apply stable_ret].
  repeat match goal with
         | |- stable _ (if ?b then _ else _) => destruct b
         end; apply stable_ret.
Qed.

Lemma stable_agreementAt known i : stable v (Grammar.agreementAt known i).
Proof.
  unfold Grammar.agreementAt.
  repeat first
    [ apply stable_ret
    | apply stable_getWordDataOf
    | apply stable_bind; [|intros ?]
    | match goal with
      | |- stable _ (match ?x with _ => _ end) => destruct x
      end ].
Qed.

Lemma stable_forEach {A} (f : A -> M (list Diagnostic)) (l : list A) :
  (forall a, stable v (f a)) -> stable v (Grammar.forEach f l).
Proof.
  intros Hf. induction l as [|a l IH]; simpl; [apply stable_ret|].
  apply stable_bind; [apply Hf|]. intros d.
  apply stable_bind; [apply IH|]. intros ds. apply stable_ret.
Qed.

Lemma stable_agreementFeedback known n : stable v (Grammar.agreementFeedback known n).
Proof. apply stable_forEach. intros i. apply stable_agreementAt. Qed.

(** A stable call is its result and the same state. *)
Lemma stable_run {A} (m : M A) : stable v m -> m (warm v) = (fst (m (warm v)), warm v).
Proof. unfold stable. intros H. destruct (m (warm v)); simpl in *; now subst. Qed.

(** The loop of step 3 at the warm state, turn by turn. *)
Lemma forEach_warm {A} (f : A -> M (list Diagnostic)) (l : list A) :
  (forall a, stable v (f a)) ->
  fst (Grammar.forEach f l (warm v)) = flat_map (fun a => fst (f a (warm v))) l.
Proof.
  intros Hf. induction l as [|a l IH]; [reflexivity|].
  simpl. unfold bind. rewrite (stable_run _ (Hf a)).
  rewrite (stable_run _ (stable_forEach f l Hf)). simpl. now rewrite IH.
Qed.

End Caches.

(** The four calls that open [checkGrammar], from a reachable state. *)
Lemma getters_coherent {A} (vm : VocabularyManager.t)
  (k : JS.Map WordData -> list string -> VocabularyManager.M A) :
  coherent vm ->
  VocabularyManager.bind VocabularyManager.getAllWords (fun allWordsMap =>
  VocabularyManager.bind VocabularyManager.getAllVerbs (fun allVerbsSet =>
  VocabularyManager.bind VocabularyManager.getAllNouns (fun _ =>
  VocabularyManager.bind VocabularyManager.getAllAdjectives (fun _ =>
    k allWordsMap allVerbsSet)))) vm
  = k (allForms (VocabularyManager.vocabulary vm))
      (verbRoots (VocabularyManager.vocabulary vm))
      (warm (VocabularyManager.vocabulary vm)).
Proof.
  destruct vm as [v c1 c2 c3 c4]. unfold coherent. simpl.
  intros [[-> | ->] [[-> | ->] [[-> | ->] [-> | ->]]]]; reflexivity.
Qed.

(** From a reachable state, [checkGrammar] computes the feedback of the
    vocabulary and leaves the caches filled. *)
Lemma checkGrammarFeedback_coherent (vm : VocabularyManager.t) (input : string) :
  coherent vm ->
  Grammar.checkGrammarFeedback input vm
  = (feedbackOn (VocabularyManager.vocabulary vm) input,
     warm (VocabularyManager.vocabulary vm)).
Proof.
  intros H. unfold Grammar.checkGrammarFeedback.
  rewrite (getters_coherent vm _ H).
  set (v := VocabularyManager.vocabulary vm).
  unfold feedbackOn. fold (sentenceOf input).
  destruct ((String.length (sentenceOf input) =? 0)
            || (String.length (JS.trim (sentenceOf input)) =? 0)); [reflexivity|].
  destruct (length (Grammar.wordsOf (sentenceOf input)) =? 0); [reflexivity|].
  unfold VocabularyManager.bind.
  rewrite (stable_run v _ (stable_conjugationFeedback v _ _ _)).
  rewrite (stable_run v _ (stable_agreementFeedback v _ _)).
  reflexivity.
Qed.

Lemma analyzeSentence_feedbackOn (v : Vocabulary) (input : string) :
  analyzeSentence v input = feedbackOn v input.
Proof.
  unfold analyzeSentence.
  now rewrite (checkGrammarFeedback_coherent _ input (new_coherent v)).
Qed.

(** From a reachable state, [translateSentenceWords] computes the
    translation of the vocabulary and fills at most the cache of the
    index. *)
Lemma translateSentenceWords_coherent (vm : VocabularyManager.t) (sentence : string) :
  coherent vm ->
  fst (Translate.translateSentenceWords sentence vm)
    = translationOn (VocabularyManager.vocabulary vm) sentence
  /\ coherent (snd (Translate.translateSentenceWords sentence vm))
  /\ VocabularyManager.vocabulary (snd (Translate.translateSentenceWords sentence vm))
     = VocabularyManager.vocabulary vm.
Proof.
  destruct vm as [v c1 c2 c3 c4]. unfold coherent. simpl.
  intros [[-> | ->] H];
    unfold Translate.translateSentenceWords, VocabularyManager.bind, translationOn,
      VocabularyManager.getAllWords; simpl;
    fold (allForms v);
    destruct (find (Translate.isExampleOf sentence) (JS.values (allForms v)));
    simpl; repeat split; auto; apply H.
Qed.

(* ------------------------------------------------------------------ *)
(** ** Empty sentences *)

Lemma trimStart_allWhiteSpace (s : string) :
  allWhiteSpace (JS.trimStart s) = true -> allWhiteSpace s = true.
Proof.
  induction s as [|c s IH]; simpl; [auto|].
  destruct (JS.isWhiteSpace c) eqn:E; simpl; [exact IH|].
  now rewrite E.
Qed.

Lemma trimEnd_empty (s : string) :
  JS.trimEnd s = "" -> allWhiteSpace s = true.
Proof.
  induction s as [|c s IH]; simpl; [auto|].
  destruct (JS.trimEnd s); [|discriminate].
  destruct (JS.isWhiteSpace c); [intros _; now apply IH | discriminate].
Qed.

Lemma trim_empty (s : string) :
  String.length (JS.trim s) = 0 -> allWhiteSpace s = true.
Proof.
  unfold JS.trim. intros H.
  apply trimStart_allWhiteSpace, trimEnd_empty.
  destruct (JS.trimEnd (JS.trimStart s)); [reflexivity | discriminate].
Qed.

Lemma split_ws_allWhiteSpace (s : string) :
  allWhiteSpace s = true ->
  JS.split_ws_from "" true s = [""] /\
  Forall (fun t => t = "") (JS.split_ws_from "" false s).
Proof.
  induction s as [|c s IH]; simpl; [auto|].
  intros H. apply andb_true_iff in H. destruct H as [Hc Hs]. rewrite Hc.
  destruct (IH Hs) as [IH1 _]. rewrite IH1. auto.
Qed.

Lemma words_of_empty_pieces (l : list string) :
  Forall (fun t => JS.stripFinalPunct t = "") l ->
  filter JS.nonEmpty (map JS.stripFinalPunct l) = [].
Proof.
  induction 1 as [|t l Ht _ IH]; simpl; [reflexivity|].
  now rewrite Ht, IH.
Qed.

(** A sentence with a word is not empty after trimming. *)
Lemma wordsOf_trim (s : string) :
  Grammar.wordsOf s <> [] -> String.length (JS.trim s) <> 0 /\ String.length s <> 0.
Proof.
  intros Hw. assert (Ht : String.length (JS.trim s) <> 0).
  { intros H. apply Hw. unfold Grammar.wordsOf.
    apply words_of_empty_pieces.
    destruct (split_ws_allWhiteSpace s (trim_empty s H)) as [_ F].
    unfold JS.split_ws. eapply Forall_impl; [|exact F].
    intros t ->. reflexivity. }
  split; [exact Ht|]. intros H. destruct s; [|discriminate]. now apply Ht.
Qed.

(** The result of [checkGrammarFeedback] when the test of line 494 or
    the test of line 501 succeeds, in any state. *)
Lemma checkGrammarFeedback_early (vm : VocabularyManager.t) (input : string) :
  (String.length (sentenceOf input) =? 0)
  || (String.length (JS.trim (sentenceOf input)) =? 0)
  || (length (tokens input) =? 0) = true ->
  fst (Grammar.checkGrammarFeedback input vm) = None.
Proof.
  intros H. unfold Grammar.checkGrammarFeedback. fold (sentenceOf input).
  unfold VocabularyManager.bind.
  destruct (VocabularyManager.getAllWords vm) as [a vm1].
  destruct (VocabularyManager.getAllVerbs vm1) as [b vm2].
  destruct (VocabularyManager.getAllNouns vm2) as [c vm3].
  destruct (VocabularyManager.getAllAdjectives vm3) as [d vm4].
  destruct ((String.length (sentenceOf input) =? 0)
            || (String.length (JS.trim (sentenceOf input)) =? 0)); [reflexivity|].
  simpl in H. unfold tokens in H. now rewrite H.
Qed.

(** C8.  When the input is empty after trimming, or when every piece
    of the sentence is empty once its final punctuation mark is removed,
    the grammar check gives the one message "Write a sentence first!"
    and builds no feedback: none of the checks runs.  This holds in
    every state of the object. *)
Theorem empty_sentence_write_first (vm : VocabularyManager.t) (input : string) :
  JS.trim input = "" \/
  Forall (fun t => JS.stripFinalPunct t = "") (JS.split_ws (sentenceOf input)) ->
  fst (Grammar.checkGrammarFeedback input vm) = None /\
  fst (Grammar.checkGrammar input vm) = "Write a sentence first!".
Proof.
  intros H.
  assert (E : fst (Grammar.checkGrammarFeedback input vm) = None).
  { apply checkGrammarFeedback_early. destruct H as [H|H].
    - unfold sentenceOf. rewrite H. reflexivity.
    - unfold tokens, Grammar.wordsOf. rewrite (words_of_empty_pieces _ H).
      simpl. now rewrite !orb_true_r. }
  split; [exact E|].
  unfold Grammar.checkGrammar, VocabularyManager.bind.
  destruct (Grammar.checkGrammarFeedback input vm) as [fb vm']. simpl in E. now subst.
Qed.

Lemma empty_sentence_write_first_witness :
  (JS.trim "   " = "" \/
   Forall (fun t => JS.stripFinalPunct t = "") (JS.split_ws (sentenceOf "   "))) /\
  fst (Grammar.checkGrammarFeedback "   " (VocabularyManager.new articleVocabulary)) = None /\
  fst (Grammar.checkGrammar "   " (VocabularyManager.new articleVocabulary))
    = "Write a sentence first!".
Proof.
  split; [left; reflexivity|].
  apply (empty_sentence_write_first (VocabularyManager.new articleVocabulary) "   ").
  left; reflexivity.
Defined.

(* ------------------------------------------------------------------ *)
(** ** Determinism *)

(** Every state the object reaches is coherent, with the vocabulary it
    was made with. *)
Lemma reachable_coherent (v : Vocabulary) (vm : VocabularyManager.t) :
  reachable v vm -> coherent vm /\ VocabularyManager.vocabulary vm = v.
Proof.
  induction 1 as [|vm _ [IH E]|vm _ [IH E]|vm _ [IH E]|vm _ [IH E]|w vm _ [IH E]
                  |lvl vm _ [IH E]|input vm _ [IH E]|input vm _ [IH E]].
  - split; [apply new_coherent | reflexivity].
  - destruct vm as [v' c1 c2 c3 c4]. simpl in E. subst v'.
    unfold coherent in *. simpl in *. destruct c1; simpl; tauto.
  - destruct vm as [v' c1 c2 c3 c4]. simpl in E. subst v'.
    unfold coherent in *. simpl in *. destruct c2; simpl; tauto.
  - destruct vm as [v' c1 c2 c3 c4]. simpl in E. subst v'.
    unfold coherent in *. simpl in *. destruct c3; simpl; tauto.
  - destruct vm as [v' c1 c2 c3 c4]. simpl in E. subst v'.
    unfold coherent in *. simpl in *. destruct c4; simpl; tauto.
  - destruct vm as [v' c1 c2 c3 c4]. simpl in E. subst v'.
    unfold coherent, VocabularyManager.getWordData, VocabularyManager.bind in *.
    simpl in *. destruct c1; simpl; tauto.
  - split; assumption.
  - unfold Grammar.checkGrammar, VocabularyManager.bind.
    rewrite (checkGrammarFeedback_coherent vm input IH). simpl. rewrite E.
    split; [apply warm_coherent | reflexivity].
  - unfold Translate.translateSentence.
    destruct (String.length (JS.toLowerCase (JS.trim input)) =? 0); [split; assumption|].
    unfold VocabularyManager.bind.
    destruct (translateSentenceWords_coherent vm (JS.toLowerCase (JS.trim input)) IH)
      as (_ & C & V).
    destruct (Translate.translateSentenceWords (JS.toLowerCase (JS.trim input)) vm)
      as [t vm']. simpl in *. split; [exact C | congruence].
Qed.

(** C10.  From any state the object can reach, a grammar check gives
    the feedback, and a translation the string, that the vocabulary and
    the sentence determine (the ones a new object gives), and leaves a
    state the object can reach: so a second run, with the caches the
    first one filled, gives the identical feedback, mentor text and
    translation.  No random source enters the two methods. *)
Theorem analysis_and_translation_deterministic
  (vm : VocabularyManager.t) (input : string) :
  coherent vm ->
  let v := VocabularyManager.vocabulary vm in
  let check1 := Grammar.checkGrammarFeedback input vm in
  let check2 := Grammar.checkGrammarFeedback input (snd check1) in
  let text1 := Grammar.checkGrammar input vm in
  let text2 := Grammar.checkGrammar input (snd text1) in
  let tr1 := Translate.translateSentenceWords input vm in
  let tr2 := Translate.translateSentenceWords input (snd tr1) in
  fst check1 = analyzeSentence v input /\ fst check2 = fst check1 /\
  fst text2 = fst text1 /\
  fst tr1 = translation v input /\ fst tr2 = fst tr1 /\
  coherent (snd check1) /\ coherent (snd tr1).
Proof.
  intros H v check1 check2 text1 text2 tr1 tr2.
  assert (C1 : check1 = (feedbackOn v input, warm v))
    by (apply checkGrammarFeedback_coherent; exact H).
  assert (C2 : check2 = (feedbackOn v input, warm v)).
  { unfold check2. rewrite C1. simpl.
    apply (checkGrammarFeedback_coherent (warm v) input (warm_coherent v)). }
  assert (T1 : text1 = (Grammar.mentorText (feedbackOn v input), warm v)).
  { unfold text1, Grammar.checkGrammar, VocabularyManager.bind. fold check1.
    now rewrite C1. }
  assert (T2 : text2 = (Grammar.mentorText (feedbackOn v input), warm v)).
  { unfold text2, Grammar.checkGrammar, VocabularyManager.bind. rewrite T1. simpl.
    now rewrite (checkGrammarFeedback_coherent (warm v) input (warm_coherent v)). }
  destruct (translateSentenceWords_coherent vm input H) as (R1 & R2 & R3).
  fold tr1 in R1, R2, R3.
  destruct (translateSentenceWords_coherent (snd tr1) input R2) as (R4 & _ & _).
  fold tr2 in R4. rewrite R3 in R4. fold v in R1, R4.
  destruct (translateSentenceWords_coherent _ input (new_coherent v)) as (R5 & _ & _).
  simpl in R5.
  rewrite C1, C2, T1, T2, analyzeSentence_feedbackOn. simpl.
  unfold translation. rewrite R1, R4, R5.
  do 5 (split; [reflexivity|]). split; [apply warm_coherent | exact R2].
Qed.

Lemma analysis_and_translation_deterministic_witness :
  coherent (warm articleVocabulary) /\
  fst (Grammar.checkGrammarFeedback "en hus" (warm articleVocabulary))
    = analyzeSentence articleVocabulary "en hus".
Proof.
  split; [apply warm_coherent|].
  apply (analysis_and_translation_deterministic (warm articleVocabulary) "en hus"
           (warm_coherent articleVocabulary)).
Defined.

(* ------------------------------------------------------------------ *)
(** ** The parts of the feedback *)

Lemma always_ret {A} (P : A -> Prop) (a : A) : P a -> always P (VocabularyManager.ret a).
Proof. intros H vm. exact H. Qed.

Lemma always_bind {A B} (P : B -> Prop) (m : VocabularyManager.M A)
  (f : A -> VocabularyManager.M B) :
  (forall a, always P (f a)) -> always P (VocabularyManager.bind m f).
Proof.
  intros Hf vm. unfold VocabularyManager.bind.
  destruct (m vm) as [a vm']. apply Hf.
Qed.

(** The kinds of diagnostics are told apart by case analysis. *)
Ltac other_kind := intros []; unfold isAgreement; simpl; intros; congruence.

Lemma countIf_app (p : Diagnostic -> bool) (a b : list Diagnostic) :
  countIf p (a ++ b) = countIf p a + countIf p b.
Proof. unfold countIf. now rewrite filter_app, length_app. Qed.

(** Diagnostics of one kind hold none of a disjoint kind. *)
Lemma filter_other_kind (q p : Diagnostic -> bool) (l : list Diagnostic) :
  (forall d, q d = true -> p d = false) ->
  Forall (fun d => q d = true) l -> filter p l = [].
Proof.
  intros Hqp. induction 1 as [|d l Hd _ IH]; simpl; [reflexivity|].
  now rewrite (Hqp d Hd).
Qed.

Lemma filter_same_kind (q p : Diagnostic -> bool) (l : list Diagnostic) :
  (forall d, q d = true -> p d = true) ->
  Forall (fun d => q d = true) l -> filter p l = l.
Proof.
  intros Hqp. induction 1 as [|d l Hd _ IH]; simpl; [reflexivity|].
  now rewrite (Hqp d Hd), IH.
Qed.

Lemma unknownFeedback_kind (forms : JS.Map WordData) (words : list string) :
  Forall (fun d => isUnrecognized d = true) (Grammar.unknownFeedback forms words).
Proof.
  unfold Grammar.unknownFeedback. induction words as [|w words IH]; simpl; [constructor|].
  destruct (Grammar.found forms w); simpl; [exact IH | constructor; auto].
Qed.

Lemma conjugationFeedback_kind words known verbPos :
  always (Forall (fun d => isConjugation d = true))
         (Grammar.conjugationFeedback words known verbPos).
Proof.
  unfold Grammar.conjugationFeedback.
  destruct verbPos as [pos|]; [|now apply always_ret].
  destruct (nth_error words pos); [|now apply always_ret].
  destruct (nth_error known pos); [|now apply always_ret].
  apply always_bind. intros [d|]; [|now apply always_ret].
  destruct (conjugations (data d)); [|now apply always_ret].
  repeat match goal with
         | |- always _ (if ?b then _ else _) => destruct b
         end; apply always_ret; repeat constructor.
Qed.

Lemma articleFeedback_kind article nounData (mk : string -> string -> Diagnostic) :
  (forall a b, isGenderMismatch (mk a b) = true) ->
  Forall (fun d => isGenderMismatch d = true)
         (Grammar.articleFeedback article nounData mk).
Proof.
  intros Hmk. unfold Grammar.articleFeedback.
  repeat match goal with
         | |- Forall _ (if ?b then _ else _) => destruct b
         end; repeat constructor; apply Hmk.
Qed.

Lemma adjectiveFeedback_kind article nextWordInfo adjectiveRootData :
  Forall (fun d => isAdjectiveForm d = true)
         (Grammar.adjectiveFeedback article nextWordInfo adjectiveRootData).
Proof.
  unfold Grammar.adjectiveFeedback. destruct adjectiveRootData as [a|]; [|constructor].
  repeat match goal with
         | |- Forall _ (if ?b then _ else _) => destruct b
         end; repeat constructor.
Qed.

Lemma gender_is_agreement d : isGenderMismatch d = true -> isAgreement d = true.
Proof. unfold isAgreement. now intros ->. Qed.

Lemma form_is_agreement d : isAdjectiveForm d = true -> isAgreement d = true.
Proof. unfold isAgreement. intros ->. apply orb_true_r. Qed.

Lemma agreementAt_kind known i :
  always (Forall (fun d => isAgreement d = true)) (Grammar.agreementAt known i).
Proof.
  assert (G : forall article nounData mk,
             (forall a b, isGenderMismatch (mk a b) = true) ->
             Forall (fun d => isAgreement d = true)
                    (Grammar.articleFeedback article nounData mk)).
  { intros. eapply Forall_impl; [|now apply articleFeedback_kind].
    apply gender_is_agreement. }
  assert (F : forall article next ard,
             Forall (fun d => isAgreement d = true)
                    (Grammar.adjectiveFeedback article next ard)).
  { intros. eapply Forall_impl; [|apply adjectiveFeedback_kind].
    apply form_is_agreement. }
  unfold Grammar.agreementAt.
  repeat first
    [ apply always_ret;
      first [ constructor | apply Forall_app; split; [apply G | apply F]; reflexivity
            | apply G; reflexivity ]
    | apply always_bind; intros ?
    | match goal with
      | |- always _ (match ?x with _ => _ end) => destruct x
      end ].
Qed.

Lemma forEach_kind {A} (q : Diagnostic -> bool) (f : A -> VocabularyManager.M (list Diagnostic))
  (l : list A) :
  (forall a, always (Forall (fun d => q d = true)) (f a)) ->
  always (Forall (fun d => q d = true)) (Grammar.forEach f l).
Proof.
  intros Hf. induction l as [|a l IH]; simpl; [apply always_ret; constructor|].
  intros vm. unfold VocabularyManager.bind.
  pose proof (Hf a vm) as Ha. destruct (f a vm) as [d vm1]. simpl in Ha.
  pose proof (IH vm1) as Hl. destruct (Grammar.forEach f l vm1) as [ds vm2]. simpl in *.
  apply Forall_app. auto.
Qed.

Lemma agreementFeedback_kind known n :
  always (Forall (fun d => isAgreement d = true)) (Grammar.agreementFeedback known n).
Proof. apply forEach_kind. intros i. apply agreementAt_kind. Qed.

(** The feedback of a sentence that has a word. *)
Lemma feedbackOn_words (v : Vocabulary) (input : string) :
  tokens input <> [] ->
  let words := tokens input in
  let known := Grammar.knownWordsInfo (allForms v) words in
  let verbPos := Grammar.verbPosition (verbRoots v) known in
  feedbackOn v input
  = Some (Grammar.unknownFeedback (allForms v) words
          ++ Grammar.v2Feedback (length words) verbPos
          ++ fst (Grammar.conjugationFeedback words known verbPos (warm v))
          ++ fst (Grammar.agreementFeedback known (length words) (warm v)))%list.
Proof.
  intros Hw. unfold feedbackOn, tokens in *.
  destruct (wordsOf_trim _ Hw) as [H1 H2].
  apply Nat.eqb_neq in H1, H2. rewrite H1, H2. simpl.
  destruct (Grammar.wordsOf (sentenceOf input)); [contradiction | reflexivity].
Qed.

Lemma feedbackOn_some (v : Vocabulary) (input : string) (fb : list Diagnostic) :
  feedbackOn v input = Some fb -> tokens input <> [].
Proof.
  unfold feedbackOn, tokens.
  destruct ((String.length (sentenceOf input) =? 0)
            || (String.length (JS.trim (sentenceOf input)) =? 0)); [discriminate|].
  destruct (Grammar.wordsOf (sentenceOf input)); [discriminate | discriminate].
Qed.

(* ------------------------------------------------------------------ *)
(** ** The verb and its position *)

Lemma isVerbInfo_spec (verbs : list string) (d : WordInfo.t) :
  Grammar.isVerbInfo verbs d = true <-> isVerb verbs d.
Proof.
  unfold Grammar.isVerbInfo, isVerb, JS.array_includes. split.
  - intros H. apply andb_true_iff in H. destruct H as [Hc Hr].
    apply String.eqb_eq in Hc. split; [exact Hc|].
    destruct (WordInfo.rootWord d) as [r|]; [|discriminate].
    exists r. split; [reflexivity|].
    apply existsb_exists in Hr. destruct Hr as (y & Hy & E).
    apply String.eqb_eq in E. now subst.
  - intros (Hc & r & Hr & Hin). rewrite Hc, Hr. simpl.
    apply existsb_exists. exists r. split; [exact Hin | apply String.eqb_refl].
Qed.

Lemma verbPositionFrom_spec (verbs : list string) (known : list WordInfo.t) (p : nat) :
  match Grammar.verbPositionFrom verbs known p with
  | Some pos => p <= pos /\ firstVerbAt verbs known (pos - p)
  | None => forall j d, nth_error known j = Some d -> ~ isVerb verbs d
  end.
Proof.
  revert p. induction known as [|d known IH]; intros p; simpl.
  - intros [|j] d'; discriminate.
  - destruct (Grammar.isVerbInfo verbs d) eqn:E.
    + split; [lia|]. rewrite Nat.sub_diag. split.
      * exists d. split; [reflexivity | now apply isVerbInfo_spec].
      * intros j d' Hj. lia.
    + assert (Hd : ~ isVerb verbs d).
      { intros H. apply isVerbInfo_spec in H. congruence. }
      specialize (IH (S p)).
      destruct (Grammar.verbPositionFrom verbs known (S p)) as [pos|].
      * destruct IH as [Hle [[d' [Hn Hv]] Hfirst]]. split; [lia|].
        replace (pos - p) with (S (pos - S p)) by lia. split.
        -- exists d'. auto.
        -- intros [|j] d''; simpl; intros Hj Hn'.
           ++ now inversion Hn'; subst.
           ++ apply (Hfirst j); [lia | exact Hn'].
      * intros [|j] d'; simpl; intros Hn.
        -- now inversion Hn; subst.
        -- now apply (IH j).
Qed.

(** The loop of lines 561-569 finds the first verb of the sentence. *)
Lemma verbPosition_first (verbs : list string) (known : list WordInfo.t) (pos : nat) :
  Grammar.verbPosition verbs known = Some pos <-> firstVerbAt verbs known pos.
Proof.
  unfold Grammar.verbPosition.
  pose proof (verbPositionFrom_spec verbs known 0) as S.
  destruct (Grammar.verbPositionFrom verbs known 0) as [pos'|].
  - destruct S as [_ S]. rewrite Nat.sub_0_r in S. split.
    + now intros [= <-].
    + intros F. f_equal.
      destruct S as [[d1 [N1 V1]] F1], F as [[d2 [N2 V2]] F2].
      destruct (Nat.lt_trichotomy pos' pos) as [L|[E|L]]; [|exact E|].
      * exfalso. now apply (F2 pos' d1).
      * exfalso. now apply (F1 pos d2).
  - split; [discriminate|]. intros [[d [N V]] _]. exfalso. now apply (S pos d).
Qed.

Lemma verbPosition_none (verbs : list string) (known : list WordInfo.t) :
  Grammar.verbPosition verbs known = None <->
  (forall j d, nth_error known j = Some d -> ~ isVerb verbs d).
Proof.
  unfold Grammar.verbPosition.
  pose proof (verbPositionFrom_spec verbs known 0) as S.
  destruct (Grammar.verbPositionFrom verbs known 0) as [pos|].
  - split; [discriminate|]. intros H. exfalso.
    destruct S as [_ [[d [N V]] _]]. now apply (H _ _ N).
  - split; auto.
Qed.

(** The two diagnostics of step 2 come from step 2 only. *)
Lemma count_step2 (p : Diagnostic -> bool) (v : Vocabulary) (input : string)
  (fb : list Diagnostic) :
  (forall d, isUnrecognized d = true -> p d = false) ->
  (forall d, isConjugation d = true -> p d = false) ->
  (forall d, isAgreement d = true -> p d = false) ->
  analyzeSentence v input = Some fb ->
  countIf p fb
  = countIf p (Grammar.v2Feedback (length (tokens input))
                 (Grammar.verbPosition (verbRoots v)
                    (Grammar.knownWordsInfo (allForms v) (tokens input)))).
Proof.
  intros HU HC HA H. rewrite analyzeSentence_feedbackOn in H.
  pose proof (feedbackOn_some _ _ _ H) as Hw.
  rewrite (feedbackOn_words v input Hw) in H. injection H as <-.
  rewrite !countIf_app. unfold countIf at 1 3 4.
  rewrite (filter_other_kind _ p _ HU (unknownFeedback_kind _ _)).
  rewrite (filter_other_kind _ p _ HC (conjugationFeedback_kind _ _ _ _)).
  rewrite (filter_other_kind _ p _ HA (agreementFeedback_kind _ _ _)).
  simpl. lia.
Qed.

(** C4.  In the feedback of an analysed sentence: the position that
    step 2 finds is the position of the first resolved word whose
    category is 'verbs' and whose root is a verb root; when the sentence
    has more than one word and that position is not 1, the feedback
    holds exactly one verb-position diagnostic and no "no verb"
    diagnostic; when there is no such word, it holds exactly one "no
    verb" diagnostic and no verb-position diagnostic; it never holds
    both. *)
Theorem v2_check (v : Vocabulary) (input : string) (fb : list Diagnostic) :
  analyzeSentence v input = Some fb ->
  let words := tokens input in
  let known := Grammar.knownWordsInfo (allForms v) words in
  let verbPos := Grammar.verbPosition (verbRoots v) known in
  (forall pos, verbPos = Some pos <-> firstVerbAt (verbRoots v) known pos) /\
  (verbPos = None <-> forall j d, nth_error known j = Some d -> ~ isVerb (verbRoots v) d) /\
  (forall pos, 1 < length words -> verbPos = Some pos -> pos <> 1 ->
     countIf isVerbNotSecond fb = 1 /\ countIf isNoVerbFound fb = 0) /\
  (verbPos = None ->
     countIf isNoVerbFound fb = 1 /\ countIf isVerbNotSecond fb = 0) /\
  countIf isVerbNotSecond fb + countIf isNoVerbFound fb <= 1.
Proof.
  intros H words known verbPos.
  assert (K : forall q, (forall d, isUnrecognized d = true -> q d = false) ->
                        (forall d, isConjugation d = true -> q d = false) ->
                        (forall d, isAgreement d = true -> q d = false) ->
                        countIf q fb = countIf q (Grammar.v2Feedback (length words) verbPos)).
  { intros q H1 H2 H3. exact (count_step2 q v input fb H1 H2 H3 H). }
  assert (E1 : countIf isVerbNotSecond fb
               = countIf isVerbNotSecond (Grammar.v2Feedback (length words) verbPos))
    by (apply K; other_kind).
  assert (E2 : countIf isNoVerbFound fb
               = countIf isNoVerbFound (Grammar.v2Feedback (length words) verbPos))
    by (apply K; other_kind).
  rewrite E1, E2. unfold Grammar.v2Feedback, countIf.
  split; [intros pos; apply verbPosition_first|].
  split; [apply verbPosition_none|].
  split; [|split].
  - intros pos Hlen -> Hpos.
    apply Nat.ltb_lt in Hlen. apply Nat.eqb_neq in Hpos.
    rewrite Hlen, Hpos. simpl. auto.
  - intros ->. simpl. auto.
  - destruct verbPos as [pos|]; [|simpl; lia].
    destruct ((1 <? length words) && negb (pos =? 1)); simpl; lia.
Qed.

Lemma v2_check_witness :
  analyzeSentence articleVocabulary "pige hus spiser" = Some [VerbNotSecond] /\
  countIf isVerbNotSecond [VerbNotSecond] + countIf isNoVerbFound [VerbNotSecond] <= 1.
Proof.
  split; [reflexivity|].
  apply (v2_check articleVocabulary "pige hus spiser" [VerbNotSecond] eq_refl).
Defined.

(* ------------------------------------------------------------------ *)
(** ** Articles *)

Lemma word_recognize (forms : JS.Map WordData) (w : string) :
  WordInfo.word (Grammar.recognize forms w) = w.
Proof.
  unfold Grammar.recognize. destruct (JS.get forms w); [reflexivity|].
  now destruct (Grammar.firstKnown forms (Grammar.possibleRoots w)) as [[c r]|].
Qed.

(** The variable [found] tells whether a record was stored. *)
Lemma found_recognize (forms : JS.Map WordData) (w : string) :
  Grammar.found forms w
  = Grammar.isSome (WordInfo.originalWordData (Grammar.recognize forms w)).
Proof.
  unfold Grammar.found, Grammar.recognize. destruct (JS.get forms w); [reflexivity|].
  now destruct (Grammar.firstKnown forms (Grammar.possibleRoots w)) as [[c r]|].
Qed.

(** A word with a category other than 'unknown' was found. *)
Lemma recognize_known (forms : JS.Map WordData) (w : string) :
  WordInfo.category (Grammar.recognize forms w) <> "unknown" ->
  Grammar.isSome (WordInfo.originalWordData (Grammar.recognize forms w)) = true.
Proof.
  unfold Grammar.recognize. destruct (JS.get forms w); [reflexivity|].
  destruct (Grammar.firstKnown forms (Grammar.possibleRoots w)) as [[c r]|]; [reflexivity|].
  simpl. congruence.
Qed.

Lemma v2Feedback_kind (n : nat) (verbPos : option nat) :
  Forall (fun d => isVerbNotSecond d || isNoVerbFound d = true)
         (Grammar.v2Feedback n verbPos).
Proof.
  unfold Grammar.v2Feedback. destruct verbPos as [pos|]; [|repeat constructor].
  destruct ((1 <? n) && negb (pos =? 1)); repeat constructor.
Qed.

(** The agreement diagnostics of the feedback are those of step 3,
    position by position. *)
Lemma agreement_part (p : Diagnostic -> bool) (v : Vocabulary) (input : string)
  (fb : list Diagnostic) :
  (forall d, isUnrecognized d = true -> p d = false) ->
  (forall d, isVerbNotSecond d || isNoVerbFound d = true -> p d = false) ->
  (forall d, isConjugation d = true -> p d = false) ->
  analyzeSentence v input = Some fb ->
  filter p fb
  = filter p
      (flat_map (fun i => fst (Grammar.agreementAt
                                 (Grammar.knownWordsInfo (allForms v) (tokens input)) i
                                 (warm v)))
                (seq 0 (length (tokens input)))).
Proof.
  intros HU HV HC H. rewrite analyzeSentence_feedbackOn in H.
  pose proof (feedbackOn_some _ _ _ H) as Hw.
  rewrite (feedbackOn_words v input Hw) in H. injection H as <-.
  rewrite !filter_app.
  rewrite (filter_other_kind _ p _ HU (unknownFeedback_kind _ _)).
  rewrite (filter_other_kind _ p _ HV (v2Feedback_kind _ _)).
  rewrite (filter_other_kind _ p _ HC (conjugationFeedback_kind _ _ _ _)).
  simpl. unfold Grammar.agreementFeedback.
  rewrite forEach_warm; [reflexivity|]. intros i. apply stable_agreementAt.
Qed.

(** A turn of step 3 pushes something only at an article that was
    recognized. *)
Lemma agreementAt_article (forms : JS.Map WordData) (words : list string) (i : nat)
  (vm : VocabularyManager.t) (d : Diagnostic) :
  In d (fst (Grammar.agreementAt (Grammar.knownWordsInfo forms words) i vm)) ->
  exists w, nth_error words i = Some w /\ (w = "en" \/ w = "et") /\
            WordInfo.category (Grammar.recognize forms w) <> "unknown".
Proof.
  unfold Grammar.agreementAt, Grammar.knownWordsInfo.
  rewrite nth_error_map. destruct (nth_error words i) as [w|]; simpl; [|contradiction].
  destruct (String.eqb (WordInfo.category (Grammar.recognize forms w)) "unknown") eqn:E1;
    [contradiction|].
  rewrite word_recognize.
  destruct (String.eqb w "en" || String.eqb w "et") eqn:E2; [|contradiction].
  intros _. exists w. split; [reflexivity|]. split.
  - apply orb_true_iff in E2. destruct E2 as [E|E]; apply String.eqb_eq in E; auto.
  - now apply String.eqb_neq.
Qed.

(** C9.  In the feedback of an analysed sentence, the agreement
    diagnostics (gender mismatch and adjective form) are those that the
    turns of step 3 push, position by position; a turn pushes one at
    position [i], in any state of the object, only if the word at [i] is
    'en' or 'et' and is itself resolved, by the index or by suffix
    stripping, to a category other than 'unknown'.  So when neither 'en'
    nor 'et' resolves, the feedback holds no agreement diagnostic. *)
Theorem agreement_only_for_known_articles
  (v : Vocabulary) (input : string) (fb : list Diagnostic) :
  analyzeSentence v input = Some fb ->
  let words := tokens input in
  let known := Grammar.knownWordsInfo (allForms v) words in
  filter isAgreement fb
    = flat_map (fun i => fst (Grammar.agreementAt known i (warm v)))
               (seq 0 (length words)) /\
  (forall i vm d, In d (fst (Grammar.agreementAt known i vm)) ->
     exists w, nth_error words i = Some w /\ (w = "en" \/ w = "et") /\
               WordInfo.category (Grammar.recognize (allForms v) w) <> "unknown") /\
  (WordInfo.category (Grammar.recognize (allForms v) "en") = "unknown" ->
   WordInfo.category (Grammar.recognize (allForms v) "et") = "unknown" ->
   filter isAgreement fb = []).
Proof.
  intros H words known.
  assert (E : filter isAgreement fb
              = flat_map (fun i => fst (Grammar.agreementAt known i (warm v)))
                         (seq 0 (length words))).
  { rewrite (agreement_part isAgreement v input fb); try exact H;
      try other_kind.
    apply filter_same_kind with (q := isAgreement); [auto|].
    apply Forall_flat_map, Forall_forall. intros i _. apply agreementAt_kind. }
  split; [exact E|]. split.
  - intros i vm d. apply agreementAt_article.
  - intros Hen Het. rewrite E. clear E.
    induction (seq 0 (length words)) as [|i l IH]; [reflexivity|]. simpl.
    rewrite IH.
    destruct (fst (Grammar.agreementAt known i (warm v))) as [|d ds] eqn:Ed; [reflexivity|].
    exfalso.
    assert (Hd : In d (fst (Grammar.agreementAt known i (warm v))))
      by (rewrite Ed; now left).
    destruct (agreementAt_article (allForms v) words i (warm v) d Hd)
      as (w & _ & [->| ->] & Hw); now apply Hw.
Qed.

Lemma agreement_only_for_known_articles_witness :
  analyzeSentence husVocabulary "en hus" = Some [Unrecognized "en"; NoVerbFound] /\
  filter isAgreement [Unrecognized "en"; NoVerbFound]
  = flat_map (fun i => fst (Grammar.agreementAt
                              (Grammar.knownWordsInfo (allForms husVocabulary)
                                 (tokens "en hus")) i (warm husVocabulary)))
             (seq 0 (length (tokens "en hus"))).
Proof.
  split; [reflexivity|].
  exact (proj1 (agreement_only_for_known_articles husVocabulary "en hus"
                  [Unrecognized "en"; NoVerbFound] eq_refl)).
Defined.

(** Step 3 on an article that is recognized and a noun of the other
    gender, in a sentence of two words. *)
Lemma agreement_article_noun (v : Vocabulary) (article noun nounRoot : string)
  (nounData : WordData) :
  (article = "en" \/ article = "et") ->
  WordInfo.category (Grammar.recognize (allForms v) article) <> "unknown" ->
  WordInfo.category (Grammar.recognize (allForms v) noun) = "nouns" ->
  WordInfo.rootWord (Grammar.recognize (allForms v) noun) = Some nounRoot ->
  JS.get (allForms v) nounRoot = Some nounData ->
  hasOpposite article nounData = true ->
  flat_map (fun i => fst (Grammar.agreementAt
                            (Grammar.knownWordsInfo (allForms v) [article; noun]) i
                            (warm v)))
           [0; 1]
  = [NounArticle (Some nounRoot) (otherArticle article) article].
Proof.
  intros Hart Hknown Hcat Hroot Hget Hopp.
  assert (Hsome : Grammar.isSome (WordInfo.originalWordData
                                    (Grammar.recognize (allForms v) noun)) = true).
  { apply recognize_known. rewrite Hcat. discriminate. }
  apply String.eqb_neq in Hknown.
  unfold Grammar.knownWordsInfo. simpl flat_map.
  (* the turn at the noun pushes nothing: no word follows it *)
  assert (E1 : fst (Grammar.agreementAt
                      [Grammar.recognize (allForms v) article;
                       Grammar.recognize (allForms v) noun] 1 (warm v)) = []).
  { unfold Grammar.agreementAt. cbn [nth_error Nat.add].
    destruct (String.eqb (WordInfo.category (Grammar.recognize (allForms v) noun))
                         "unknown"); [reflexivity|].
    destruct (String.eqb (WordInfo.word (Grammar.recognize (allForms v) noun)) "en"
              || String.eqb (WordInfo.word (Grammar.recognize (allForms v) noun)) "et");
      reflexivity. }
  rewrite E1. rewrite !app_nil_r.
  unfold Grammar.agreementAt. cbn [nth_error Nat.add].
  rewrite Hknown, word_recognize.
  assert (Ea : String.eqb article "en" || String.eqb article "et" = true).
  { destruct Hart as [-> | ->]; reflexivity. }
  rewrite Ea, Hcat, Hsome, String.eqb_refl. cbn [andb].
  unfold VocabularyManager.bind. cbv beta.
  rewrite Hroot, getWordDataOf_warm, Hget. simpl.
  unfold Grammar.articleFeedback, hasOpposite, otherArticle in *.
  destruct Hart as [-> | ->]; simpl in *; now rewrite Hopp.
Qed.

(** C5, as it is stated, fails: with the vocabulary that has the neuter
    noun "hus" and no article, the sentence "en hus" meets the premises
    and its feedback, [Unrecognized "en"; NoVerbFound], holds no
    gender-mismatch diagnostic.  The guard of line 607 skips the article
    because it is not itself recognized. *)
Lemma gender_mismatch_needs_known_article :
  ~ genderMismatchClaim husVocabulary "en hus" "en" "hus" "hus"
      (mkWordData (mkEntry None (Some "house") None None None None) "nouns" "A1"
                  None None None).
Proof.
  unfold genderMismatchClaim. intros H.
  destruct H as (fb & Hfb & Hone); try reflexivity; [now left|].
  assert (E : analyzeSentence husVocabulary "en hus" = Some [Unrecognized "en"; NoVerbFound])
    by reflexivity.
  rewrite E in Hfb. injection Hfb as <-. discriminate Hone.
Qed.

(** C5, amended.  When the article of such a two-word sentence is
    itself resolved to a category other than 'unknown' (it is a word of
    the index, or suffix stripping resolves it), the feedback holds
    exactly one gender-mismatch diagnostic, and it names the root of
    the noun. *)
Theorem gender_mismatch_for_known_article
  (v : Vocabulary) (input article noun nounRoot : string) (nounData : WordData) :
  WordInfo.category (Grammar.recognize (allForms v) article) <> "unknown" ->
  genderMismatchClaim v input article noun nounRoot nounData.
Proof.
  intros Hknown Htok Hart Hcat Hroot Hget Hopp.
  assert (Hw : tokens input <> []) by (rewrite Htok; discriminate).
  pose proof (feedbackOn_words v input Hw) as F. cbv zeta in F.
  rewrite <- analyzeSentence_feedbackOn in F.
  eexists. split; [exact F|].
  rewrite !filter_app.
  rewrite (filter_other_kind isUnrecognized isGenderMismatch _
             ltac:(other_kind) (unknownFeedback_kind _ _)).
  rewrite (filter_other_kind (fun d => isVerbNotSecond d || isNoVerbFound d)
             isGenderMismatch _ ltac:(other_kind) (v2Feedback_kind _ _)).
  rewrite (filter_other_kind isConjugation isGenderMismatch _
             ltac:(other_kind) (conjugationFeedback_kind _ _ _ _)).
  simpl app. unfold Grammar.agreementFeedback.
  rewrite forEach_warm by (intros i; apply stable_agreementAt).
  rewrite Htok. simpl length. simpl seq.
  rewrite (agreement_article_noun v article noun nounRoot nounData
             Hart Hknown Hcat Hroot Hget Hopp).
  reflexivity.
Qed.

Lemma gender_mismatch_for_known_article_witness :
  WordInfo.category (Grammar.recognize (allForms articleVocabulary) "en") <> "unknown" /\
  genderMismatchClaim articleVocabulary "En hus." "en" "hus" "hus"
    (mkWordData (mkEntry None (Some "house") None None None None) "nouns" "A1"
                None None None).
Proof.
  split; [discriminate|].
  apply (gender_mismatch_for_known_article articleVocabulary "En hus." "en" "hus" "hus").
  discriminate.
Defined.

(* ------------------------------------------------------------------ *)
(** ** The conjugation check *)

Lemma mapAll_set (P : WordData -> Prop) (m : JS.Map WordData) (k : string)
  (wordData : WordData) :
  mapAll P m -> P wordData -> mapAll P (JS.set m k wordData).
Proof.
  intros Hm Hp k' wd'. destruct (string_dec k k') as [<-|Hne].
  - rewrite get_set_same. now intros [= <-].
  - rewrite get_set_other by exact Hne. apply Hm.
Qed.

Lemma mapAll_fold {A} (P : WordData -> Prop)
  (f : JS.Map WordData -> A -> JS.Map WordData) (l : list A) (m : JS.Map WordData) :
  (forall m a, mapAll P m -> mapAll P (f m a)) ->
  mapAll P m -> mapAll P (fold_left f l m).
Proof.
  intros Hf. revert m. induction l as [|a l IH]; intros m Hm; simpl; [exact Hm|].
  apply IH, Hf, Hm.
Qed.

Lemma addWord_rootOrConjugations lvl cat word e (m : JS.Map WordData) :
  mapAll rootOrConjugations m ->
  mapAll rootOrConjugations (VocabularyManager.addWord lvl cat word e m).
Proof.
  intros Hm. unfold VocabularyManager.addWord. cbn [data].
  assert (H1 : mapAll rootOrConjugations
                 (JS.set m word (mkWordData e cat lvl None None None)))
    by (apply mapAll_set; [exact Hm | now left]).
  set (m1 := JS.set m word (mkWordData e cat lvl None None None)) in *.
  assert (H2 : mapAll rootOrConjugations
                 (match conjugations e with
                  | Some conjs =>
                      if String.eqb cat "verbs"
                      then VocabularyManager.addConjugations word lvl
                             (mkWordData e cat lvl None None None) conjs m1
                      else m1
                  | None => m1
                  end)).
  { destruct (conjugations e) as [conjs|]; [|exact H1].
    destruct (String.eqb cat "verbs"); [|exact H1].
    unfold VocabularyManager.addConjugations. apply mapAll_fold; [|exact H1].
    intros m' c Hm'.
    destruct (negb (String.eqb (snd c) word) && negb (JS.has m' (snd c))); [|exact Hm'].
    apply mapAll_set; [exact Hm' | now right]. }
  destruct (et_form e) as [etf|]; [|exact H2].
  destruct (String.eqb cat "adjectives" && JS.truthy (Some etf) && negb (String.eqb etf word));
    [|exact H2].
  apply mapAll_set; [exact H2 | now right].
Qed.

(** In the index, a record with [conjugations] has no [root]. *)
Lemma allForms_rootOrConjugations (v : Vocabulary) : mapAll rootOrConjugations (allForms v).
Proof.
  unfold allForms, VocabularyManager.buildAllWords.
  apply mapAll_fold; [|intros k wd; discriminate].
  intros m l Hm. unfold VocabularyManager.addLevel.
  apply mapAll_fold; [|exact Hm].
  intros m' c Hm'. unfold VocabularyManager.addCategory.
  apply mapAll_fold; [|exact Hm'].
  intros m'' w Hm''. now apply addWord_rootOrConjugations.
Qed.

(** The diagnostic of line 594 is never pushed: the comparison of line
    593 is with the [root] of a record that has [conjugations]. *)
Lemma infinitive_never_pushed (v : Vocabulary) (words : list string)
  (known : list WordInfo.t) (verbPos : option nat) :
  filter isInfinitiveUsed (fst (Grammar.conjugationFeedback words known verbPos (warm v)))
  = [].
Proof.
  unfold Grammar.conjugationFeedback.
  destruct verbPos as [pos|]; [|reflexivity].
  destruct (nth_error words pos) as [verbWord|]; [|reflexivity].
  destruct (nth_error known pos) as [verbInfo|]; [|reflexivity].
  unfold VocabularyManager.bind. rewrite getWordDataOf_warm. simpl.
  destruct (JS.get (allForms v) verbWord) as [d|] eqn:G; [|reflexivity].
  destruct (conjugations (data d)) as [conjs|] eqn:C; [|reflexivity].
  destruct (allForms_rootOrConjugations v _ _ G) as [R|R]; [|congruence].
  rewrite R.
  repeat match goal with
         | |- context [if ?b then _ else _] => destruct b
         end; reflexivity.
Qed.

(** C2 (violated by the code, at lines 584 and 593).  With the verb
    "spise", present "spiser", past "spiste": for "jeg spise", where
    the infinitive is used, the diagnostic is the generic
    wrong-conjugation one, not the infinitive one; for "jeg spiste",
    where a form other than the present is used, there is no
    conjugation diagnostic at all.  Line 584 reads [verbInfo.root],
    which the stored objects do not have (they have [rootWord]), so the
    record fetched is the one of the token, not of its root; line 593
    compares the token with [verbRootData.root], which a root record
    does not have, so that for no vocabulary and no sentence the
    infinitive diagnostic is pushed. *)
Theorem conjugation_check_misses :
  analyzeSentence husVocabulary "jeg spise"
    = Some [Unrecognized "jeg"; WrongConjugation "spise" (Some "spiser")] /\
  analyzeSentence husVocabulary "jeg spiste" = Some [Unrecognized "jeg"] /\
  Grammar.verbPosition (verbRoots husVocabulary)
    (Grammar.knownWordsInfo (allForms husVocabulary) (tokens "jeg spiste")) = Some 1 /\
  WordInfo.rootWord (Grammar.recognize (allForms husVocabulary) "spiste") = Some "spise" /\
  (forall v words known verbPos,
     filter isInfinitiveUsed
            (fst (Grammar.conjugationFeedback words known verbPos (warm v))) = []).
Proof.
  do 4 (split; [reflexivity|]). exact infinitive_never_pushed.
Qed.

(* ------------------------------------------------------------------ *)
(** ** The example shortcut *)

Lemma find_firstSuch {A} (p : A -> bool) (l : list A) (x : A) :
  In x l -> p x = true ->
  exists first, find p l = Some first /\ firstSuch p l first.
Proof.
  induction l as [|a l IH]; intros Hin Hp; [contradiction|]. simpl.
  destruct (p a) eqn:Ea.
  - exists a. split; [reflexivity|]. exists [], l. simpl.
    repeat split; auto. contradiction.
  - destruct Hin as [->|Hin]; [congruence|].
    destruct (IH Hin Hp) as (first & Hf & before & after & -> & Hpf & Hb).
    exists first. split; [exact Hf|].
    exists (a :: before), after. simpl. repeat split; auto.
    intros y [<-|Hy]; auto.
Qed.

Lemma isExampleOf_spec (sentence : string) (wordData : WordData) :
  Translate.isExampleOf sentence wordData = true <->
  exists ex, example (data wordData) = Some ex /\ ex <> "" /\
             JS.toLowerCase ex = JS.toLowerCase sentence.
Proof.
  unfold Translate.isExampleOf, JS.truthy.
  destruct (example (data wordData)) as [ex|]; split.
  - intros H. apply andb_true_iff in H. destruct H as [H1 H2].
    exists ex. split; [reflexivity|]. split.
    + apply negb_true_iff, String.eqb_neq in H1. exact H1.
    + now apply String.eqb_eq.
  - intros (ex' & [= <-] & Hne & Heq). apply andb_true_iff. split.
    + now apply negb_true_iff, String.eqb_neq.
    + now apply String.eqb_eq.
  - discriminate.
  - intros (ex' & H & _). discriminate.
Qed.

(** C7, as it is stated, fails.  In [shadowedVocabulary] the noun
    "lys" stores the example "Lyset er smukt." and its translation, but
    the adjective "lys" comes after it and takes its key in the index
    (line 56), so that no record holds the example: the sentence is
    translated word by word, to "lyset er smukt".  In
    [emptyExampleVocabulary] the example of "hus" is the empty string,
    which the test of line 378 takes for no example: the empty sentence
    is translated to the empty string and not to the stored
    translation. *)
Lemma example_shortcut_needs_index_record :
  ~ exampleShortcutClaim shadowedVocabulary "Lyset er smukt." /\
  ~ exampleShortcutClaim emptyExampleVocabulary "".
Proof.
  split; intros H.
  - destruct H as (e & (lvl & cats & cat & words & w & ex & H1 & H2 & H3 & Hex & _) & Ht).
    + eexists. exists "A1". do 5 eexists.
      split; [left; reflexivity|]. split; [left; reflexivity|].
      split; [left; reflexivity|]. split; reflexivity.
    + destruct H1 as [[= <- <-]|[]].
      destruct H2 as [[= <- <-]|[[= <- <-]|[]]]; destruct H3 as [[= <- <-]|[]];
        vm_compute in Ht; discriminate.
  - destruct H as (e & (lvl & cats & cat & words & w & ex & H1 & H2 & H3 & Hex & _) & Ht).
    + eexists. exists "A1". do 5 eexists.
      split; [left; reflexivity|]. split; [left; reflexivity|].
      split; [left; reflexivity|]. split; reflexivity.
    + destruct H1 as [[= <- <-]|[]].
      destruct H2 as [[= <- <-]|[]]; destruct H3 as [[= <- <-]|[]].
      vm_compute in Ht. discriminate.
Qed.

(** C7, amended.  When the sentence is, up to case, the example (not
    empty) of a record of the index, the translation returned is the
    [translated] of the first such record in the order of the index,
    as it is stored: no word is translated and no phrase is repaired.
    In [exampleVocabulary] two records hold the sentence and the first
    one gives the result. *)
Theorem example_shortcut_first_match
  (v : Vocabulary) (sentence : string) (wordData : WordData) (ex : string) :
  In wordData (JS.values (allForms v)) ->
  example (data wordData) = Some ex -> ex <> "" ->
  JS.toLowerCase ex = JS.toLowerCase sentence ->
  exists first,
    firstSuch (Translate.isExampleOf sentence) (JS.values (allForms v)) first /\
    translation v sentence = translated (data first).
Proof.
  intros Hin Hex Hne Heq.
  assert (Hp : Translate.isExampleOf sentence wordData = true)
    by (apply isExampleOf_spec; eauto).
  destruct (find_firstSuch _ _ _ Hin Hp) as (first & Hfind & Hfirst).
  exists first. split; [exact Hfirst|].
  unfold translation.
  destruct (translateSentenceWords_coherent _ sentence (new_coherent v)) as (E & _ & _).
  rewrite E. simpl. unfold translationOn. now rewrite Hfind.
Qed.

Lemma example_shortcut_first_match_witness :
  (In (mkWordData (mkEntry None (Some "house") (Some "Huset er stort.")
                           (Some "The house is big.") None None) "nouns" "A1"
                  None None None)
      (JS.values (allForms exampleVocabulary)) /\
   JS.toLowerCase "Huset er stort." = JS.toLowerCase "huset er STORT.") /\
  exists first,
    firstSuch (Translate.isExampleOf "huset er STORT.")
              (JS.values (allForms exampleVocabulary)) first /\
    translation exampleVocabulary "huset er STORT." = translated (data first).
Proof.
  split; [split; [left; reflexivity | reflexivity]|].
  apply (example_shortcut_first_match exampleVocabulary "huset er STORT."
           (mkWordData (mkEntry None (Some "house") (Some "Huset er stort.")
                                (Some "The house is big.") None None) "nouns" "A1"
                       None None None)
           "Huset er stort.").
  - left; reflexivity.
  - reflexivity.
  - discriminate.
  - reflexivity.
Defined.

(* ------------------------------------------------------------------ *)
(** ** Substrings *)

Lemma prefix_app (x b : string) : prefix x (x ++ b) = true.
Proof.
  induction x as [|c x IH]; simpl; [now destruct b|].
  destruct (ascii_dec c c); [exact IH | contradiction].
Qed.

Lemma includes_prefix (s sub : string) : prefix sub s = true -> JS.includes s sub = true.
Proof. intros H. destruct s; simpl in *; rewrite H; reflexivity. Qed.

Lemma includes_app_r (a s sub : string) :
  JS.includes s sub = true -> JS.includes (a ++ s) sub = true.
Proof.
  intros H. induction a as [|c a IH]; simpl; [exact H|].
  rewrite IH. apply orb_true_r.
Qed.

Lemma includes_self_app (x b : string) : JS.includes (x ++ b) x = true.
Proof. apply includes_prefix, prefix_app. Qed.

Lemma append_empty_r (x : string) : x ++ "" = x.
Proof. induction x as [|c x IH]; simpl; [reflexivity | now rewrite IH]. Qed.

(* ------------------------------------------------------------------ *)
(** ** The index and the vocabulary *)

Lemma fold_left_flat_map {A B C} (f : A -> B -> A) (g : C -> list B) (l : list C) (a : A) :
  fold_left f (flat_map g l) a = fold_left (fun a x => fold_left f (g x) a) l a.
Proof.
  revert a. induction l as [|x l IH]; intros a; simpl; [reflexivity|].
  now rewrite fold_left_app, IH.
Qed.

Lemma fold_left_map {A B C} (f : A -> B -> A) (g : C -> B) (l : list C) (a : A) :
  fold_left f (map g l) a = fold_left (fun a x => f a (g x)) l a.
Proof. revert a. induction l as [|x l IH]; intros a; simpl; [reflexivity | apply IH]. Qed.

Lemma fold_left_same {A B} (f g : A -> B -> A) (l : list B) (a : A) :
  (forall a x, f a x = g a x) -> fold_left f l a = fold_left g l a.
Proof.
  intros H. revert a. induction l as [|x l IH]; intros a; simpl; [reflexivity|].
  now rewrite H, IH.
Qed.

(** The three nested loops of [getAllWords] are one loop over the
    entries. *)
Lemma buildAllWords_entries (v : Vocabulary) :
  allForms v = fold_left addEntry (entriesOf v) [].
Proof.
  unfold allForms, VocabularyManager.buildAllWords, entriesOf.
  rewrite fold_left_flat_map. apply fold_left_same. intros m l.
  unfold VocabularyManager.addLevel. rewrite fold_left_flat_map.
  apply fold_left_same. intros m' c.
  unfold VocabularyManager.addCategory. rewrite fold_left_map. reflexivity.
Qed.

Lemma fold_left_inv {A B} (P : A -> Prop) (f : A -> B -> A) (l : list B) (a : A) :
  (forall a x, In x l -> P a -> P (f a x)) -> P a -> P (fold_left f l a).
Proof.
  revert a. induction l as [|x l IH]; intros a Hf Ha; simpl; [exact Ha|].
  apply IH.
  - intros a' y Hy. apply Hf. now right.
  - apply Hf; [now left | exact Ha].
Qed.

Lemma has_get {V} (m : JS.Map V) (k : string) :
  JS.has m k = true <-> exists d, JS.get m k = Some d.
Proof.
  unfold JS.has. destruct (JS.get m k) as [d|]; split; try discriminate; eauto.
  intros [d H]. discriminate.
Qed.

Lemma has_set_same {V} (m : JS.Map V) (k : string) (d : V) : JS.has (JS.set m k d) k = true.
Proof. unfold JS.has. now rewrite get_set_same. Qed.

Lemma has_set_mono {V} (m : JS.Map V) (k k' : string) (d : V) :
  JS.has m k' = true -> JS.has (JS.set m k d) k' = true.
Proof.
  intros H. destruct (string_dec k k') as [<-|Hne]; [apply has_set_same|].
  unfold JS.has in *. now rewrite get_set_other.
Qed.

(** No turn of the loops removes a key. *)
Lemma addConjugations_has word lvl wordData conjs (m : JS.Map WordData) (k : string) :
  JS.has m k = true ->
  JS.has (VocabularyManager.addConjugations word lvl wordData conjs m) k = true.
Proof.
  unfold VocabularyManager.addConjugations. intros H0.
  apply (fold_left_inv (fun m => JS.has m k = true)); [|exact H0].
  intros m' c _ H.
  destruct (negb (String.eqb (snd c) word) && negb (JS.has m' (snd c))); [|exact H].
  now apply has_set_mono.
Qed.

Lemma addEntry_has (m : JS.Map WordData) q (k : string) :
  JS.has m k = true -> JS.has (addEntry m q) k = true.
Proof.
  destruct q as [[[lvl cat] word] e]. intros H.
  unfold addEntry, VocabularyManager.addWord. cbn [data].
  assert (H1 : JS.has (JS.set m word (mkWordData e cat lvl None None None)) k = true)
    by now apply has_set_mono.
  set (m1 := JS.set m word (mkWordData e cat lvl None None None)) in *.
  set (m2 := match conjugations e with
             | Some conjs =>
                 if String.eqb cat "verbs"
                 then VocabularyManager.addConjugations word lvl
                        (mkWordData e cat lvl None None None) conjs m1
                 else m1
             | None => m1
             end).
  assert (H2 : JS.has m2 k = true).
  { unfold m2. destruct (conjugations e); [|exact H1].
    destruct (String.eqb cat "verbs"); [|exact H1]. now apply addConjugations_has. }
  destruct (et_form e) as [etf|]; [|exact H2].
  destruct (String.eqb cat "adjectives" && JS.truthy (Some etf) && negb (String.eqb etf word));
    [|exact H2].
  now apply has_set_mono.
Qed.

Lemma fold_addEntry_has (l : list (string * string * string * Entry))
  (m : JS.Map WordData) (k : string) :
  JS.has m k = true -> JS.has (fold_left addEntry l m) k = true.
Proof.
  intros H. apply (fold_left_inv (fun m => JS.has m k = true)); [|exact H].
  intros m' q _. apply addEntry_has.
Qed.

(** After the loop over the conjugations of a word that is a key, each
    of the forms is a key. *)
Lemma addConjugations_forms word lvl wordData conjs (m : JS.Map WordData)
  (tense form : string) :
  JS.has m word = true -> In (tense, form) conjs ->
  JS.has (VocabularyManager.addConjugations word lvl wordData conjs m) form = true.
Proof.
  unfold VocabularyManager.addConjugations. revert m.
  induction conjs as [|c conjs IH]; intros m Hw Hin; [contradiction|]. simpl.
  set (m' := if negb (String.eqb (snd c) word) && negb (JS.has m (snd c))
             then JS.set m (snd c)
                    (VocabularyManager.conjugatedRecord word lvl (snd c) wordData)
             else m).
  assert (Hw' : JS.has m' word = true).
  { unfold m'. destruct (negb (String.eqb (snd c) word) && negb (JS.has m (snd c)));
      [now apply has_set_mono | exact Hw]. }
  destruct Hin as [->|Hin]; [|now apply IH].
  apply (addConjugations_has word lvl wordData conjs m' form).
  unfold m'. simpl.
  destruct (String.eqb form word) eqn:E1; simpl.
  - apply String.eqb_eq in E1. now subst.
  - destruct (JS.has m form) eqn:E2; simpl; [exact E2 | apply has_set_same].
Qed.

(** What one turn of the innermost loop makes a key. *)
Lemma addEntry_forms (m : JS.Map WordData) (lvl cat word : string) (e : Entry) :
  let m' := addEntry m (lvl, cat, word, e) in
  JS.has m' word = true /\
  (forall conjs tense form,
     cat = "verbs" -> conjugations e = Some conjs -> In (tense, form) conjs ->
     JS.has m' form = true) /\
  (forall form,
     cat = "adjectives" -> et_form e = Some form -> form <> "" ->
     JS.has m' form = true).
Proof.
  unfold addEntry, VocabularyManager.addWord. cbn [data].
  set (m1 := JS.set m word (mkWordData e cat lvl None None None)).
  assert (H1 : JS.has m1 word = true) by apply has_set_same.
  set (m2 := match conjugations e with
             | Some conjs =>
                 if String.eqb cat "verbs"
                 then VocabularyManager.addConjugations word lvl
                        (mkWordData e cat lvl None None None) conjs m1
                 else m1
             | None => m1
             end).
  assert (M2 : forall k, JS.has m1 k = true -> JS.has m2 k = true).
  { intros k Hk. unfold m2. destruct (conjugations e); [|exact Hk].
    destruct (String.eqb cat "verbs"); [|exact Hk]. now apply addConjugations_has. }
  set (m3 := match et_form e with
             | Some etf =>
                 if String.eqb cat "adjectives" && JS.truthy (Some etf)
                    && negb (String.eqb etf word)
                 then JS.set m2 etf
                        (VocabularyManager.etFormRecord word lvl etf
                           (mkWordData e cat lvl None None None))
                 else m2
             | None => m2
             end).
  assert (M3 : forall k, JS.has m2 k = true -> JS.has m3 k = true).
  { intros k Hk. unfold m3. destruct (et_form e) as [etf|]; [|exact Hk].
    destruct (String.eqb cat "adjectives" && JS.truthy (Some etf)
              && negb (String.eqb etf word)); [now apply has_set_mono | exact Hk]. }
  cbv zeta. fold m3. split; [auto|]. split.
  - intros conjs tense form -> Hc Hin. apply M3. unfold m2. rewrite Hc. simpl.
    now apply (addConjugations_forms _ _ _ _ _ tense).
  - intros form -> Hf Hne. unfold m3. rewrite Hf. simpl.
    apply String.eqb_neq in Hne. rewrite Hne. simpl.
    destruct (String.eqb form word) eqn:E; simpl.
    + apply String.eqb_eq in E. subst. auto.
    + apply has_set_same.
Qed.

(** A key that the turn of an entry makes is a key at the end of the
    loop. *)
Lemma fold_addEntry_key (l : list (string * string * string * Entry)) q (k : string) :
  In q l ->
  (forall m, JS.has (addEntry m q) k = true) ->
  JS.has (fold_left addEntry l []) k = true.
Proof.
  intros Hin Hk. destruct (in_split _ _ Hin) as (l1 & l2 & ->).
  rewrite fold_left_app. simpl. apply fold_addEntry_has, Hk.
Qed.

Lemma form_has (v : Vocabulary) (k : string) :
  isRootWord v k \/ isConjugatedForm v k \/ isEtForm v k ->
  JS.has (allForms v) k = true.
Proof.
  intros H. rewrite buildAllWords_entries.
  destruct H as [(lvl & cat & e & Hin) | [(lvl & w & e & conjs & t & Hin & Hc & Hf)
                                        | (lvl & w & e & Hin & Hf & Hne)]].
  - apply (fold_addEntry_key _ _ _ Hin). intros m.
    exact (proj1 (addEntry_forms m lvl cat k e)).
  - apply (fold_addEntry_key _ _ _ Hin). intros m.
    exact (proj1 (proj2 (addEntry_forms m lvl "verbs" w e)) conjs t k eq_refl Hc Hf).
  - apply (fold_addEntry_key _ _ _ Hin). intros m.
    exact (proj2 (proj2 (addEntry_forms m lvl "adjectives" w e)) k eq_refl Hf Hne).
Qed.

(** X1.  Every word of the vocabulary, every conjugated form of a verb
    and every non-empty 'et' form of an adjective is a key of the
    index: [getWordData] finds a record for it, and the grammar check
    does not report it as unknown. *)
Theorem every_form_is_a_key (v : Vocabulary) (k : string) :
  isRootWord v k \/ isConjugatedForm v k \/ isEtForm v k ->
  (exists d, fst (VocabularyManager.getWordData k (VocabularyManager.new v)) = Some d) /\
  Grammar.found (allForms v) k = true /\
  WordInfo.word (Grammar.recognize (allForms v) k) = k /\
  Grammar.isSome (WordInfo.originalWordData (Grammar.recognize (allForms v) k)) = true.
Proof.
  intros H.
  pose proof (form_has v k H) as K.
  apply has_get in K. destruct K as [d K].
  split; [exists d; exact K|].
  assert (F : Grammar.found (allForms v) k = true)
    by (unfold Grammar.found; now rewrite K).
  split; [exact F|]. split; [apply word_recognize|].
  now rewrite <- found_recognize.
Qed.

Lemma every_form_is_a_key_witness :
  (isRootWord husVocabulary "spiste" \/ isConjugatedForm husVocabulary "spiste"
   \/ isEtForm husVocabulary "spiste") /\
  Grammar.found (allForms husVocabulary) "spiste" = true.
Proof.
  assert (H : isRootWord husVocabulary "spiste" \/ isConjugatedForm husVocabulary "spiste"
              \/ isEtForm husVocabulary "spiste").
  { right; left.
    exists "A1", "spise",
      (mkEntry (Some "to eat") None None None
               (Some [("present", "spiser"); ("past", "spiste")]) None),
      [("present", "spiser"); ("past", "spiste")], "past".
    split; [right; left; reflexivity|]. split; [reflexivity|]. right; left; reflexivity. }
  split; [exact H|].
  exact (proj1 (proj2 (every_form_is_a_key husVocabulary "spiste" H))).
Defined.

Lemma recordOf_set (v : Vocabulary) (m : JS.Map WordData) (k : string) (d : WordData) :
  (forall k' d', JS.get m k' = Some d' -> recordOf v k' d') ->
  recordOf v k d ->
  forall k' d', JS.get (JS.set m k d) k' = Some d' -> recordOf v k' d'.
Proof.
  intros Hm Hd k' d'. destruct (string_dec k k') as [<-|Hne].
  - rewrite get_set_same. now intros [= <-].
  - rewrite get_set_other by exact Hne. apply Hm.
Qed.

Lemma addEntry_recordOf (v : Vocabulary) (m : JS.Map WordData) q :
  In q (entriesOf v) ->
  (forall k d, JS.get m k = Some d -> recordOf v k d) ->
  forall k d, JS.get (addEntry m q) k = Some d -> recordOf v k d.
Proof.
  destruct q as [[[lvl cat] word] e]. intros Hin Hm.
  unfold addEntry, VocabularyManager.addWord. cbn [data].
  set (wordData := mkWordData e cat lvl None None None).
  set (m1 := JS.set m word wordData).
  assert (H1 : forall k d, JS.get m1 k = Some d -> recordOf v k d).
  { apply recordOf_set; [exact Hm|]. left. exists lvl, cat, e. auto. }
  set (m2 := match conjugations e with
             | Some conjs =>
                 if String.eqb cat "verbs"
                 then VocabularyManager.addConjugations word lvl wordData conjs m1
                 else m1
             | None => m1
             end).
  assert (H2 : forall k d, JS.get m2 k = Some d -> recordOf v k d).
  { unfold m2. destruct (conjugations e) as [conjs|] eqn:Hc; [|exact H1].
    destruct (String.eqb cat "verbs") eqn:Hv; [|exact H1].
    apply String.eqb_eq in Hv. subst cat.
    unfold VocabularyManager.addConjugations.
    apply (fold_left_inv (fun m => forall k d, JS.get m k = Some d -> recordOf v k d));
      [|exact H1].
    intros m' [tense form] Hform Hm'. simpl.
    destruct (negb (String.eqb form word) && negb (JS.has m' form)) eqn:E; [|exact Hm'].
    apply andb_true_iff in E. destruct E as [E _].
    apply negb_true_iff, String.eqb_neq in E.
    apply recordOf_set; [exact Hm'|]. right; left.
    exists lvl, word, e, conjs, tense. auto. }
  destruct (et_form e) as [etf|] eqn:Hf; [|exact H2].
  destruct (String.eqb cat "adjectives" && JS.truthy (Some etf) && negb (String.eqb etf word))
    eqn:E; [|exact H2].
  apply andb_true_iff in E. destruct E as [E E3].
  apply andb_true_iff in E. destruct E as [E1 E2].
  apply String.eqb_eq in E1. subst cat.
  apply negb_true_iff, String.eqb_neq in E3.
  simpl in E2. apply negb_true_iff, String.eqb_neq in E2.
  apply recordOf_set; [exact H2|]. right; right.
  exists lvl, word, e. auto.
Qed.

Lemma allForms_recordOf (v : Vocabulary) (k : string) (d : WordData) :
  JS.get (allForms v) k = Some d -> recordOf v k d.
Proof.
  revert k d. rewrite buildAllWords_entries.
  apply (fold_left_inv (fun m => forall k d, JS.get m k = Some d -> recordOf v k d)).
  - intros m q Hq Hm. now apply addEntry_recordOf.
  - intros k d; discriminate.
Qed.

(** The root that a record of the index names is a word of the
    vocabulary, different from the key. *)
Lemma allForms_root (v : Vocabulary) (k r : string) (d : WordData) :
  JS.get (allForms v) k = Some d -> root d = Some r ->
  r <> k /\ isRootWord v r /\ JS.has (allForms v) r = true.
Proof.
  intros H Hr.
  destruct (allForms_recordOf v k d H)
    as [(lvl & cat & e & Hin & ->)
       | [(lvl & w & e & conjs & t & Hin & Hc & Hf & Hne & ->)
         | (lvl & w & e & Hin & Hf & Hne & Hw & ->)]]; simpl in Hr;
    [discriminate | |]; injection Hr as <-.
  - assert (R : isRootWord v w) by (exists lvl, "verbs", e; exact Hin).
    split; [auto|]. split; [exact R | apply form_has; now left].
  - assert (R : isRootWord v w) by (exists lvl, "adjectives", e; exact Hin).
    split; [auto|]. split; [exact R | apply form_has; now left].
Qed.

(** X2.  Every record of the index is, under its key [k], the own
    record of a word [k] of the vocabulary (its entry with the category
    and the level where it is listed), or the derived record of a verb
    of the vocabulary that has [k] among its conjugated forms, or the
    derived record of an adjective whose 'et' form is [k]; a derived
    record names as its root a word that is itself a key of the
    index. *)
Theorem index_records_come_from_vocabulary (v : Vocabulary) (k : string) (d : WordData) :
  JS.get (allForms v) k = Some d ->
  recordOf v k d /\
  (isRootWord v k \/ isConjugatedForm v k \/ isEtForm v k) /\
  match root d with
  | Some r => r <> k /\ isRootWord v r /\ JS.has (allForms v) r = true
  | None => isRootWord v k
  end.
Proof.
  intros H. pose proof (allForms_recordOf v k d H) as R.
  split; [exact R|]. split.
  - destruct R as [(lvl & cat & e & Hin & ->)
                  | [(lvl & w & e & conjs & t & Hin & Hc & Hf & Hne & ->)
                    | (lvl & w & e & Hin & Hf & Hne & Hw & ->)]].
    + left. exists lvl, cat, e. exact Hin.
    + right; left. exists lvl, w, e, conjs, t. auto.
    + right; right. exists lvl, w, e. auto.
  - destruct (root d) as [r|] eqn:Hr; [now apply (allForms_root v k r d)|].
    destruct R as [(lvl & cat & e & Hin & ->)
                  | [(lvl & w & e & conjs & t & Hin & Hc & Hf & Hne & ->)
                    | (lvl & w & e & Hin & Hf & Hne & Hw & ->)]];
      [exists lvl, cat, e; exact Hin | discriminate | discriminate].
Qed.

Lemma index_records_come_from_vocabulary_witness :
  JS.get (allForms husVocabulary) "spiser"
  = Some (VocabularyManager.conjugatedRecord "spise" "A1" "spiser"
            (rootRecord "A1" "verbs"
               (mkEntry (Some "to eat") None None None
                        (Some [("present", "spiser"); ("past", "spiste")]) None))) /\
  (isRootWord husVocabulary "spiser" \/ isConjugatedForm husVocabulary "spiser"
   \/ isEtForm husVocabulary "spiser").
Proof.
  split; [reflexivity|].
  exact (proj1 (proj2 (index_records_come_from_vocabulary husVocabulary "spiser" _ eq_refl))).
Defined.

(* ------------------------------------------------------------------ *)
(** ** The record of a word of the vocabulary *)

Lemma notConjugated_set_other (m : JS.Map WordData) (k r : string) (d : WordData) :
  conjugatedForm d = None -> notConjugated m r -> notConjugated (JS.set m k d) r.
Proof.
  intros Hd (d' & G & C). destruct (string_dec k r) as [<-|Hne].
  - exists d. now rewrite get_set_same.
  - exists d'. now rewrite get_set_other.
Qed.

Lemma addEntry_notConjugated (m : JS.Map WordData) (lvl cat word : string) (e : Entry)
  (r : string) :
  notConjugated m r \/ r = word ->
  notConjugated (addEntry m (lvl, cat, word, e)) r.
Proof.
  intros H. unfold addEntry, VocabularyManager.addWord. cbn [data].
  set (wordData := mkWordData e cat lvl None None None).
  set (m1 := JS.set m word wordData).
  assert (H1 : notConjugated m1 r).
  { destruct H as [H| ->].
    - now apply notConjugated_set_other.
    - exists wordData. unfold m1. now rewrite get_set_same. }
  set (m2 := match conjugations e with
             | Some conjs =>
                 if String.eqb cat "verbs"
                 then VocabularyManager.addConjugations word lvl wordData conjs m1
                 else m1
             | None => m1
             end).
  assert (H2 : notConjugated m2 r).
  { unfold m2. destruct (conjugations e) as [conjs|]; [|exact H1].
    destruct (String.eqb cat "verbs"); [|exact H1].
    destruct H1 as (d & G & C). exists d. split; [|exact C].
    now apply addConjugations_keeps. }
  destruct (et_form e) as [etf|]; [|exact H2].
  destruct (String.eqb cat "adjectives" && JS.truthy (Some etf) && negb (String.eqb etf word));
    [|exact H2].
  now apply notConjugated_set_other.
Qed.

Lemma fold_addEntry_notConjugated (l : list (string * string * string * Entry))
  (m : JS.Map WordData) (r : string) :
  notConjugated m r \/ (exists lvl cat e, In (lvl, cat, r, e) l) ->
  notConjugated (fold_left addEntry l m) r.
Proof.
  revert m. induction l as [|[[[lvl cat] word] e] l IH]; intros m H; simpl.
  - destruct H as [H|(lvl & cat & e & [])]. exact H.
  - apply IH. destruct H as [H|(lvl' & cat' & e' & [Heq|Hin])].
    + left. apply addEntry_notConjugated. now left.
    + injection Heq as -> -> -> ->. left. apply addEntry_notConjugated. now right.
    + right. exists lvl', cat', e'. exact Hin.
Qed.

(** X3.  The record that the index holds under a word [r] of the
    vocabulary is never the derived record of a conjugated verb form:
    it is the own record of an entry listed under [r], or else the
    derived record of an adjective whose 'et' form is [r]. *)
Theorem word_record_own_or_et_form (v : Vocabulary) (r : string) :
  isRootWord v r ->
  exists d, JS.get (allForms v) r = Some d /\
    ((exists lvl cat e,
        In (lvl, cat, r, e) (entriesOf v) /\ d = rootRecord lvl cat e) \/
     (exists lvl word e,
        In (lvl, "adjectives", word, e) (entriesOf v) /\
        et_form e = Some r /\ r <> "" /\ r <> word /\
        d = VocabularyManager.etFormRecord word lvl r (rootRecord lvl "adjectives" e))).
Proof.
  intros Hr.
  assert (N : notConjugated (allForms v) r).
  { rewrite buildAllWords_entries. apply fold_addEntry_notConjugated. now right. }
  destruct N as (d & G & C). exists d. split; [exact G|].
  destruct (allForms_recordOf v r d G)
    as [R | [(lvl & w & e & conjs & t & Hin & Hc & Hf & Hne & ->) | R]];
    [now left | discriminate | now right].
Qed.

Lemma word_record_own_or_et_form_witness :
  isRootWord lystVocabulary "lyst" /\
  exists d, JS.get (allForms lystVocabulary) "lyst" = Some d /\
    ((exists lvl cat e,
        In (lvl, cat, "lyst", e) (entriesOf lystVocabulary) /\ d = rootRecord lvl cat e) \/
     (exists lvl word e,
        In (lvl, "adjectives", word, e) (entriesOf lystVocabulary) /\
        et_form e = Some "lyst" /\ "lyst" <> "" /\ "lyst" <> word /\
        d = VocabularyManager.etFormRecord word lvl "lyst"
              (rootRecord lvl "adjectives" e))).
Proof.
  assert (H : isRootWord lystVocabulary "lyst").
  { exists "A1", "nouns", (mkEntry (Some "desire") None None None None None).
    left; reflexivity. }
  split; [exact H | exact (word_record_own_or_et_form lystVocabulary "lyst" H)].
Defined.

(** X4.  When no 'et' form of an adjective is itself a word of the
    vocabulary, every word of the vocabulary resolves to itself: the
    index holds under it the own record of one of its entries, and the
    grammar check stores the word as its own root, with the category
    of that entry. *)
Theorem word_resolves_to_itself (v : Vocabulary) (r : string) :
  noEtFormClash v -> isRootWord v r ->
  exists lvl cat e,
    In (lvl, cat, r, e) (entriesOf v) /\
    JS.get (allForms v) r = Some (rootRecord lvl cat e) /\
    WordInfo.rootWord (Grammar.recognize (allForms v) r) = Some r /\
    WordInfo.category (Grammar.recognize (allForms v) r) = cat.
Proof.
  intros Hclash Hr.
  assert (N : notConjugated (allForms v) r).
  { rewrite buildAllWords_entries. apply fold_addEntry_notConjugated. now right. }
  destruct N as (d & G & C).
  destruct (allForms_recordOf v r d G)
    as [(lvl & cat & e & Hin & ->)
       | [(lvl & w & e & conjs & t & Hin & Hc & Hf & Hne & ->)
         | (lvl & w & e & Hin & Hf & Hne & Hw & ->)]].
  - exists lvl, cat, e. split; [exact Hin|]. split; [exact G|].
    unfold Grammar.recognize. rewrite G. simpl. auto.
  - discriminate.
  - exfalso. exact (Hclash lvl w e r Hin Hf Hne Hw Hr).
Qed.

Lemma word_resolves_to_itself_witness :
  (noEtFormClash articleVocabulary /\ isRootWord articleVocabulary "stor") /\
  exists lvl cat e,
    In (lvl, cat, "stor", e) (entriesOf articleVocabulary) /\
    JS.get (allForms articleVocabulary) "stor" = Some (rootRecord lvl cat e) /\
    WordInfo.rootWord (Grammar.recognize (allForms articleVocabulary) "stor") = Some "stor" /\
    WordInfo.category (Grammar.recognize (allForms articleVocabulary) "stor") = cat.
Proof.
  assert (C : noEtFormClash articleVocabulary).
  { intros lvl word e form Hin Hf Hne Hw (lvl' & cat' & e' & Hin').
    simpl in Hin.
    repeat (destruct Hin as [Hin|Hin]; [try discriminate Hin|]); [|contradiction].
    injection Hin as <- <- <-. simpl in Hf. injection Hf as <-.
    simpl in Hin'.
    repeat (destruct Hin' as [Hin'|Hin']; [discriminate Hin'|]). contradiction. }
  assert (R : isRootWord articleVocabulary "stor").
  { exists "A1", "adjectives", (mkEntry (Some "big") None None None None (Some "stort")).
    simpl. do 3 right. left. reflexivity. }
  split; [split; [exact C | exact R]|].
  exact (word_resolves_to_itself articleVocabulary "stor" C R).
Defined.

(* ------------------------------------------------------------------ *)
(** ** Resolved roots and the fallback scan *)

Lemma firstKnown_get (m : JS.Map WordData) (l : list string) (c : string) (d : WordData) :
  Grammar.firstKnown m l = Some (c, d) -> In c l /\ JS.get m c = Some d.
Proof.
  induction l as [|a l IH]; simpl; [discriminate|].
  destruct (JS.get m a) as [d'|] eqn:G.
  - intros [= <- <-]. auto.
  - intros H. destruct (IH H). auto.
Qed.

(** X5.  The root that the grammar check stores for a word it has
    found is always a key of the index: the later lookups
    [getWordData(rootWord)] of step 3 never give [undefined]. *)
Theorem resolved_root_is_a_key (v : Vocabulary) (w : string) :
  Grammar.found (allForms v) w = true ->
  exists r d,
    WordInfo.rootWord (Grammar.recognize (allForms v) w) = Some r /\
    fst (Grammar.getWordDataOf (Some r) (warm v)) = Some d /\
    fst (VocabularyManager.getWordData r (VocabularyManager.new v)) = Some d.
Proof.
  unfold Grammar.found, Grammar.recognize. intros H.
  assert (K : forall r, JS.has (allForms v) r = true ->
              exists d, fst (Grammar.getWordDataOf (Some r) (warm v)) = Some d /\
                        fst (VocabularyManager.getWordData r (VocabularyManager.new v)) = Some d).
  { intros r Hr. apply has_get in Hr. destruct Hr as [d Hd]. exists d.
    rewrite getWordDataOf_warm. simpl. auto. }
  destruct (JS.get (allForms v) w) as [d0|] eqn:G.
  - simpl. unfold JS.or.
    destruct (JS.truthy (root d0)) eqn:T.
    + destruct (root d0) as [r|] eqn:Hr; [|discriminate].
      destruct (allForms_root v w r d0 G Hr) as (_ & _ & Hk).
      destruct (K r Hk) as (d & H1 & H2). exists r, d. auto.
    + assert (Hk : JS.has (allForms v) w = true) by (apply has_get; eauto).
      destruct (K w Hk) as (d & H1 & H2). exists w, d. auto.
  - destruct (Grammar.firstKnown (allForms v) (Grammar.possibleRoots w)) as [[c d]|] eqn:F;
      [|discriminate].
    destruct (firstKnown_get _ _ _ _ F) as [_ Gc].
    assert (Hk : JS.has (allForms v) c = true) by (apply has_get; eauto).
    destruct (K c Hk) as (d' & H1 & H2). exists c, d'. auto.
Qed.

Lemma resolved_root_is_a_key_witness :
  Grammar.found (allForms husVocabulary) "huset" = true /\
  exists r d,
    WordInfo.rootWord (Grammar.recognize (allForms husVocabulary) "huset") = Some r /\
    fst (Grammar.getWordDataOf (Some r) (warm husVocabulary)) = Some d /\
    fst (VocabularyManager.getWordData r (VocabularyManager.new husVocabulary)) = Some d.
Proof.
  split; [reflexivity|].
  exact (resolved_root_is_a_key husVocabulary "huset" eq_refl).
Defined.

Lemma firstHit_some {A B} (f : A -> option B) (l : list A) (b : B) :
  Translate.firstHit f l = Some b -> exists a, In a l /\ f a = Some b.
Proof.
  induction l as [|a l IH]; simpl; [discriminate|].
  destruct (f a) as [b'|] eqn:E.
  - intros [= <-]. exists a. auto.
  - intros H. destruct (IH H) as (a' & Hin & Ha). exists a'. auto.
Qed.

Lemma in_entriesOf (v : Vocabulary) l c (w : string * Entry) :
  In l v -> In c (snd l) -> In w (snd c) ->
  In (fst l, fst c, fst w, snd w) (entriesOf v).
Proof.
  intros Hl Hc Hw. unfold entriesOf.
  apply in_flat_map. exists l. split; [exact Hl|].
  apply in_flat_map. exists c. split; [exact Hc|].
  apply in_map_iff. exists w. auto.
Qed.

(** A hit of the scan is a conjugated form or a non-empty 'et' form. *)
Lemma scanVocabulary_form (v : Vocabulary) (word : string) (gloss : option string) :
  word <> "" -> Translate.scanVocabulary v word = Some gloss ->
  isConjugatedForm v word \/ isEtForm v word.
Proof.
  intros Hne H. unfold Translate.scanVocabulary in H.
  apply firstHit_some in H. destruct H as (l & Hl & H).
  apply firstHit_some in H. destruct H as (c & Hc & H).
  apply firstHit_some in H. destruct H as (w & Hw & H).
  pose proof (in_entriesOf v l c w Hl Hc Hw) as Hin.
  unfold Translate.scanEntry in H.
  destruct (match conjugations (snd w) with
            | Some cs => String.eqb (fst c) "verbs"
                         && existsb (fun c0 => String.eqb (snd c0) word) cs
            | None => false
            end) eqn:E1.
  - left. destruct (conjugations (snd w)) as [cs|] eqn:Hcs; [|discriminate].
    apply andb_true_iff in E1. destruct E1 as [Ev Ex].
    apply String.eqb_eq in Ev. rewrite Ev in Hin.
    apply existsb_exists in Ex. destruct Ex as ([t f] & Hf & E).
    apply String.eqb_eq in E. simpl in E. subst f.
    exists (fst l), (fst w), (snd w), cs, t. auto.
  - simpl in H.
    destruct (String.eqb (fst c) "adjectives"
              && match et_form (snd w) with
                 | Some f => String.eqb f word
                 | None => false
                 end) eqn:E2; [|discriminate].
    right. apply andb_true_iff in E2. destruct E2 as [Ea Ef].
    apply String.eqb_eq in Ea. rewrite Ea in Hin.
    destruct (et_form (snd w)) as [f|] eqn:Hf; [|discriminate].
    apply String.eqb_eq in Ef. subst f.
    exists (fst l), (fst w), (snd w). auto.
Qed.

(** X6.  The scan of the vocabulary that follows a failed lookup
    (lines 412-439) never finds anything: for a word that is not empty
    and is no key of the index, no conjugation table and no 'et' form
    matches.  So every word of a sentence that is no key of the index
    is pushed unchanged on [translatedWords]. *)
Theorem fallback_scan_finds_nothing (v : Vocabulary) (word : string) :
  word <> "" -> JS.get (allForms v) word = None ->
  Translate.scanVocabulary v word = None /\
  Translate.translateWord (allForms v) v word = Some word /\
  (forall sentence i,
     nth_error (Translate.wordsOf sentence) i = Some word ->
     nth_error (Translate.translatedWords (allForms v) v sentence) i = Some (Some word)).
Proof.
  intros Hne G.
  assert (S : Translate.scanVocabulary v word = None).
  { destruct (Translate.scanVocabulary v word) as [g|] eqn:E; [|reflexivity].
    exfalso. pose proof (scanVocabulary_form v word g Hne E) as F.
    assert (K : JS.has (allForms v) word = true) by (apply form_has; tauto).
    unfold JS.has in K. rewrite G in K. discriminate. }
  assert (T : Translate.translateWord (allForms v) v word = Some word)
    by (unfold Translate.translateWord; now rewrite G, S).
  split; [exact S|]. split; [exact T|].
  intros sentence i Hi. unfold Translate.translatedWords.
  now rewrite nth_error_map, Hi; simpl; rewrite T.
Qed.

Lemma fallback_scan_finds_nothing_witness :
  ("jeg" <> "" /\ JS.get (allForms husVocabulary) "jeg" = None) /\
  Translate.scanVocabulary husVocabulary "jeg" = None.
Proof.
  split; [split; [discriminate | reflexivity]|].
  exact (proj1 (fallback_scan_finds_nothing husVocabulary "jeg"
                  ltac:(discriminate) eq_refl)).
Defined.

(* ------------------------------------------------------------------ *)
(** ** The feedback of a grammar check *)

Ltac kinds_apart :=
  intros []; unfold isAgreement, isStep2; simpl; intros; congruence.

(** The feedback is the output of the four steps, in this order. *)
Lemma feedback_parts (v : Vocabulary) (input : string) (fb : list Diagnostic) :
  analyzeSentence v input = Some fb ->
  tokens input <> [] /\
  fb = (Grammar.unknownFeedback (allForms v) (tokens input)
        ++ Grammar.v2Feedback (length (tokens input)) (verbPositionOf v input)
        ++ fst (Grammar.conjugationFeedback (tokens input)
                  (Grammar.knownWordsInfo (allForms v) (tokens input))
                  (verbPositionOf v input) (warm v))
        ++ flat_map (fun i => fst (Grammar.agreementAt
                                     (Grammar.knownWordsInfo (allForms v) (tokens input)) i
                                     (warm v)))
                    (seq 0 (length (tokens input))))%list.
Proof.
  intros H. rewrite analyzeSentence_feedbackOn in H.
  pose proof (feedbackOn_some _ _ _ H) as Hw. split; [exact Hw|].
  rewrite (feedbackOn_words v input Hw) in H. injection H as <-.
  unfold Grammar.agreementFeedback, verbPositionOf.
  rewrite forEach_warm; [reflexivity|]. intros i. apply stable_agreementAt.
Qed.

Lemma unknownFeedback_map (forms : JS.Map WordData) (words : list string) :
  Grammar.unknownFeedback forms words
  = map Unrecognized (filter (fun w => negb (Grammar.found forms w)) words).
Proof.
  unfold Grammar.unknownFeedback. induction words as [|w words IH]; simpl; [reflexivity|].
  destruct (Grammar.found forms w); simpl; now rewrite IH.
Qed.

Lemma agreement_flat_map_kind (known : list WordInfo.t) (vm : VocabularyManager.t)
  (l : list nat) :
  Forall (fun d => isAgreement d = true)
         (flat_map (fun i => fst (Grammar.agreementAt known i vm)) l).
Proof. apply Forall_flat_map, Forall_forall. intros i _. apply agreementAt_kind. Qed.

(** Each step gives diagnostics of its own kind, so the parts of a
    feedback are recovered by kind. *)
Lemma feedback_by_kind (v : Vocabulary) (input : string) (fb : list Diagnostic) :
  analyzeSentence v input = Some fb ->
  filter isUnrecognized fb = Grammar.unknownFeedback (allForms v) (tokens input) /\
  filter isStep2 fb = Grammar.v2Feedback (length (tokens input)) (verbPositionOf v input) /\
  filter isConjugation fb
    = fst (Grammar.conjugationFeedback (tokens input)
             (Grammar.knownWordsInfo (allForms v) (tokens input))
             (verbPositionOf v input) (warm v)) /\
  filter isAgreement fb
    = flat_map (fun i => fst (Grammar.agreementAt
                                (Grammar.knownWordsInfo (allForms v) (tokens input)) i
                                (warm v)))
               (seq 0 (length (tokens input))).
Proof.
  intros H. destruct (feedback_parts v input fb H) as [_ E].
  set (U := Grammar.unknownFeedback (allForms v) (tokens input)) in *.
  set (V := Grammar.v2Feedback (length (tokens input)) (verbPositionOf v input)) in *.
  set (C := fst (Grammar.conjugationFeedback (tokens input)
                   (Grammar.knownWordsInfo (allForms v) (tokens input))
                   (verbPositionOf v input) (warm v))) in *.
  set (A := flat_map _ _) in E.
  assert (KU : Forall (fun d => isUnrecognized d = true) U) by apply unknownFeedback_kind.
  assert (KV : Forall (fun d => isStep2 d = true) V) by apply v2Feedback_kind.
  assert (KC : Forall (fun d => isConjugation d = true) C) by apply conjugationFeedback_kind.
  assert (KA : Forall (fun d => isAgreement d = true) A) by apply agreement_flat_map_kind.
  assert (FU : filter isUnrecognized fb = U).
  { rewrite E, !filter_app.
    rewrite (filter_same_kind isUnrecognized isUnrecognized U ltac:(auto) KU).
    rewrite (filter_other_kind isStep2 isUnrecognized V ltac:(kinds_apart) KV).
    rewrite (filter_other_kind isConjugation isUnrecognized C ltac:(kinds_apart) KC).
    rewrite (filter_other_kind isAgreement isUnrecognized A ltac:(kinds_apart) KA).
    now rewrite !app_nil_r. }
  assert (FV : filter isStep2 fb = V).
  { rewrite E, !filter_app.
    rewrite (filter_other_kind isUnrecognized isStep2 U ltac:(kinds_apart) KU).
    rewrite (filter_same_kind isStep2 isStep2 V ltac:(auto) KV).
    rewrite (filter_other_kind isConjugation isStep2 C ltac:(kinds_apart) KC).
    rewrite (filter_other_kind isAgreement isStep2 A ltac:(kinds_apart) KA).
    now rewrite !app_nil_r. }
  assert (FC : filter isConjugation fb = C).
  { rewrite E, !filter_app.
    rewrite (filter_other_kind isUnrecognized isConjugation U ltac:(kinds_apart) KU).
    rewrite (filter_other_kind isStep2 isConjugation V ltac:(kinds_apart) KV).
    rewrite (filter_same_kind isConjugation isConjugation C ltac:(auto) KC).
    rewrite (filter_other_kind isAgreement isConjugation A ltac:(kinds_apart) KA).
    now rewrite !app_nil_r. }
  assert (FA : filter isAgreement fb = A).
  { rewrite E, !filter_app.
    rewrite (filter_other_kind isUnrecognized isAgreement U ltac:(kinds_apart) KU).
    rewrite (filter_other_kind isStep2 isAgreement V ltac:(kinds_apart) KV).
    rewrite (filter_other_kind isConjugation isAgreement C ltac:(kinds_apart) KC).
    rewrite (filter_same_kind isAgreement isAgreement A ltac:(auto) KA).
    reflexivity. }
  auto.
Qed.


(** X7.  The feedback reports the words that were not found, and only
    them: one diagnostic for each occurrence, in the order of the
    sentence; and it lists its diagnostics by step: the unknown words,
    then the verb position or missing verb, then the conjugation, then
    the agreement. *)
Theorem feedback_unknown_words_and_order (v : Vocabulary) (input : string)
  (fb : list Diagnostic) :
  analyzeSentence v input = Some fb ->
  filter isUnrecognized fb
    = map Unrecognized (filter (fun w => negb (Grammar.found (allForms v) w)) (tokens input)) /\
  fb = (filter isUnrecognized fb ++ filter isStep2 fb
        ++ filter isConjugation fb ++ filter isAgreement fb)%list.
Proof.
  intros H. destruct (feedback_parts v input fb H) as [_ E].
  destruct (feedback_by_kind v input fb H) as (FU & FV & FC & FA).
  rewrite FU, FV, FC, FA. split; [apply unknownFeedback_map | exact E].
Qed.

Lemma feedback_unknown_words_and_order_witness :
  analyzeSentence articleVocabulary "jeg spise et pige nu"
  = Some [Unrecognized "jeg"; Unrecognized "nu";
          WrongConjugation "spise" (Some "spiser");
          NounArticle (Some "pige") "en" "et"] /\
  filter isUnrecognized
         [Unrecognized "jeg"; Unrecognized "nu";
          WrongConjugation "spise" (Some "spiser");
          NounArticle (Some "pige") "en" "et"]
  = map Unrecognized
        (filter (fun w => negb (Grammar.found (allForms articleVocabulary) w))
                (tokens "jeg spise et pige nu")).
Proof.
  split; [reflexivity|].
  exact (proj1 (feedback_unknown_words_and_order articleVocabulary "jeg spise et pige nu"
                  _ eq_refl)).
Defined.

Lemma checkGrammar_new (v : Vocabulary) (input : string) :
  fst (Grammar.checkGrammar input (VocabularyManager.new v))
  = Grammar.mentorText (analyzeSentence v input).
Proof.
  unfold Grammar.checkGrammar, VocabularyManager.bind, analyzeSentence.
  now destruct (Grammar.checkGrammarFeedback input (VocabularyManager.new v)).
Qed.

(** X8.  The grammar check praises the sentence (the text of line 663)
    exactly when its feedback is empty; and then every word of the
    sentence was found and the sentence has a verb, which is its second
    word unless the sentence has one word only. *)
Theorem praise_conditions (v : Vocabulary) (input : string) :
  (fst (Grammar.checkGrammar input (VocabularyManager.new v)) = Grammar.mentorText (Some [])
   <-> analyzeSentence v input = Some []) /\
  (analyzeSentence v input = Some [] ->
   (forall w, In w (tokens input) -> Grammar.found (allForms v) w = true) /\
   exists pos, verbPositionOf v input = Some pos /\
               (length (tokens input) = 1 \/ pos = 1)).
Proof.
  split.
  - rewrite checkGrammar_new. split; [|now intros ->].
    destruct (analyzeSentence v input) as [[|d fb]|]; [reflexivity | |]; discriminate.
  - intros H. destruct (feedback_parts v input [] H) as [Hw _].
    destruct (feedback_by_kind v input [] H) as (FU & FV & _ & _). simpl in FU, FV.
    split.
    + intros w Hin. destruct (Grammar.found (allForms v) w) eqn:F; [reflexivity|].
      exfalso. rewrite unknownFeedback_map in FU.
      assert (Hf : In w (filter (fun w => negb (Grammar.found (allForms v) w)) (tokens input)))
        by (apply filter_In; rewrite F; auto).
      destruct (filter _ (tokens input)); [contradiction | discriminate].
    + unfold Grammar.v2Feedback in FV.
      destruct (verbPositionOf v input) as [pos|]; [|discriminate].
      exists pos. split; [reflexivity|].
      destruct (1 <? length (tokens input)) eqn:L; simpl in FV.
      * destruct (pos =? 1) eqn:P; [|discriminate]. right. now apply Nat.eqb_eq.
      * left. apply Nat.ltb_ge in L. destruct (tokens input); [contradiction|].
        simpl in *. lia.
Qed.

(** X9.  The feedback holds the verb-position diagnostic exactly when
    the sentence has more than one word and its first verb is not the
    second word (so never for a sentence of one word), and the
    "no verb" diagnostic exactly when no word is a verb. *)
Theorem step2_diagnostics_exactly (v : Vocabulary) (input : string) (fb : list Diagnostic) :
  analyzeSentence v input = Some fb ->
  (In VerbNotSecond fb <->
   1 < length (tokens input) /\
   exists pos, verbPositionOf v input = Some pos /\ pos <> 1) /\
  (In NoVerbFound fb <-> verbPositionOf v input = None).
Proof.
  intros H. destruct (feedback_by_kind v input fb H) as (_ & FV & _ & _).
  assert (I : forall d, isStep2 d = true ->
                (In d fb <-> In d (Grammar.v2Feedback (length (tokens input))
                                                     (verbPositionOf v input)))).
  { intros d Hd. rewrite <- FV, filter_In. tauto. }
  rewrite (I VerbNotSecond eq_refl), (I NoVerbFound eq_refl).
  unfold Grammar.v2Feedback.
  destruct (verbPositionOf v input) as [pos|].
  - destruct (1 <? length (tokens input)) eqn:L; simpl.
    + apply Nat.ltb_lt in L. destruct (pos =? 1) eqn:P; simpl.
      * apply Nat.eqb_eq in P. split; split.
        -- contradiction.
        -- intros (_ & pos' & [= <-] & Hne). contradiction.
        -- contradiction.
        -- discriminate.
      * apply Nat.eqb_neq in P. split; split.
        -- intros _. split; [exact L|]. exists pos. auto.
        -- auto.
        -- intros [E|[]]. discriminate E.
        -- discriminate.
    + apply Nat.ltb_ge in L. split; split.
      * contradiction.
      * intros (Hl & _). lia.
      * contradiction.
      * discriminate.
  - simpl. split; split.
    + intros [E|[]]. discriminate E.
    + intros (_ & pos & E & _). discriminate E.
    + auto.
    + auto.
Qed.

Lemma step2_diagnostics_exactly_witness :
  analyzeSentence articleVocabulary "spise" = Some [WrongConjugation "spise" (Some "spiser")] /\
  (In VerbNotSecond [WrongConjugation "spise" (Some "spiser")] <->
   1 < length (tokens "spise") /\
   exists pos, verbPositionOf articleVocabulary "spise" = Some pos /\ pos <> 1).
Proof.
  split; [reflexivity|].
  exact (proj1 (step2_diagnostics_exactly articleVocabulary "spise" _ eq_refl)).
Defined.

Lemma strictEq_false (a b : option string) : Grammar.strictEq a b = false -> a <> b.
Proof.
  destruct a as [x|], b as [y|]; simpl; try discriminate.
  intros H [= ->]. rewrite String.eqb_refl in H. discriminate.
Qed.

(** X10.  The feedback holds at most one conjugation diagnostic, and
    when it holds one, it is the "might be conjugated incorrectly"
    message for a verb that the sentence uses in its dictionary form:
    the verb token is a word of the vocabulary whose own record has
    category 'verbs' and a conjugation table, and the token differs
    from the table's present form.  A conjugated form that the sentence
    uses never gets a conjugation diagnostic. *)
Theorem conjugation_diagnostic_only_for_dictionary_form
  (v : Vocabulary) (input : string) (fb : list Diagnostic) (d : Diagnostic) :
  analyzeSentence v input = Some fb -> In d fb -> isConjugation d = true ->
  filter isConjugation fb = [d] /\
  exists pos w record conjs,
    verbPositionOf v input = Some pos /\
    nth_error (tokens input) pos = Some w /\
    isRootWord v w /\
    JS.get (allForms v) w = Some record /\
    root record = None /\ category record = "verbs" /\
    conjugations (data record) = Some conjs /\
    Some w <> conj conjs "present" /\
    d = WrongConjugation w (conj conjs "present").
Proof.
  intros H Hin Hd. destruct (feedback_by_kind v input fb H) as (_ & _ & FC & _).
  assert (Hc : In d (filter isConjugation fb)) by (apply filter_In; auto).
  rewrite FC in *. clear FC Hin Hd H.
  unfold Grammar.conjugationFeedback in *.
  destruct (verbPositionOf v input) as [pos|] eqn:Epos; [|contradiction].
  destruct (nth_error (tokens input) pos) as [w|] eqn:Ew; [|contradiction].
  destruct (nth_error (Grammar.knownWordsInfo (allForms v) (tokens input)) pos)
    as [verbInfo|]; [|contradiction].
  unfold VocabularyManager.bind in *. rewrite getWordDataOf_warm in *.
  change (JS.or (WordInfo.root verbInfo) (Some w)) with (Some w) in *.
  cbv iota beta in *.
  destruct (JS.get (allForms v) w) as [record|] eqn:G; [|contradiction].
  destruct (conjugations (data record)) as [conjs|] eqn:C; [|contradiction].
  destruct (String.eqb (category record) "verbs") eqn:V; [|contradiction].
  destruct (Grammar.strictEq (Some w) (conj conjs "present")) eqn:P; [contradiction|].
  simpl negb in *. cbv iota in *.
  assert (R : root record = None).
  { destruct (allForms_rootOrConjugations v _ _ G) as [R|R]; [exact R | congruence]. }
  rewrite R in *. simpl in Hc |- *. destruct Hc as [<-|[]].
  split; [reflexivity|].
  exists pos, w, record, conjs.
  assert (W : isRootWord v w).
  { destruct (allForms_recordOf v w record G)
      as [(lvl & cat & e & Hin & _)
         | [(lvl & w' & e & cs & t & _ & _ & _ & _ & ->)
           | (lvl & w' & e & _ & _ & _ & _ & ->)]];
      [exists lvl, cat, e; exact Hin | discriminate | discriminate]. }
  apply String.eqb_eq in V. apply strictEq_false in P.
  split; [first [reflexivity | exact Epos]|].
  split; [first [reflexivity | exact Ew]|].
  split; [exact W|]. split; [first [reflexivity | exact G]|].
  split; [exact R|]. split; [exact V|].
  split; [first [reflexivity | exact C]|]. split; [exact P|].
  reflexivity.
Qed.

Lemma conjugation_diagnostic_only_for_dictionary_form_witness :
  (analyzeSentence husVocabulary "jeg spise"
     = Some [Unrecognized "jeg"; WrongConjugation "spise" (Some "spiser")] /\
   In (WrongConjugation "spise" (Some "spiser"))
      [Unrecognized "jeg"; WrongConjugation "spise" (Some "spiser")]) /\
  filter isConjugation [Unrecognized "jeg"; WrongConjugation "spise" (Some "spiser")]
  = [WrongConjugation "spise" (Some "spiser")].
Proof.
  split; [split; [reflexivity | right; left; reflexivity]|].
  exact (proj1 (conjugation_diagnostic_only_for_dictionary_form husVocabulary "jeg spise"
                  _ _ eq_refl (or_intror (or_introl eq_refl)) eq_refl)).
Defined.

(* ------------------------------------------------------------------ *)
(** ** The adjective after 'en' *)

(** The root stored for a word that was found is a key of the index. *)
Lemma found_root_key (v : Vocabulary) (w : string) :
  Grammar.isSome (WordInfo.originalWordData (Grammar.recognize (allForms v) w)) = true ->
  exists r d, WordInfo.rootWord (Grammar.recognize (allForms v) w) = Some r /\
              JS.get (allForms v) r = Some d.
Proof.
  unfold Grammar.recognize.
  destruct (JS.get (allForms v) w) as [d0|] eqn:G.
  - intros _. simpl. unfold JS.or. destruct (JS.truthy (root d0)) eqn:T.
    + destruct (root d0) as [r|] eqn:Hr; [|discriminate].
      destruct (allForms_root v w r d0 G Hr) as (_ & _ & Hk).
      apply has_get in Hk. destruct Hk as [d Hd]. exists r, d. auto.
    + exists w, d0. auto.
  - destruct (Grammar.firstKnown (allForms v) (Grammar.possibleRoots w)) as [[c d]|] eqn:F;
      [|discriminate].
    intros _. destruct (firstKnown_get _ _ _ _ F) as [_ Gc]. exists c, d. auto.
Qed.

Lemma in_agreement (v : Vocabulary) (input : string) (fb : list Diagnostic)
  (i : nat) (d : Diagnostic) :
  analyzeSentence v input = Some fb ->
  i < length (tokens input) ->
  In d (fst (Grammar.agreementAt (Grammar.knownWordsInfo (allForms v) (tokens input)) i
              (warm v))) ->
  In d fb.
Proof.
  intros H Hi Hd. destruct (feedback_by_kind v input fb H) as (_ & _ & _ & FA).
  assert (Hf : In d (filter isAgreement fb)).
  { rewrite FA. apply in_flat_map. exists i. split; [|exact Hd].
    apply in_seq. lia. }
  apply filter_In in Hf. tauto.
Qed.

(** X11.  After the article 'en', an adjective followed by a noun is
    always reported: whatever form the adjective has, even its base
    form, the feedback says that it should be its base form, and names
    that base form as [undefined].  Line 644 (and line 650) compares
    the adjective with [adjectiveRootData.root], a property that the
    own record of an adjective does not have. *)
Theorem adjective_after_en_always_reported
  (v : Vocabulary) (input : string) (fb : list Diagnostic) (i : nat)
  (adj noun a : string) (adjectiveRootData : WordData) :
  analyzeSentence v input = Some fb ->
  nth_error (tokens input) i = Some "en" ->
  nth_error (tokens input) (i + 1) = Some adj ->
  nth_error (tokens input) (i + 2) = Some noun ->
  WordInfo.category (Grammar.recognize (allForms v) "en") <> "unknown" ->
  WordInfo.category (Grammar.recognize (allForms v) adj) = "adjectives" ->
  WordInfo.rootWord (Grammar.recognize (allForms v) adj) = Some a ->
  JS.get (allForms v) a = Some adjectiveRootData ->
  category adjectiveRootData = "adjectives" ->
  root adjectiveRootData = None ->
  WordInfo.category (Grammar.recognize (allForms v) noun) = "nouns" ->
  In (AdjectiveBaseForm (Some a) adj None "en") fb /\
  message (AdjectiveBaseForm (Some a) adj None "en")
  = "The adjective '" ++ a ++ "' (form: '" ++ adj
    ++ "') should be its base form ('undefined') when used with 'en'.".
Proof.
  intros H H0 H1 H2 Hen Hadj Ha Hget Hcat Hroot Hnoun.
  split; [|reflexivity].
  assert (Hi : i < length (tokens input)) by (apply nth_error_Some; congruence).
  apply (in_agreement v input fb i _ H Hi).
  assert (Sa : Grammar.isSome (WordInfo.originalWordData
                                 (Grammar.recognize (allForms v) adj)) = true)
    by (apply recognize_known; rewrite Hadj; discriminate).
  assert (Sn : Grammar.isSome (WordInfo.originalWordData
                                 (Grammar.recognize (allForms v) noun)) = true)
    by (apply recognize_known; rewrite Hnoun; discriminate).
  destruct (found_root_key v noun Sn) as (n & nounData & Hn & Gn).
  apply String.eqb_neq in Hen.
  unfold Grammar.agreementAt, Grammar.knownWordsInfo.
  rewrite !nth_error_map, H0, H1, H2. cbn [option_map].
  rewrite Hen, word_recognize. cbn [String.eqb Ascii.eqb Bool.eqb orb].
  rewrite Hadj, Hnoun, Sa, Sn.
  change (String.eqb "adjectives" "nouns") with false.
  change (String.eqb "adjectives" "adjectives") with true.
  change (String.eqb "nouns" "nouns") with true.
  cbn [andb]. unfold VocabularyManager.bind.
  rewrite Hn, getWordDataOf_warm, Gn. cbv beta iota.
  rewrite Ha, getWordDataOf_warm, Hget. cbn [fst VocabularyManager.ret].
  apply in_or_app. right.
  unfold Grammar.adjectiveFeedback. rewrite Hcat, Hroot, word_recognize, Ha.
  change (String.eqb "adjectives" "adjectives") with true. cbv iota.
  change (String.eqb "en" "et") with false.
  change (String.eqb "en" "en") with true.
  simpl. destruct (JS.truthy (et_form (data adjectiveRootData))); simpl; auto.
Qed.

Lemma adjective_after_en_always_reported_witness :
  analyzeSentence articleVocabulary "en stor pige"
  = Some [NoVerbFound; AdjectiveBaseForm (Some "stor") "stor" None "en"] /\
  In (AdjectiveBaseForm (Some "stor") "stor" None "en")
     [NoVerbFound; AdjectiveBaseForm (Some "stor") "stor" None "en"].
Proof.
  split; [reflexivity|].
  exact (proj1 (adjective_after_en_always_reported articleVocabulary "en stor pige" _ 0
                  "stor" "pige" "stor"
                  (rootRecord "A1" "adjectives"
                     (mkEntry (Some "big") None None None None (Some "stort")))
                  eq_refl eq_refl eq_refl eq_refl ltac:(discriminate)
                  eq_refl eq_refl eq_refl eq_refl eq_refl eq_refl)).
Defined.

(* ------------------------------------------------------------------ *)
(** ** Letter case in a translation *)

Lemma toLowerCase_char_idem (c : ascii) :
  JS.toLowerCase_char (JS.toLowerCase_char c) = JS.toLowerCase_char c.
Proof. destruct c as [[] [] [] [] [] [] [] []]; reflexivity. Qed.

Lemma toLowerCase_idem (s : string) :
  JS.toLowerCase (JS.toLowerCase s) = JS.toLowerCase s.
Proof.
  induction s as [|c s IH]; simpl; [reflexivity|].
  now rewrite toLowerCase_char_idem, IH.
Qed.

Lemma find_same {A} (p q : A -> bool) (l : list A) :
  (forall a, p a = q a) -> find p l = find q l.
Proof.
  intros H. induction l as [|a l IH]; simpl; [reflexivity|]. now rewrite H, IH.
Qed.

(** X12.  A translation depends on the sentence only through its
    lower-case form: two sentences that differ in the case of their
    letters get the same translation, be it a stored example's or the
    word-by-word one; so the second [toLowerCase] of [translateSentence]
    changes nothing. *)
Theorem translation_ignores_case (v : Vocabulary) (s1 s2 : string) :
  JS.toLowerCase s1 = JS.toLowerCase s2 ->
  translation v s1 = translation v s2 /\
  translation v (JS.toLowerCase s1) = translation v s1.
Proof.
  assert (K : forall a b, JS.toLowerCase a = JS.toLowerCase b ->
                          translation v a = translation v b).
  { intros a b E. unfold translation.
    destruct (translateSentenceWords_coherent _ a (new_coherent v)) as (-> & _ & _).
    destruct (translateSentenceWords_coherent _ b (new_coherent v)) as (-> & _ & _).
    simpl. unfold translationOn.
    rewrite (find_same (Translate.isExampleOf a) (Translate.isExampleOf b)).
    - unfold Translate.translatedWords, Translate.wordsOf. now rewrite E.
    - intros wd. unfold Translate.isExampleOf. now rewrite E. }
  intros E. split; [now apply K|]. apply K, toLowerCase_idem.
Qed.

Lemma translation_ignores_case_witness :
  JS.toLowerCase "Jeg SPISER hus" = JS.toLowerCase "jeg spiser HUS" /\
  translation husVocabulary "Jeg SPISER hus" = translation husVocabulary "jeg spiser HUS".
Proof.
  split; [reflexivity|].
  exact (proj1 (translation_ignores_case husVocabulary "Jeg SPISER hus" "jeg spiser HUS"
                  eq_refl)).
Defined.

(* ------------------------------------------------------------------ *)
(** ** The words of a sentence *)

Lemma allChars_snoc (p : ascii -> bool) (s : string) (c : ascii) :
  allChars p s = true -> p c = true -> allChars p (s ++ String c "") = true.
Proof.
  intros Hs Hc. induction s as [|a s IH]; simpl in *; [now rewrite Hc|].
  apply andb_true_iff in Hs. destruct Hs as [Ha Hs]. now rewrite Ha, IH.
Qed.

(** The pieces of a split are made of characters of the string that are
    not white space. *)
Lemma split_ws_pieces (p : ascii -> bool) (cur : string) (in_ws : bool) (s : string) :
  allChars p cur = true ->
  (forall c, JS.isWhiteSpace c = false -> In c (list_ascii_of_string s) -> p c = true) ->
  Forall (fun t => allChars p t = true) (JS.split_ws_from cur in_ws s).
Proof.
  revert cur in_ws. induction s as [|c s IH]; intros cur in_ws Hcur Hs; simpl.
  - constructor; [exact Hcur | constructor].
  - assert (Hs' : forall c', JS.isWhiteSpace c' = false ->
                   In c' (list_ascii_of_string s) -> p c' = true)
      by (intros c' W Hin; apply Hs; [exact W | now right]).
    destruct (JS.isWhiteSpace c) eqn:W.
    + destruct in_ws.
      * now apply IH.
      * constructor; [exact Hcur | now apply IH].
    + apply IH; [|exact Hs']. apply allChars_snoc; [exact Hcur|].
      apply Hs; [exact W | now left].
Qed.

Lemma allChars_in (p : ascii -> bool) (s : string) :
  allChars p s = true <-> forall c, In c (list_ascii_of_string s) -> p c = true.
Proof.
  induction s as [|a s IH]; simpl.
  - split; [intros _ c [] | reflexivity].
  - rewrite andb_true_iff, IH. split.
    + intros [Ha Hs] c [<-|Hc]; auto.
    + intros H. split; [apply H; now left | intros c Hc; apply H; now right].
Qed.

Lemma stripFinalPunct_allChars (p : ascii -> bool) (s : string) :
  allChars p s = true -> allChars p (JS.stripFinalPunct s) = true.
Proof.
  induction s as [|c s IH]; [reflexivity|].
  intros H. simpl in H. apply andb_true_iff in H. destruct H as [Hc Hs].
  destruct s as [|c' s'].
  - simpl. destruct (JS.isPunct c); simpl; [reflexivity | now rewrite Hc].
  - change (JS.stripFinalPunct (String c (String c' s')))
      with (String c (JS.stripFinalPunct (String c' s'))).
    cbn [allChars]. now rewrite Hc, IH.
Qed.

Lemma removePunct_allChars (p : ascii -> bool) (s : string) :
  allChars p s = true -> allChars p (JS.removePunct s) = true.
Proof.
  induction s as [|c s IH]; simpl; [reflexivity|].
  intros H. apply andb_true_iff in H. destruct H as [Hc Hs].
  destruct (JS.isPunct c); simpl; [now apply IH | now rewrite Hc, IH].
Qed.

Lemma removePunct_notPunct (s : string) : allChars notPunct (JS.removePunct s) = true.
Proof.
  induction s as [|c s IH]; simpl; [reflexivity|].
  destruct (JS.isPunct c) eqn:P; simpl; [exact IH|].
  unfold notPunct at 1. now rewrite P, IH.
Qed.

Lemma toLowerCase_isLowerCase (s : string) : allChars isLowerCase (JS.toLowerCase s) = true.
Proof.
  induction s as [|c s IH]; simpl; [reflexivity|].
  unfold isLowerCase at 1. now rewrite toLowerCase_char_idem, Ascii.eqb_refl, IH.
Qed.

Lemma isLowerCase_fixed (s : string) :
  allChars isLowerCase s = true -> JS.toLowerCase s = s.
Proof.
  induction s as [|c s IH]; simpl; [reflexivity|].
  intros H. apply andb_true_iff in H. destruct H as [Hc Hs].
  apply Ascii.eqb_eq in Hc. now rewrite Hc, IH.
Qed.

(** The pieces of a split have no white space. *)
Lemma split_ws_notWhiteSpace (s : string) :
  Forall (fun t => allChars notWhiteSpace t = true) (JS.split_ws s).
Proof.
  unfold JS.split_ws.
  assert (G : forall cur in_ws, allChars notWhiteSpace cur = true ->
              Forall (fun t => allChars notWhiteSpace t = true)
                     (JS.split_ws_from cur in_ws s)).
  { induction s as [|c s IH]; intros cur in_ws Hcur; simpl.
    - constructor; [exact Hcur | constructor].
    - destruct (JS.isWhiteSpace c) eqn:W.
      + destruct in_ws; [now apply IH | constructor; [exact Hcur | now apply IH]].
      + apply IH, allChars_snoc; [exact Hcur|]. unfold notWhiteSpace. now rewrite W. }
  now apply G.
Qed.

(** The words of the grammar check and of the translation are not
    empty, hold no white space and are in lower case. *)
Lemma tokens_chars (input t : string) :
  In t (tokens input) ->
  t <> "" /\ allChars notWhiteSpace t = true /\ JS.toLowerCase t = t.
Proof.
  intros H. unfold tokens, Grammar.wordsOf in H.
  apply filter_In in H. destruct H as [H Hne].
  apply in_map_iff in H. destruct H as (piece & <- & Hp).
  split; [intros E; rewrite E in Hne; discriminate|]. split.
  - apply stripFinalPunct_allChars.
    exact (proj1 (Forall_forall _ _) (split_ws_notWhiteSpace _) piece Hp).
  - apply isLowerCase_fixed, stripFinalPunct_allChars.
    refine (proj1 (Forall_forall _ _) (split_ws_pieces isLowerCase "" false _ eq_refl _)
                  piece Hp).
    intros c _. apply allChars_in. unfold sentenceOf. apply toLowerCase_isLowerCase.
Qed.

Lemma wordsOf_chars (sentence t : string) :
  In t (Translate.wordsOf sentence) ->
  t <> "" /\ allChars notWhiteSpace t = true /\ allChars notPunct t = true /\
  JS.toLowerCase t = t.
Proof.
  intros H. unfold Translate.wordsOf in H.
  apply filter_In in H. destruct H as [H Hne].
  split; [intros E; rewrite E in Hne; discriminate|]. split; [|split].
  - exact (proj1 (Forall_forall _ _) (split_ws_notWhiteSpace _) t H).
  - refine (proj1 (Forall_forall _ _) (split_ws_pieces notPunct "" false _ eq_refl _) t H).
    intros c _. apply allChars_in, removePunct_notPunct.
  - apply isLowerCase_fixed.
    refine (proj1 (Forall_forall _ _) (split_ws_pieces isLowerCase "" false _ eq_refl _)
                  t H).
    intros c _. apply allChars_in, removePunct_allChars, toLowerCase_isLowerCase.
Qed.

(* ------------------------------------------------------------------ *)
(** ** Token resolution *)

Lemma firstKnown_skip (forms : JS.Map WordData) (w : string) (l : list string) :
  JS.get forms w = None ->
  Grammar.firstKnown forms (w :: l) = Grammar.firstKnown forms l.
Proof. intros H. simpl. now rewrite H. Qed.

(** The candidates of the code after the word itself are the candidates
    of the four rules. *)
Lemma possibleRoots_candidates (w : string) :
  Grammar.possibleRoots w = w :: suffixCandidates w.
Proof.
  unfold Grammar.possibleRoots, suffixCandidates, stripRules, candidateOf.
  cbn [flat_map fst snd existsb app]. rewrite !orb_false_r. f_equal.
  destruct (JS.endsWith w "te") eqn:Ete;
    [rewrite (endsWith_te_not_et w Ete) | ]; cbn [andb orb];
    repeat match goal with
           | |- context [if ?b then _ else _] => destruct b
           end; reflexivity.
Qed.

Lemma stripRules_length (rule : list string * nat) (suffix : string) :
  In rule stripRules -> In suffix (fst rule) -> String.length suffix = snd rule.
Proof.
  unfold stripRules. simpl.
  intros [<-|[<-|[<-|[<-|[]]]]]; simpl; intros H;
    repeat (destruct H as [<-|H]; [reflexivity|]); contradiction.
Qed.

(** A test of the code pushes a candidate exactly when the rule of the
    specification makes it. *)
Lemma candidateOf_candidateBy (token stem : string) (rule : list string * nat) :
  In rule stripRules ->
  (In stem (candidateOf token rule) <-> candidateBy rule token stem).
Proof.
  intros Hr. unfold candidateOf, candidateBy. split.
  - destruct (existsb (JS.endsWith token) (fst rule)) eqn:E; simpl; [|contradiction].
    destruct (snd rule <? String.length token) eqn:L; [|contradiction].
    intros [<-|[]]. apply existsb_exists in E. destruct E as (suffix & Hin & E).
    apply Nat.ltb_lt in L.
    pose proof (stripRules_length rule suffix Hr Hin) as Hlen.
    exists suffix. split; [exact Hin|]. split; [exact Hlen|]. split.
    + rewrite <- Hlen. now apply endsWith_slice0.
    + now apply slice0_nonempty.
  - intros (suffix & Hin & Hlen & -> & Hne).
    assert (E : existsb (JS.endsWith (stem ++ suffix)) (fst rule) = true).
    { apply existsb_exists. exists suffix. split; [exact Hin | apply endsWith_app]. }
    rewrite E. simpl.
    assert (L : (snd rule <? String.length (stem ++ suffix)) = true).
    { apply Nat.ltb_lt. rewrite length_append, <- Hlen.
      destruct stem; [contradiction | simpl; lia]. }
    rewrite L, <- Hlen, slice0_app. now left.
Qed.

Lemma firstKnown_app (forms : JS.Map WordData) (a b : list string) :
  Grammar.firstKnown forms (a ++ b)
  = match Grammar.firstKnown forms a with
    | Some hit => Some hit
    | None => Grammar.firstKnown forms b
    end.
Proof.
  induction a as [|x a IH]; simpl; [reflexivity|].
  destruct (JS.get forms x); [reflexivity | exact IH].
Qed.

Lemma firstKnown_none (forms : JS.Map WordData) (l : list string) :
  Grammar.firstKnown forms l = None -> forall c, In c l -> JS.get forms c = None.
Proof.
  induction l as [|x l IH]; simpl; [intros _ c []|].
  destruct (JS.get forms x) eqn:G; [discriminate|].
  intros H c [<-|Hc]; [exact G | now apply IH].
Qed.

(** The loop over the candidates finds the candidate of the first rule
    that makes one which is a key. *)
Lemma firstKnown_rules {R} (forms : JS.Map WordData) (g : R -> list string) (rules : list R) :
  match Grammar.firstKnown forms (flat_map g rules) with
  | Some (c, record) =>
      exists i rule,
        nth_error rules i = Some rule /\ In c (g rule) /\ JS.get forms c = Some record /\
        forall j rule' c', j < i -> nth_error rules j = Some rule' -> In c' (g rule') ->
                           JS.get forms c' = None
  | None => forall rule c, In rule rules -> In c (g rule) -> JS.get forms c = None
  end.
Proof.
  induction rules as [|rule rules IH]; simpl; [intros rule c []|].
  rewrite firstKnown_app.
  destruct (Grammar.firstKnown forms (g rule)) as [[c record]|] eqn:F.
  - destruct (firstKnown_get _ _ _ _ F) as [Hin G].
    exists 0, rule. repeat split; auto. intros j rule' c' Hj. lia.
  - pose proof (firstKnown_none _ _ F) as N.
    destruct (Grammar.firstKnown forms (flat_map g rules)) as [[c record]|].
    + destruct IH as (i & rule0 & Hn & Hin & G & Hmin).
      exists (S i), rule0. repeat split; auto.
      intros [|j] rule' c' Hj Hn' Hin'; simpl in Hn'.
      * injection Hn' as <-. now apply N.
      * apply (Hmin j rule' c'); [lia | exact Hn' | exact Hin'].
    + intros rule' c [<-|Hr] Hin; [now apply N | now apply (IH rule' c)].
Qed.

Lemma candidateBy_unique (rule : list string * nat) (token stem stem' : string) :
  candidateBy rule token stem -> candidateBy rule token stem' -> stem = stem'.
Proof.
  intros (s & _ & L & E & _) (s' & _ & L' & E' & _).
  rewrite E in E'. apply append_inj_r in E'; [tauto | congruence].
Qed.

Lemma or_rootOfRecord (record : WordData) (token : string) :
  JS.or (root record) (Some token) = Some (rootOfRecord record token).
Proof.
  unfold JS.or, JS.truthy, rootOfRecord.
  destruct (root record) as [r|]; [|reflexivity].
  destruct (String.eqb r ""); reflexivity.
Qed.

(** The lookup of the code reads the index as the specification
    does. *)
Lemma get_indexHasKey (forms : JS.Map WordData) (key : string) :
  JS.get forms key = None <-> ~ indexHasKey forms key.
Proof.
  unfold indexHasKey. induction forms as [|[k r] forms IH]; simpl.
  - split; [intros _ [] | reflexivity].
  - destruct (String.eqb k key) eqn:E.
    + apply String.eqb_eq in E. split; [discriminate | intros H; exfalso; apply H; now left].
    + apply String.eqb_neq in E. rewrite IH. split.
      * intros H [K|K]; [contradiction | now apply H].
      * intros H K. apply H. now right.
Qed.

Lemma get_indexHolds (forms : JS.Map WordData) (key : string) (record : WordData) :
  JS.get forms key = Some record <-> indexHolds forms key record.
Proof.
  unfold indexHolds. induction forms as [|[k r] forms IH]; simpl.
  - split; [discriminate | intros ([|x before] & after & E & _); discriminate].
  - destruct (String.eqb k key) eqn:E.
    + apply String.eqb_eq in E. subst k. split.
      * intros [= ->]. exists [], forms. split; [reflexivity | intros []].
      * intros ([|[k' r'] before] & after & H & Hb); simpl in H.
        -- now injection H as ->.
        -- injection H as -> -> _. exfalso. apply Hb. now left.
    + apply String.eqb_neq in E. rewrite IH. split.
      * intros (before & after & -> & Hb). exists ((k, r) :: before), after.
        split; [reflexivity|]. intros [K|K]; [contradiction | now apply Hb].
      * intros ([|[k' r'] before] & after & H & Hb); simpl in H.
        -- injection H as -> _. contradiction.
        -- injection H as -> -> ->. exists before, after.
           split; [reflexivity|]. intros K. apply Hb. now right.
Qed.

(** C3.  What the grammar check stores for a word is the resolution
    of the specification, and nothing else is: the exact lookup in the
    index first; when the word is no key, the candidates of the four
    suffix rules (2 characters, 3, 2, 1) in this order, each made only
    when something remains of the word, the first one that is a key
    winning; and category 'unknown' with no root when none is.  The
    second part says that the specification leaves no choice: any
    category, root and record that it allows are the ones stored. *)
Theorem recognize_refines_resolveSpec (forms : JS.Map WordData) (token : string) :
  let info := Grammar.recognize forms token in
  resolveSpec forms token (WordInfo.category info) (WordInfo.rootWord info)
              (WordInfo.originalWordData info)
  /\ (forall cat rootWord record,
        resolveSpec forms token cat rootWord record ->
        cat = WordInfo.category info /\ rootWord = WordInfo.rootWord info /\
        record = WordInfo.originalWordData info)
  /\ WordInfo.word info = token
  /\ (Grammar.found forms token = false ->
      WordInfo.category info = "unknown" /\ WordInfo.rootWord info = None).
Proof.
  assert (S : resolveSpec forms token
                (WordInfo.category (Grammar.recognize forms token))
                (WordInfo.rootWord (Grammar.recognize forms token))
                (WordInfo.originalWordData (Grammar.recognize forms token))).
  { unfold Grammar.recognize. rewrite possibleRoots_candidates.
    destruct (JS.get forms token) as [record|] eqn:G.
    - simpl. rewrite or_rootOfRecord. constructor. now apply get_indexHolds.
    - rewrite (firstKnown_skip _ _ _ G). unfold suffixCandidates.
      apply get_indexHasKey in G.
      pose proof (firstKnown_rules forms (candidateOf token) stripRules) as F.
      destruct (Grammar.firstKnown forms (flat_map (candidateOf token) stripRules))
        as [[c record]|]; simpl.
      + destruct F as (i & rule & Hn & Hin & Gc & Hmin).
        apply (resolvedStripped forms token i rule c record); auto.
        * apply candidateOf_candidateBy; [now apply (nth_error_In _ i) | exact Hin].
        * now apply get_indexHolds.
        * intros j rule' stem' Hj Hn' Hc. apply get_indexHasKey.
          apply (Hmin j rule' stem' Hj Hn').
          apply candidateOf_candidateBy; [now apply (nth_error_In _ j) | exact Hc].
      + apply resolvedUnknown; [exact G|].
        intros rule stem Hr Hc. apply get_indexHasKey. apply (F rule stem Hr).
        now apply candidateOf_candidateBy. }
  cbv zeta. split; [exact S|]. split; [|split].
  - intros cat rootWord record S'.
    destruct S as [r G | i rule stem r G Hn Hc Gs Hmin | G Hall];
      destruct S' as [r' G' | i' rule' stem' r' G' Hn' Hc' Gs' Hmin' | G' Hall'];
      repeat match goal with
             | H : indexHolds _ _ _ |- _ => apply get_indexHolds in H
             | H : ~ indexHasKey _ _ |- _ => apply get_indexHasKey in H
             end;
      try congruence.
    + rewrite G in G'. injection G' as <-. auto.
    + destruct (Nat.lt_trichotomy i i') as [L|[E|L]].
      * pose proof (proj2 (get_indexHasKey _ _) (Hmin' i rule stem L Hn Hc)). congruence.
      * subst i'. rewrite Hn in Hn'. injection Hn' as <-.
        rewrite (candidateBy_unique _ _ _ _ Hc Hc') in *.
        rewrite Gs in Gs'. injection Gs' as <-. auto.
      * pose proof (proj2 (get_indexHasKey _ _) (Hmin i' rule' stem' L Hn' Hc')). congruence.
    + pose proof (proj2 (get_indexHasKey _ _) (Hall' rule stem (nth_error_In _ _ Hn) Hc)).
      congruence.
    + pose proof (proj2 (get_indexHasKey _ _) (Hall rule' stem' (nth_error_In _ _ Hn') Hc')).
      congruence.
    + auto.
  - unfold Grammar.recognize.
    destruct (JS.get forms token); [reflexivity|].
    destruct (Grammar.firstKnown forms (Grammar.possibleRoots token)) as [[c r]|]; reflexivity.
  - unfold Grammar.found, Grammar.recognize.
    destruct (JS.get forms token); [discriminate|].
    destruct (Grammar.firstKnown forms (Grammar.possibleRoots token)) as [[c r]|];
      [discriminate | auto].
Qed.

(* ------------------------------------------------------------------ *)
(** ** Suffix stripping *)

Lemma possibleRoots_stripped (w c : string) :
  In c (Grammar.possibleRoots w) ->
  c = w \/ exists ending, In ending strippedEndings /\ w = c ++ ending /\ c <> "".
Proof.
  assert (K : forall e n, In e strippedEndings -> n = String.length e ->
                In c (if JS.endsWith w e && (n <? String.length w)
                      then [JS.slice0 w n] else []) ->
                exists ending, In ending strippedEndings /\ w = c ++ ending /\ c <> "").
  { intros e n He -> H.
    destruct (JS.endsWith w e) eqn:E; simpl in H; [|contradiction].
    destruct (String.length e <? String.length w) eqn:L; [|contradiction].
    destruct H as [<-|[]]. apply Nat.ltb_lt in L.
    exists e. split; [exact He|].
    split; [exact (endsWith_slice0 w e E) | now apply slice0_nonempty]. }
  unfold Grammar.possibleRoots. cbv zeta. intros H.
  change (In c (w :: (if JS.endsWith w "er" && (2 <? String.length w)
                      then [JS.slice0 w 2] else [])
                     ++ (if JS.endsWith w "ede" && (3 <? String.length w)
                         then [JS.slice0 w 3] else [])
                     ++ (if JS.endsWith w "te" && (2 <? String.length w)
                         then [JS.slice0 w 2] else [])
                     ++ (if JS.endsWith w "et" && (2 <? String.length w)
                         then [JS.slice0 w 2] else [])
                     ++ (if JS.endsWith w "t" && (1 <? String.length w)
                         then [JS.slice0 w 1] else []))%list) in H.
  destruct H as [<-|H]; [now left|]. right.
  rewrite !in_app_iff in H. destruct H as [H|[H|[H|[H|H]]]].
  - apply (K "er" 2); [simpl; tauto | reflexivity | exact H].
  - apply (K "ede" 3); [simpl; tauto | reflexivity | exact H].
  - apply (K "te" 2); [simpl; tauto | reflexivity | exact H].
  - apply (K "et" 2); [simpl; tauto | reflexivity | exact H].
  - apply (K "t" 1); [simpl; tauto | reflexivity | exact H].
Qed.

(** X14.  When the grammar check finds a word that is no key of the
    index, the root it stores is the word without one of the endings
    er, ede, te, et, t: the word is that root followed by the ending;
    the root is not empty and is a key of the index, and the category
    stored is the category of its record. *)
Theorem stripped_root_is_the_word_without_its_ending (v : Vocabulary) (w : string) :
  JS.get (allForms v) w = None ->
  Grammar.found (allForms v) w = true ->
  exists r ending d,
    WordInfo.rootWord (Grammar.recognize (allForms v) w) = Some r /\
    In ending strippedEndings /\ w = r ++ ending /\ r <> "" /\
    JS.get (allForms v) r = Some d /\
    WordInfo.category (Grammar.recognize (allForms v) w) = category d.
Proof.
  unfold Grammar.found, Grammar.recognize. intros G. rewrite G.
  destruct (Grammar.firstKnown (allForms v) (Grammar.possibleRoots w)) as [[c d]|] eqn:F;
    [|discriminate].
  intros _. destruct (firstKnown_get _ _ _ _ F) as [Hin Gc].
  destruct (possibleRoots_stripped w c Hin) as [->|(ending & He & Hw & Hne)];
    [congruence|].
  exists c, ending, d. simpl. auto 10.
Qed.

Lemma stripped_root_is_the_word_without_its_ending_witness :
  (JS.get (allForms husVocabulary) "huset" = None /\
   Grammar.found (allForms husVocabulary) "huset" = true) /\
  exists r ending d,
    WordInfo.rootWord (Grammar.recognize (allForms husVocabulary) "huset") = Some r /\
    In ending strippedEndings /\ "huset" = r ++ ending /\ r <> "" /\
    JS.get (allForms husVocabulary) r = Some d /\
    WordInfo.category (Grammar.recognize (allForms husVocabulary) "huset") = category d.
Proof.
  split; [split; reflexivity|].
  exact (stripped_root_is_the_word_without_its_ending husVocabulary "huset" eq_refl eq_refl).
Defined.

(* ------------------------------------------------------------------ *)
(** ** The keys that are looked up *)

Lemma toLowerCase_app (a b : string) :
  JS.toLowerCase (a ++ b) = JS.toLowerCase a ++ JS.toLowerCase b.
Proof. induction a as [|c a IH]; simpl; [reflexivity | now rewrite IH]. Qed.

(** The candidates of a word in lower case are in lower case. *)
Lemma possibleRoots_lower (t c : string) :
  t <> "" -> JS.toLowerCase t = t -> In c (Grammar.possibleRoots t) ->
  c <> "" /\ JS.toLowerCase c = c.
Proof.
  intros Hne Hl Hc.
  destruct (possibleRoots_stripped t c Hc) as [->|(ending & _ & E & Hcne)]; [now split|].
  split; [exact Hcne|].
  rewrite E, toLowerCase_app in Hl.
  apply append_inj_r in Hl; [tauto | apply length_toLowerCase].
Qed.

(** X13.  The keys that step 1 of the grammar check and the direct
    lookup of the translation ask the index for are in lower case: the
    words of the sentence are never empty, hold no white space and are
    in lower case (those of a translation hold, besides, none of the
    marks [.,?!;]), and so are the candidates that step 1 strips from
    a word.  So a key that holds a capital letter is never one of
    them.  A root stored in step 1 can hold a capital letter all the
    same, and the later steps look it up: it is then the [root]
    property of the record found under the word itself. *)
Theorem looked_up_words_are_lower_case :
  (forall input t, In t (tokens input) ->
     t <> "" /\ allChars notWhiteSpace t = true /\ JS.toLowerCase t = t) /\
  (forall sentence t, In t (Translate.wordsOf sentence) ->
     t <> "" /\ allChars notWhiteSpace t = true /\ allChars notPunct t = true /\
     JS.toLowerCase t = t) /\
  (forall k input sentence, JS.toLowerCase k <> k ->
     ~ In k (tokens input) /\ ~ In k (Translate.wordsOf sentence)) /\
  (forall input t c, In t (tokens input) -> In c (Grammar.possibleRoots t) ->
     c <> "" /\ JS.toLowerCase c = c) /\
  (forall forms input t k,
     In t (tokens input) -> JS.toLowerCase k <> k ->
     WordInfo.rootWord (Grammar.recognize forms t) = Some k ->
     exists record, JS.get forms t = Some record /\ root record = Some k).
Proof.
  split; [exact tokens_chars|]. split; [exact wordsOf_chars|]. split; [|split].
  - intros k input sentence Hk. split; intros Hin.
    + destruct (tokens_chars input k Hin) as (_ & _ & E). contradiction.
    + destruct (wordsOf_chars sentence k Hin) as (_ & _ & _ & E). contradiction.
  - intros input t c Ht Hc. destruct (tokens_chars input t Ht) as (Hne & _ & Hl).
    exact (possibleRoots_lower t c Hne Hl Hc).
  - intros forms input t k Ht Hk. destruct (tokens_chars input t Ht) as (Hne & _ & Hl).
    unfold Grammar.recognize.
    destruct (JS.get forms t) as [record|] eqn:G.
    + simpl. unfold JS.or. destruct (JS.truthy (root record)).
      * intros E. now exists record.
      * intros [= <-]. contradiction.
    + destruct (Grammar.firstKnown forms (Grammar.possibleRoots t)) as [[c r]|] eqn:F;
        simpl; [|discriminate].
      intros [= <-]. destruct (firstKnown_get _ _ _ _ F) as [Hin _].
      destruct (possibleRoots_lower t c Hne Hl Hin) as [_ E]. contradiction.
Qed.

(* ------------------------------------------------------------------ *)
(** ** Unknown words in a translation

    The phrase repair is six replacements on the joined words.  Each of
    them keeps a word that stands between white space and names no
    repair word: a match of its expression ends before the word,
    starts after it, or goes over it and is replaced by a text that
    holds the word at the same place.  [rmatch_sound] tells what a
    match of each expression reads; [replaceAll_keeps] and
    [replaceFirst_keeps] go through the string as [replace] does. *)

Lemma append_split (a b c d : string) :
  a ++ b = c ++ d ->
  (exists e, a = c ++ e /\ d = e ++ b) \/ (exists e, c = a ++ e /\ b = e ++ d).
Proof.
  revert c. induction a as [|x a IH]; intros c H; simpl in H.
  - right. exists c. now split.
  - destruct c as [|y c]; simpl in H.
    + left. exists (String x a). now split.
    + injection H as -> H. destruct (IH c H) as [(e & -> & ->)|(e & -> & ->)].
      * left. exists e. now split.
      * right. exists e. now split.
Qed.

Lemma allChars_app (p : ascii -> bool) (a b : string) :
  allChars p (a ++ b) = allChars p a && allChars p b.
Proof.
  induction a as [|c a IH]; simpl; [reflexivity|]. now rewrite IH, andb_assoc.
Qed.

Lemma consumed_app (m s' : string) : Regex.consumed (m ++ s') s' = m.
Proof.
  unfold Regex.consumed. rewrite length_append.
  replace (String.length m + String.length s' - String.length s')
    with (String.length m) by lia.
  apply substring0_app.
Qed.

Lemma lastOr_app (prev : option ascii) (a b : string) :
  lastOr prev (a ++ b) = lastOr (lastOr prev a) b.
Proof. revert prev. induction a as [|c a IH]; intros prev; simpl; [reflexivity | apply IH]. Qed.

Lemma lastOr_nonempty (prev prev' : option ascii) (a : string) :
  a <> "" -> lastOr prev a = lastOr prev' a.
Proof. destruct a; [contradiction | reflexivity]. Qed.

Lemma lastIs_app (p : ascii -> bool) (a b : string) :
  b <> "" -> lastIs p (a ++ b) = lastIs p b.
Proof.
  intros Hb. induction a as [|c a IH]; [reflexivity|].
  change (String c a ++ b) with (String c (a ++ b)).
  destruct (a ++ b) eqn:E.
  - destruct a; [simpl in E; contradiction | discriminate].
  - exact IH.
Qed.

Lemma lastIs_snoc (p : ascii -> bool) (s : string) :
  s <> "" -> lastIs p s = true -> exists x c, s = x ++ String c "" /\ p c = true.
Proof.
  induction s as [|c s IH]; [contradiction|]. intros _ H.
  destruct s as [|c' s'].
  - exists "", c. now split.
  - destruct IH as (x & c0 & E & Hc); [discriminate | exact H |].
    exists (String c x), c0. simpl. now rewrite E.
Qed.

Lemma headIs_app (p : ascii -> bool) (a b : string) :
  a <> "" -> headIs p (a ++ b) = headIs p a.
Proof. destruct a; [contradiction | reflexivity]. Qed.

Lemma ws_not_word (c : ascii) : JS.isWhiteSpace c = true -> Regex.isWordChar c = false.
Proof.
  unfold JS.isWhiteSpace, Regex.isWordChar, JS.in_range. cbv zeta.
  intros H.
  repeat match type of H with
         | (_ || _) = true => apply orb_true_iff in H; destruct H as [H|H]
         | (_ && _) = true => apply andb_true_iff in H; destruct H as [? H]
         end;
    repeat match goal with
           | H : (_ <=? _) = true |- _ => apply Nat.leb_le in H
           | H : (_ =? _) = true |- _ => apply Nat.eqb_eq in H
           end;
    repeat (apply orb_false_iff; split);
    try (apply andb_false_iff;
         first [left; apply Nat.leb_gt; lia | right; apply Nat.leb_gt; lia]);
    apply Nat.eqb_neq; lia.
Qed.

(** *** The matcher yields matches *)

Lemma readLit_spec (l : string) (prev : option ascii) (s : string)
  (prev' : option ascii) (s' : string) :
  Regex.readLit l prev s = Some (prev', s') -> s = l ++ s' /\ prev' = lastOr prev l.
Proof.
  revert prev s. induction l as [|a l IH]; intros prev s H; simpl in H.
  - injection H as -> ->. now split.
  - destruct s as [|c s]; [discriminate|].
    destruct (Ascii.eqb a c) eqn:E; [|discriminate].
    apply Ascii.eqb_eq in E. subst c.
    destruct (IH _ _ H) as [-> ->]. now split.
Qed.

Lemma rmatch_plus_sound (p : ascii -> bool) (caps : Regex.Captures)
  (k : option ascii -> string -> Regex.Captures -> option Regex.Result)
  (s : string) (prev : option ascii) (res : Regex.Result) :
  Regex.rmatch (Regex.PlusCls p) prev s caps k = Some res ->
  exists m s', s = m ++ s' /\ m <> "" /\ allChars p m = true /\
               k (lastOr prev m) s' caps = Some res.
Proof.
  revert prev. induction s as [|c s IH]; intros prev H; simpl in H; [discriminate|].
  destruct (p c) eqn:P; [|discriminate].
  change ((fix more (prev0 : option ascii) (s0 : string) {struct s0} : option Regex.Result :=
             match s0 with
             | "" => None
             | String c0 s'0 =>
                 if p c0
                 then match more (Some c0) s'0 with
                      | Some res0 => Some res0
                      | None => k (Some c0) s'0 caps
                      end
                 else None
             end) (Some c) s)
    with (Regex.rmatch (Regex.PlusCls p) (Some c) s caps k) in H.
  destruct (Regex.rmatch (Regex.PlusCls p) (Some c) s caps k) as [res'|] eqn:E.
  - injection H as ->. destruct (IH _ E) as (m & s' & -> & Hm & Hall & Hk).
    exists (String c m), s'. simpl. rewrite P, Hall. repeat split; auto. discriminate.
  - exists (String c ""), s. simpl. rewrite P. repeat split; auto. discriminate.
Qed.

Lemma rmatch_sound (r : Regex.regex) :
  forall prev s caps k res,
    Regex.rmatch r prev s caps k = Some res ->
    exists p' s' c', Matches r prev s caps p' s' c' /\ k p' s' c' = Some res.
Proof.
  induction r as [l|p| |r1 IH1 r2 IH2|r1 IH1 r2 IH2|r1 IH1|i r1 IH1];
    intros prev s caps k res H.
  - simpl in H. destruct (Regex.readLit l prev s) as [[p' s']|] eqn:E; [|discriminate].
    destruct (readLit_spec _ _ _ _ _ E) as [-> ->].
    exists (lastOr prev l), s', caps. split; [now constructor | exact H].
  - destruct (rmatch_plus_sound _ _ _ _ _ _ H) as (m & s' & -> & Hm & Hall & Hk).
    exists (lastOr prev m), s', caps. split; [now apply M_Plus | exact Hk].
  - simpl in H. destruct (xorb (Regex.wordBefore prev) (Regex.wordAfter s)) eqn:E;
      [|discriminate].
    exists prev, s, caps. split; [now constructor | exact H].
  - simpl in H. destruct (IH1 _ _ _ _ _ H) as (p1 & s1 & c1 & M1 & H1).
    destruct (IH2 _ _ _ _ _ H1) as (p2 & s2 & c2 & M2 & H2).
    exists p2, s2, c2. split; [now apply (M_Seq _ _ _ _ _ p1 s1 c1) | exact H2].
  - simpl in H. destruct (Regex.rmatch r1 prev s caps k) as [res'|] eqn:E.
    + injection H as ->. destruct (IH1 _ _ _ _ _ E) as (p' & s' & c' & M & Hk).
      exists p', s', c'. split; [now apply M_AltL | exact Hk].
    + destruct (IH2 _ _ _ _ _ H) as (p' & s' & c' & M & Hk).
      exists p', s', c'. split; [now apply M_AltR | exact Hk].
  - simpl in H. destruct (Regex.rmatch r1 prev s caps k) as [res'|] eqn:E.
    + injection H as ->. destruct (IH1 _ _ _ _ _ E) as (p' & s' & c' & M & Hk).
      exists p', s', c'. split; [now apply M_OptSome | exact Hk].
    + exists prev, s, caps. split; [apply M_OptNone | exact H].
  - simpl in H. destruct (IH1 _ _ _ _ _ H) as (p' & s' & c' & M & Hk).
    exists p', s', ((i, Regex.consumed s s') :: c'). split; [now apply M_Group | exact Hk].
Qed.

Lemma matchHere_sound (r : Regex.regex) (prev : option ascii) (s s' : string)
  (caps : Regex.Captures) :
  Regex.matchHere r prev s = Some (s', caps) ->
  exists p', Matches r prev s [] p' s' caps.
Proof.
  unfold Regex.matchHere. intros H.
  destruct (rmatch_sound _ _ _ _ _ _ H) as (p' & s1 & c1 & M & [= -> ->]).
  now exists p'.
Qed.

(** What a match reads is a prefix of the string. *)
Lemma Matches_prefix r prev s caps p' s' c' :
  Matches r prev s caps p' s' c' -> exists m, s = m ++ s' /\ p' = lastOr prev m.
Proof.
  induction 1 as [l prev s caps s' E|p prev s caps m s' E Hm Hall|prev s caps Hb
                 |r1 r2 prev s caps p1 s1 c1 p2 s2 c2 _ IH1 _ IH2
                 |r1 r2 prev s caps p' s' c' _ IH|r1 r2 prev s caps p' s' c' _ IH
                 |r prev s caps p' s' c' _ IH|r prev s caps
                 |i r prev s caps p' s' c' _ IH].
  - now exists l.
  - now exists m.
  - now exists "".
  - destruct IH1 as (m1 & -> & ->). destruct IH2 as (m2 & -> & ->).
    exists (m1 ++ m2). now rewrite append_assoc, lastOr_app.
  - exact IH.
  - exact IH.
  - exact IH.
  - now exists "".
  - exact IH.
Qed.

Lemma Matches_anyOf (l : list string) prev s caps p' s' c' :
  l <> [] -> Matches (Regex.anyOf l) prev s caps p' s' c' ->
  exists g, In g l /\ s = g ++ s' /\ p' = lastOr prev g /\ c' = caps.
Proof.
  induction l as [|a l IH]; [contradiction|]. intros _ H.
  destruct l as [|b l].
  - simpl in H. inversion H; subst. exists a. repeat split; auto. now left.
  - change (Regex.anyOf (a :: b :: l)) with (Regex.Alt (Regex.Lit a) (Regex.anyOf (b :: l))) in H.
    inversion H as [| | | |? ? ? ? ? ? ? ? M|? ? ? ? ? ? ? ? M| | |]; subst.
    + inversion M; subst. exists a. repeat split; auto. now left.
    + destruct (IH ltac:(discriminate) M) as (g & Hg & -> & -> & ->).
      exists g. repeat split; auto. now right.
Qed.

(** *** The expressions of the repair *)

Ltac inv_matches :=
  repeat match goal with
         | H : Matches (Regex.Seq _ _) _ _ _ _ _ _ |- _ => inversion H; subst; clear H
         | H : Matches (Regex.Group _ _) _ _ _ _ _ _ |- _ => inversion H; subst; clear H
         | H : Matches (Regex.Lit _) _ _ _ _ _ _ |- _ => inversion H; subst; clear H
         | H : Matches (Regex.PlusCls _) _ _ _ _ _ _ |- _ => inversion H; subst; clear H
         | H : Matches Regex.WordBoundary _ _ _ _ _ _ |- _ => inversion H; subst; clear H
         | H : Matches (Regex.Opt _) _ _ _ _ _ _ |- _ => inversion H; subst; clear H
         end.

Lemma verbGlosses_facts (g : string) :
  In g Translate.verbGlosses ->
  g <> "" /\ Regex.wordAfter g = true /\ Regex.wordBefore (lastOr None g) = true /\
  allChars notWhiteSpace g = true /\
  (allChars Regex.isWordChar g = true \/ g = "think/find").
Proof.
  intros H.
  assert (F : forallb (fun g => negb (String.eqb g "") && Regex.wordAfter g
                                && Regex.wordBefore (lastOr None g)
                                && allChars notWhiteSpace g
                                && (allChars Regex.isWordChar g || String.eqb g "think/find"))
                      Translate.verbGlosses = true) by reflexivity.
  rewrite forallb_forall in F. specialize (F g H).
  repeat (apply andb_true_iff in F; destruct F as [F ?]).
  repeat split; auto.
  - apply negb_true_iff, String.eqb_neq in F. exact F.
  - match goal with K : (_ || _) = true |- _ =>
      apply orb_true_iff in K; destruct K as [K|K]; [now left | right; now apply String.eqb_eq] end.
Qed.

Lemma Matches_verbGlosses prev s caps p' s' c' :
  Matches (Regex.anyOf Translate.verbGlosses) prev s caps p' s' c' ->
  exists g, In g Translate.verbGlosses /\ s = g ++ s' /\ p' = lastOr prev g /\ c' = caps.
Proof. apply Matches_anyOf. unfold Translate.verbGlosses. discriminate. Qed.

Lemma wordBefore_lastOr (prev : option ascii) (g : string) :
  g <> "" -> Regex.wordBefore (lastOr prev g) = Regex.wordBefore (lastOr None g).
Proof. intros H. now rewrite (lastOr_nonempty prev None g H). Qed.

Lemma boundary_after_word (prev : option ascii) (s : string) :
  Regex.wordBefore prev = true ->
  xorb (Regex.wordBefore prev) (Regex.wordAfter s) = true -> Regex.wordAfter s = false.
Proof. intros -> H. now destruct (Regex.wordAfter s). Qed.

Lemma boundary_before_word (prev : option ascii) (s : string) :
  Regex.wordAfter s = true ->
  xorb (Regex.wordBefore prev) (Regex.wordAfter s) = true -> Regex.wordBefore prev = false.
Proof. intros -> H. now destruct (Regex.wordBefore prev). Qed.

Lemma wordAfter_app (g s : string) : g <> "" -> Regex.wordAfter (g ++ s) = Regex.wordAfter g.
Proof. destruct g; [contradiction | reflexivity]. Qed.

(** [/(\b\w+\b) to (eat|...)\b/]. *)
Lemma reToVerb_shape (prev : option ascii) (s s' : string) (caps : Regex.Captures) :
  Regex.matchHere Translate.reToVerb prev s = Some (s', caps) ->
  exists subject gloss,
    s = subject ++ " to " ++ gloss ++ s' /\
    subject <> "" /\ allChars Regex.isWordChar subject = true /\
    In gloss Translate.verbGlosses /\ Regex.wordAfter s' = false /\
    Translate.group caps 1 = subject /\ Translate.group caps 2 = gloss.
Proof.
  intros H. destruct (matchHere_sound _ _ _ _ _ H) as (p' & M). clear H.
  unfold Translate.reToVerb in M.
  remember (Regex.anyOf Translate.verbGlosses) as alts eqn:Ealts.
  revert Ealts. inv_matches. intros ->.
  match goal with M : Matches (Regex.anyOf _) _ _ _ _ _ _ |- _ =>
    destruct (Matches_verbGlosses _ _ _ _ _ _ M) as (g & Hg & E & -> & ->) end.
  destruct (verbGlosses_facts g Hg) as (Hne & _ & Hlast & _).
  match goal with B : xorb (Regex.wordBefore (lastOr _ g)) _ = true |- _ =>
    rewrite (wordBefore_lastOr _ g Hne) in B;
    pose proof (boundary_after_word _ _ Hlast B) as Hafter end.
  exists m, g. subst.
  repeat split; auto.
  - unfold Translate.group, Regex.capture. cbn [find fst snd Nat.eqb].
    apply consumed_app.
  - unfold Translate.group, Regex.capture. cbn [find fst snd Nat.eqb].
    apply consumed_app.
Qed.

(** [/(\b(eat|...))s?\b/]. *)
Lemma reVerb_shape (prev : option ascii) (s s' : string) (caps : Regex.Captures) :
  Regex.matchHere Translate.reVerb prev s = Some (s', caps) ->
  exists gloss ending,
    s = gloss ++ ending ++ s' /\ In gloss Translate.verbGlosses /\
    (ending = "" \/ ending = "s") /\
    Regex.wordBefore prev = false /\ Regex.wordAfter s' = false.
Proof.
  intros H. destruct (matchHere_sound _ _ _ _ _ H) as (p' & M). clear H.
  unfold Translate.reVerb in M.
  remember (Regex.anyOf Translate.verbGlosses) as alts eqn:Ealts.
  revert Ealts. inv_matches; intros ->;
    match goal with M : Matches (Regex.anyOf _) _ _ _ _ _ _ |- _ =>
      destruct (Matches_verbGlosses _ _ _ _ _ _ M) as (g & Hg & E & Ep & Ec) end;
    destruct (verbGlosses_facts g Hg) as (Hne & Hfirst & Hlast & _); subst.
  - exists g, "s". repeat split; auto.
    + match goal with
      | B : xorb (Regex.wordBefore ?p) _ = true |- Regex.wordBefore ?p = false =>
          rewrite (wordAfter_app g _ Hne) in B; exact (boundary_before_word _ _ Hfirst B)
      end.
    + match goal with
      | B : xorb (Regex.wordBefore (lastOr _ "s")) _ = true |- _ =>
          refine (boundary_after_word _ _ _ B); reflexivity
      end.
  - exists g, "". repeat split; auto.
    + match goal with
      | B : xorb (Regex.wordBefore ?p) _ = true |- Regex.wordBefore ?p = false =>
          rewrite (wordAfter_app g _ Hne) in B; exact (boundary_before_word _ _ Hfirst B)
      end.
    + match goal with
      | B : xorb (Regex.wordBefore (lastOr _ g)) _ = true |- _ =>
          rewrite (wordBefore_lastOr _ g Hne) in B; exact (boundary_after_word _ _ Hlast B)
      end.
Qed.

Lemma anGroup_shape prev s caps p' s' c' :
  Matches Translate.anGroup prev s caps p' s' c' ->
  exists article, (article = "a" \/ article = "an") /\ s = article ++ s' /\
                  Regex.wordBefore p' = true.
Proof.
  unfold Translate.anGroup. intros M. inv_matches.
  - exists "an". repeat split; auto.
  - exists "a". repeat split; auto.
Qed.

(** [/ the (an?)\b/]. *)
Lemma reTheAn_shape (prev : option ascii) (s s' : string) (caps : Regex.Captures) :
  Regex.matchHere Translate.reTheAn prev s = Some (s', caps) ->
  exists article,
    (article = "a" \/ article = "an") /\ s = " the " ++ article ++ s' /\
    Regex.wordAfter s' = false.
Proof.
  intros H. destruct (matchHere_sound _ _ _ _ _ H) as (p' & M). clear H.
  unfold Translate.reTheAn in M.
  inversion M as [| | |? ? ? ? ? ? ? ? ? ? ? M1 M2| | | | |]; subst. clear M.
  inversion M2 as [| | |? ? ? ? ? ? ? ? ? ? ? M3 M4| | | | |]; subst. clear M2.
  destruct (anGroup_shape _ _ _ _ _ _ M3) as (article & Ha & -> & Hw).
  inversion M1; subst. inversion M4; subst.
  exists article. repeat split; auto.
  match goal with B : xorb _ _ = true |- _ => exact (boundary_after_word _ _ Hw B) end.
Qed.

(** [/ an? (an?)\b/]. *)
Lemma reAnAn_shape (prev : option ascii) (s s' : string) (caps : Regex.Captures) :
  Regex.matchHere Translate.reAnAn prev s = Some (s', caps) ->
  exists first second,
    (first = "a" \/ first = "an") /\ (second = "a" \/ second = "an") /\
    s = " " ++ first ++ " " ++ second ++ s' /\ Regex.wordAfter s' = false.
Proof.
  intros H. destruct (matchHere_sound _ _ _ _ _ H) as (p' & M). clear H.
  unfold Translate.reAnAn in M.
  inversion M as [| | |? ? ? ? ? ? ? ? ? ? ? M1 M2| | | | |]; subst. clear M.
  inversion M2 as [| | |? ? ? ? ? ? ? ? ? ? ? M3 M4| | | | |]; subst. clear M2.
  inversion M4 as [| | |? ? ? ? ? ? ? ? ? ? ? M5 M6| | | | |]; subst. clear M4.
  inversion M6 as [| | |? ? ? ? ? ? ? ? ? ? ? M7 M8| | | | |]; subst. clear M6.
  destruct (anGroup_shape _ _ _ _ _ _ M7) as (second & Ha & -> & Hw).
  inversion M8; subst.
  assert (Hafter : Regex.wordAfter s' = false)
    by (match goal with B : xorb _ _ = true |- _ => exact (boundary_after_word _ _ Hw B) end).
  inv_matches.
  - exists "an", second. repeat split; auto.
  - exists "a", second. repeat split; auto.
Qed.

(** [/\s+a\s+an\s+/] and [/\s+an\s+a\s+/]. *)
Lemma spaced_shape (one two : string) (prev : option ascii) (s s' : string)
  (caps : Regex.Captures) :
  Regex.matchHere
    (Regex.Seq Translate.spaces
       (Regex.Seq (Regex.Lit one)
          (Regex.Seq Translate.spaces (Regex.Seq (Regex.Lit two) Translate.spaces))))
    prev s = Some (s', caps) ->
  exists w1 w2 w3,
    s = w1 ++ one ++ w2 ++ two ++ w3 ++ s' /\
    w1 <> "" /\ allChars JS.isWhiteSpace w1 = true /\
    w2 <> "" /\ allChars JS.isWhiteSpace w2 = true /\
    w3 <> "" /\ allChars JS.isWhiteSpace w3 = true.
Proof.
  intros H. destruct (matchHere_sound _ _ _ _ _ H) as (p' & M). clear H.
  unfold Translate.spaces in M. inv_matches.
  match goal with
  | H1 : allChars JS.isWhiteSpace ?a = true, H2 : allChars JS.isWhiteSpace ?b = true,
    H3 : allChars JS.isWhiteSpace ?c = true |- context [?a ++ one ++ ?b ++ two ++ ?c ++ _] =>
      exists a, b, c
  end.
  repeat split; auto.
Qed.

(** *** A word that a replacement keeps *)

Lemma lastOr_snoc (prev : option ascii) (a : string) (c : ascii) :
  lastOr prev (a ++ String c "") = Some c.
Proof. now rewrite lastOr_app. Qed.

Lemma append_nonempty_l (a b : string) : a <> "" -> a ++ b <> "".
Proof. destruct a; [contradiction | discriminate]. Qed.

Lemma length_nonempty (m : string) : m <> "" -> exists n, String.length m = S n.
Proof. destruct m; [contradiction | intros _; simpl; eauto]. Qed.

Section KeepsWord.
Variable r : Regex.regex.
Variable f : string -> Regex.Captures -> string.
Variable t : string.

(** What a match reads is not empty. *)
Hypothesis match_reads :
  forall prev s s' caps,
    Regex.matchHere r prev s = Some (s', caps) -> exists m, m <> "" /\ s = m ++ s'.

(** A match that starts before the word ends before the white space
    that precedes the word, or goes over the whole word and is replaced
    by a text that holds the word at the same place. *)
Hypothesis match_before :
  forall prev p2 post s' caps m,
    p2 <> "" -> lastIs JS.isWhiteSpace p2 = true -> headIs JS.isWhiteSpace post = true ->
    Regex.matchHere r prev (p2 ++ t ++ post) = Some (s', caps) ->
    p2 ++ t ++ post = m ++ s' ->
    (exists p2', p2 = m ++ p2' /\ p2' <> "") \/
    (exists y y', m = p2 ++ t ++ y /\ f m caps = p2 ++ t ++ y' /\
                  y' <> "" /\ headIs JS.isWhiteSpace y' = true).

(** A match that starts in the word goes to the end of the word and is
    replaced by a text that starts with what it read of the word. *)
Hypothesis match_inside :
  forall prev t1 t2 post s' caps m,
    t = t1 ++ t2 -> t2 <> "" ->
    Regex.wordBefore prev = Regex.wordBefore (lastOr None t1) ->
    headIs JS.isWhiteSpace post = true ->
    Regex.matchHere r prev (t2 ++ post) = Some (s', caps) ->
    t2 ++ post = m ++ s' ->
    exists y y', m = t2 ++ y /\ f m caps = t2 ++ y' /\
                 y' <> "" /\ headIs JS.isWhiteSpace y' = true.

(** A match that starts at the white space after the word is replaced
    by a text that starts with white space. *)
Hypothesis match_after :
  forall prev c post s' caps m,
    JS.isWhiteSpace c = true ->
    Regex.matchHere r prev (String c post) = Some (s', caps) ->
    String c post = m ++ s' ->
    f m caps <> "" /\ headIs JS.isWhiteSpace (f m caps) = true.

Lemma replaceAllFrom_match (prev : option ascii) (c : ascii) (rest s' m : string)
  (caps : Regex.Captures) :
  Regex.matchHere r prev (String c rest) = Some (s', caps) ->
  String c rest = m ++ s' -> m <> "" ->
  exists n, String.length m = S n /\
    Regex.replaceAllFrom r f prev (String c rest) 0
    = f m caps ++ Regex.replaceAllFrom r f (Some c) rest n.
Proof.
  intros H E Hm. destruct (length_nonempty m Hm) as (n & L). exists n. split; [exact L|].
  cbn [Regex.replaceAllFrom]. rewrite H.
  assert (D : String.length (String c rest) - String.length s' = S n)
    by (rewrite E, length_append; lia).
  rewrite D. f_equal. f_equal. rewrite E. apply consumed_app.
Qed.

Lemma keeps_after (post : string) (prev : option ascii) :
  headIs JS.isWhiteSpace post = true ->
  headIs JS.isWhiteSpace (Regex.replaceAllFrom r f prev post 0) = true.
Proof.
  intros Hp. destruct post as [|c post].
  - simpl. destruct (Regex.matchHere r prev "") as [[s' caps]|] eqn:E; [|reflexivity].
    destruct (match_reads _ _ _ _ E) as (m & Hm & Em).
    destruct m; [contradiction | discriminate].
  - simpl in Hp.
    destruct (Regex.matchHere r prev (String c post)) as [[s' caps]|] eqn:E.
    + destruct (match_reads _ _ _ _ E) as (m & Hm & Em).
      destruct (replaceAllFrom_match _ _ _ _ _ _ E Em Hm) as (n & _ & ->).
      destruct (match_after _ _ _ _ _ _ Hp E Em) as [Hne Hh].
      now rewrite headIs_app.
    + simpl. rewrite E. exact Hp.
Qed.

Lemma keeps_inside (t2 : string) :
  forall t1 post prev,
    t = t1 ++ t2 ->
    Regex.wordBefore prev = Regex.wordBefore (lastOr None t1) ->
    headIs JS.isWhiteSpace post = true ->
    exists Y, Regex.replaceAllFrom r f prev (t2 ++ post) 0 = t2 ++ Y /\
              headIs JS.isWhiteSpace Y = true.
Proof.
  induction t2 as [|c t2 IH]; intros t1 post prev Et Hprev Hp.
  - exists (Regex.replaceAllFrom r f prev post 0). split; [reflexivity|].
    now apply keeps_after.
  - change (String c t2 ++ post) with (String c (t2 ++ post)).
    destruct (Regex.matchHere r prev (String c (t2 ++ post))) as [[s' caps]|] eqn:E.
    + destruct (match_reads _ _ _ _ E) as (m & Hm & Em).
      destruct (replaceAllFrom_match _ _ _ _ _ _ E Em Hm) as (n & _ & ->).
      destruct (match_inside prev t1 (String c t2) post s' caps m Et ltac:(discriminate)
                  Hprev Hp E Em) as (y & y' & _ & -> & Hy & Hh).
      exists (y' ++ Regex.replaceAllFrom r f (Some c) (t2 ++ post) n).
      split; [now rewrite append_assoc | now rewrite headIs_app].
    + destruct (IH (t1 ++ String c "") post (Some c)) as (Y & EY & HY).
      * now rewrite append_assoc.
      * now rewrite lastOr_snoc.
      * exact Hp.
      * exists Y. split; [|exact HY]. simpl. rewrite E. now rewrite EY.
Qed.

Lemma keeps_before (pre : string) :
  forall prev skip post,
    skip = 0 \/ skip < String.length pre ->
    lastIs JS.isWhiteSpace pre = true ->
    headIs JS.isWhiteSpace post = true ->
    (pre = "" -> Regex.wordBefore prev = false) ->
    exists X Y,
      Regex.replaceAllFrom r f prev (pre ++ t ++ post) skip = X ++ t ++ Y /\
      lastIs JS.isWhiteSpace X = true /\ (pre <> "" -> X <> "") /\
      headIs JS.isWhiteSpace Y = true.
Proof.
  induction pre as [|c pre IH]; intros prev skip post Hskip Hpre Hpost Hprev.
  - assert (skip = 0) as -> by (destruct Hskip as [?|L]; [assumption | simpl in L; lia]).
    destruct (keeps_inside t "" post prev eq_refl) as (Y & EY & HY).
    + now rewrite Hprev.
    + exact Hpost.
    + exists "", Y. simpl. repeat split; auto.
  - change (String c pre ++ t ++ post) with (String c (pre ++ t ++ post)).
    assert (Hc : pre = "" -> Regex.wordBefore (Some c) = false).
    { intros ->. simpl in Hpre. simpl. now apply ws_not_word. }
    assert (Hpre' : lastIs JS.isWhiteSpace pre = true).
    { destruct pre; [reflexivity | exact Hpre]. }
    destruct skip as [|n].
    + destruct (Regex.matchHere r prev (String c (pre ++ t ++ post))) as [[s' caps]|] eqn:E.
      * destruct (match_reads _ _ _ _ E) as (m & Hm & Em).
        destruct (replaceAllFrom_match _ _ _ _ _ _ E Em Hm) as (n & L & ->).
        destruct (match_before prev (String c pre) post s' caps m ltac:(discriminate)
                    Hpre Hpost E Em) as [(p2' & Ep & Hp2')|(y & y' & _ & -> & Hy & Hh)].
        -- assert (Ln : n < String.length pre).
           { assert (K : String.length (String c pre) = String.length (m ++ p2'))
               by now rewrite Ep.
             rewrite length_append in K. simpl in K.
             destruct p2'; [contradiction | simpl in K; lia]. }
           destruct (IH (Some c) n post (or_intror Ln) Hpre' Hpost Hc)
             as (X & Y & EX & HX & HXne & HY).
           exists (f m caps ++ X), Y. rewrite EX, append_assoc.
           assert (Xne : X <> "") by (apply HXne; destruct pre; [simpl in Ln; lia | discriminate]).
           split; [reflexivity|]. split; [now rewrite lastIs_app|]. split; [|exact HY].
           intros _ K. destruct (f m caps); [simpl in K; contradiction | discriminate].
        -- exists (String c pre),
                  (y' ++ Regex.replaceAllFrom r f (Some c) (pre ++ t ++ post) n).
           split; [now rewrite !append_assoc|]. split; [exact Hpre|].
           split; [discriminate | now rewrite headIs_app].
      * destruct (IH (Some c) 0 post (or_introl eq_refl) Hpre' Hpost Hc)
          as (X & Y & EX & HX & HXne & HY).
        exists (String c X), Y. cbn [Regex.replaceAllFrom]. rewrite E, EX.
        split; [reflexivity|]. split; [|split; [discriminate | exact HY]].
        destruct X as [|x X]; [|exact HX].
        destruct pre as [|c' pre']; [exact Hpre|].
        exfalso. apply HXne; [discriminate | reflexivity].
    + assert (Ln : n < String.length pre) by (destruct Hskip as [?|L]; [discriminate | simpl in L; lia]).
      destruct (IH (Some c) n post (or_intror Ln) Hpre' Hpost Hc)
        as (X & Y & EX & HX & HXne & HY).
      exists X, Y. cbn [Regex.replaceAllFrom]. rewrite EX.
      split; [reflexivity|]. split; [exact HX|]. split; [|exact HY].
      intros _. apply HXne. destruct pre; [simpl in Ln; lia | discriminate].
Qed.

(** [replace] with the flag [g] keeps the word, between white space. *)
Lemma replaceAll_keeps (s : string) :
  standsAsWord t s -> standsAsWord t (Regex.replaceAll r f s).
Proof.
  intros (pre & post & -> & Hpre & Hpost).
  destruct (keeps_before pre None 0 post (or_introl eq_refl) Hpre Hpost (fun _ => eq_refl))
    as (X & Y & E & HX & _ & HY).
  exists X, Y. unfold Regex.replaceAll. now rewrite E.
Qed.

End KeepsWord.

Section KeepsWordFirst.
Variable r : Regex.regex.
Variable text : string.
Variable t : string.

Hypothesis text_spaces :
  text <> "" /\ lastIs JS.isWhiteSpace text = true /\ headIs JS.isWhiteSpace text = true.

(** A match that starts before the word ends before the word. *)
Hypothesis first_before :
  forall prev p2 post s' caps,
    p2 <> "" -> lastIs JS.isWhiteSpace p2 = true -> headIs JS.isWhiteSpace post = true ->
    Regex.matchHere r prev (p2 ++ t ++ post) = Some (s', caps) ->
    exists p2', s' = p2' ++ t ++ post /\ (p2' = "" \/ lastIs JS.isWhiteSpace p2' = true).

(** No match starts in the word. *)
Hypothesis first_inside :
  forall prev t1 t2 post,
    t = t1 ++ t2 -> t2 <> "" -> Regex.matchHere r prev (t2 ++ post) = None.

Lemma first_keeps_inside (t2 : string) :
  forall t1 post prev,
    t = t1 ++ t2 -> headIs JS.isWhiteSpace post = true ->
    exists Y, Regex.replaceFirstFrom r text prev (t2 ++ post) = t2 ++ Y /\
              headIs JS.isWhiteSpace Y = true.
Proof.
  induction t2 as [|c t2 IH]; intros t1 post prev Et Hp.
  - exists (Regex.replaceFirstFrom r text prev post). split; [reflexivity|].
    destruct post as [|c post]; simpl.
    + destruct (Regex.matchHere r prev "") as [[s' caps]|]; [|reflexivity].
      rewrite headIs_app; tauto.
    + destruct (Regex.matchHere r prev (String c post)) as [[s' caps]|]; [|exact Hp].
      rewrite headIs_app; tauto.
  - change (String c t2 ++ post) with (String c (t2 ++ post)).
    destruct (IH (t1 ++ String c "") post (Some c)) as (Y & EY & HY).
    + now rewrite append_assoc.
    + exact Hp.
    + exists Y. split; [|exact HY]. cbn [Regex.replaceFirstFrom].
      change (String c (t2 ++ post)) with (String c t2 ++ post).
      rewrite (first_inside prev t1 (String c t2) post Et ltac:(discriminate)).
      now rewrite EY.
Qed.

Lemma first_keeps_before (pre : string) :
  forall prev post,
    lastIs JS.isWhiteSpace pre = true -> headIs JS.isWhiteSpace post = true ->
    exists X Y,
      Regex.replaceFirstFrom r text prev (pre ++ t ++ post) = X ++ t ++ Y /\
      lastIs JS.isWhiteSpace X = true /\ (pre <> "" -> X <> "") /\
      headIs JS.isWhiteSpace Y = true.
Proof.
  induction pre as [|c pre IH]; intros prev post Hpre Hpost.
  - destruct (first_keeps_inside t "" post prev eq_refl Hpost) as (Y & EY & HY).
    exists "", Y. split; [exact EY|]. split; [reflexivity|]. split; [tauto | exact HY].
  - change (String c pre ++ t ++ post) with (String c (pre ++ t ++ post)).
    cbn [Regex.replaceFirstFrom].
    destruct (Regex.matchHere r prev (String c (pre ++ t ++ post))) as [[s' caps]|] eqn:E.
    + destruct (first_before prev (String c pre) post s' caps ltac:(discriminate)
                  Hpre Hpost E) as (p2' & -> & Hp2').
      exists (text ++ p2'), post. split; [now rewrite append_assoc|].
      destruct text_spaces as (Tne & Tlast & _).
      split; [|split; [|exact Hpost]].
      * destruct p2' as [|x p2'].
        -- now rewrite append_empty_r.
        -- rewrite lastIs_app; [|discriminate]. destruct Hp2'; [discriminate | assumption].
      * intros _ K. destruct text; [contradiction | discriminate].
    + assert (Hpre' : lastIs JS.isWhiteSpace pre = true)
        by (destruct pre; [reflexivity | exact Hpre]).
      destruct (IH (Some c) post Hpre' Hpost) as (X & Y & EX & HX & HXne & HY).
      exists (String c X), Y. rewrite EX.
      split; [reflexivity|]. split; [|split; [discriminate | exact HY]].
      destruct X as [|x X]; [|exact HX].
      destruct pre as [|c' pre']; [exact Hpre|].
      exfalso. apply HXne; [discriminate | reflexivity].
Qed.

(** [replace] without the flag [g] keeps the word, between white
    space. *)
Lemma replaceFirst_keeps (s : string) :
  standsAsWord t s -> standsAsWord t (Regex.replaceFirst r text s).
Proof.
  intros (pre & post & -> & Hpre & Hpost).
  destruct (first_keeps_before pre None post Hpre Hpost) as (X & Y & E & HX & _ & HY).
  exists X, Y. unfold Regex.replaceFirst. now rewrite E.
Qed.

End KeepsWordFirst.

(** *** Where a match can lie *)

Lemma append_cancel_r (a b s : string) : a ++ s = b ++ s -> a = b.
Proof.
  revert b. induction a as [|x a IH]; intros [|y b] H; simpl in H.
  - reflexivity.
  - exfalso. assert (L : String.length s = String.length (String y (b ++ s))) by now rewrite <- H.
    simpl in L. rewrite length_append in L. lia.
  - exfalso. assert (L : String.length (String x (a ++ s)) = String.length s) by now rewrite H.
    simpl in L. rewrite length_append in L. lia.
  - injection H as -> H. now rewrite (IH b H).
Qed.

(** [a] is made of characters that the first character of [y] is not:
    when [x ++ y] starts with [a], [a] is a prefix of [x]. *)
Lemma prefix_align (p q : ascii -> bool) (x y a b : string) :
  (forall c, p c = true -> q c = true -> False) ->
  x ++ y = a ++ b -> allChars p a = true -> headIs q y = true ->
  exists e, x = a ++ e /\ b = e ++ y.
Proof.
  intros Hpq H Ha Hy. destruct (append_split _ _ _ _ H) as [(e & -> & ->)|(e & -> & ->)].
  - now exists e.
  - destruct e as [|c e].
    + exists "". now rewrite !append_empty_r.
    + exfalso. rewrite allChars_app in Ha. apply andb_true_iff in Ha.
      destruct Ha as [_ Ha]. simpl in Ha, Hy. apply andb_true_iff in Ha.
      destruct Ha as [Ha _]. exact (Hpq c Ha Hy).
Qed.

Lemma notWhiteSpace_false (c : ascii) :
  notWhiteSpace c = true -> JS.isWhiteSpace c = true -> False.
Proof. unfold notWhiteSpace. intros H W. rewrite W in H. discriminate. Qed.

Lemma whiteSpace_false (c : ascii) :
  JS.isWhiteSpace c = true -> notWhiteSpace c = true -> False.
Proof. intros W H. exact (notWhiteSpace_false c H W). Qed.

Lemma word_notWhiteSpace (s : string) :
  allChars Regex.isWordChar s = true -> allChars notWhiteSpace s = true.
Proof.
  induction s as [|c s IH]; simpl; [reflexivity|].
  intros H. apply andb_true_iff in H. destruct H as [Hc Hs].
  rewrite (IH Hs), andb_true_r. unfold notWhiteSpace.
  destruct (JS.isWhiteSpace c) eqn:W; [|reflexivity].
  rewrite (ws_not_word c W) in Hc. discriminate.
Qed.

(** A text without white space that starts [x ++ c ...], where [c] is
    white space, lies in [x]. *)
Lemma before_space (x rest a b : string) (c : ascii) :
  x ++ String c rest = a ++ b -> JS.isWhiteSpace c = true ->
  allChars notWhiteSpace a = true ->
  exists e, x = a ++ e /\ b = e ++ String c rest.
Proof.
  intros H W Ha.
  exact (prefix_align notWhiteSpace JS.isWhiteSpace _ _ _ _ notWhiteSpace_false H Ha W).
Qed.

(** A text without white space at the place of a word that white space
    follows is a prefix of the word. *)
Lemma in_word (t post a b : string) :
  t ++ post = a ++ b -> headIs JS.isWhiteSpace post = true ->
  allChars notWhiteSpace a = true ->
  exists e, t = a ++ e /\ b = e ++ post.
Proof.
  intros H Hp Ha.
  exact (prefix_align notWhiteSpace JS.isWhiteSpace _ _ _ _ notWhiteSpace_false H Ha Hp).
Qed.

(** ... and is the word when white space follows it too. *)
Lemma is_word (t post a b : string) :
  t ++ post = a ++ b -> allChars notWhiteSpace t = true ->
  headIs JS.isWhiteSpace post = true ->
  allChars notWhiteSpace a = true -> b <> "" -> headIs JS.isWhiteSpace b = true ->
  t = a /\ post = b.
Proof.
  intros H Ht Hp Ha Hb Hhb.
  destruct (in_word _ _ _ _ H Hp Ha) as (e & -> & ->).
  destruct e as [|c e]; [now rewrite append_empty_r|].
  exfalso. rewrite allChars_app in Ht. apply andb_true_iff in Ht. destruct Ht as [_ Ht].
  simpl in Ht, Hhb. apply andb_true_iff in Ht. destruct Ht as [Ht _].
  exact (notWhiteSpace_false c Ht Hhb).
Qed.

(** White space at the place of [x ++ t ...], where the word [t] has
    none, lies in [x]. *)
Lemma before_word (x t post a b : string) :
  x ++ t ++ post = a ++ b -> t <> "" -> allChars notWhiteSpace t = true ->
  allChars JS.isWhiteSpace a = true ->
  exists e, x = a ++ e /\ b = e ++ t ++ post.
Proof.
  intros H Hne Ht Ha.
  apply (prefix_align JS.isWhiteSpace notWhiteSpace _ _ _ _ whiteSpace_false H Ha).
  destruct t as [|c t]; [contradiction|]. simpl in *.
  apply andb_true_iff in Ht. tauto.
Qed.

(** *** The words of a token *)

Lemma leadingRun_app (w b : string) :
  allChars Regex.isWordChar w = true -> Regex.wordAfter b = false ->
  leadingRun (w ++ b) = w.
Proof.
  intros Hw Hb. induction w as [|c w IH]; cbn [append leadingRun].
  - destruct b as [|c b]; [reflexivity|]. cbn [Regex.wordAfter] in Hb.
    cbn [leadingRun]. now rewrite Hb.
  - cbn [allChars] in Hw. apply andb_true_iff in Hw. destruct Hw as [Hc Hw].
    now rewrite Hc, IH.
Qed.

Lemma wordRunsFrom_in (t1 w b : string) :
  w <> "" -> allChars Regex.isWordChar w = true -> Regex.wordAfter b = false ->
  forall inWord,
    (t1 = "" -> inWord = false) -> Regex.wordBefore (lastOr None t1) = false ->
    In w (wordRunsFrom inWord (t1 ++ w ++ b)).
Proof.
  intros Hne Hw Hb. induction t1 as [|c t1 IH]; intros inWord Hin Hlast.
  - rewrite (Hin eq_refl). destruct w as [|x w]; [contradiction|].
    change ("" ++ String x w ++ b) with (String x (w ++ b)).
    cbn [wordRunsFrom]. simpl in Hw. apply andb_true_iff in Hw. destruct Hw as [Hx Hw].
    rewrite Hx. left.
    change (String x (w ++ b)) with (String x w ++ b).
    apply leadingRun_app; [simpl; now rewrite Hx, Hw | exact Hb].
  - change (String c t1 ++ w ++ b) with (String c (t1 ++ w ++ b)).
    cbn [wordRunsFrom].
    assert (Hlast' : Regex.wordBefore (lastOr None t1) = false \/ t1 = "").
    { destruct t1 as [|c' t1']; [now right | left; exact Hlast]. }
    destruct (Regex.isWordChar c) eqn:Wc.
    + apply in_or_app. right. destruct Hlast' as [Hl| ->].
      * apply IH; [|exact Hl]. intros ->. simpl in Hlast. congruence.
      * simpl in Hlast. congruence.
    + destruct Hlast' as [Hl| ->].
      * apply IH; [reflexivity | exact Hl].
      * apply IH; [reflexivity | reflexivity].
Qed.

Lemma repairWord_excluded (t t1 w b : string) :
  namesNoRepairWord t = true -> t = t1 ++ w ++ b ->
  Regex.wordBefore (lastOr None t1) = false ->
  w <> "" -> allChars Regex.isWordChar w = true -> Regex.wordAfter b = false ->
  In w repairWords -> False.
Proof.
  intros Hrep -> Hlast Hne Hw Hb Hin.
  unfold namesNoRepairWord in Hrep. apply andb_true_iff in Hrep.
  destruct Hrep as [Hrep _]. rewrite forallb_forall in Hrep.
  assert (R : In w (wordRuns (t1 ++ w ++ b))).
  { unfold wordRuns. apply wordRunsFrom_in; auto. }
  specialize (Hrep w R). apply negb_true_iff in Hrep.
  unfold JS.array_includes in Hrep.
  assert (E : existsb (String.eqb w) repairWords = true).
  { apply existsb_exists. exists w. split; [exact Hin | apply String.eqb_refl]. }
  congruence.
Qed.

Lemma in_repairWords_gloss (g : string) :
  In g Translate.verbGlosses -> In g repairWords /\ In (g ++ "s") repairWords.
Proof.
  intros H. unfold repairWords. split.
  - apply in_or_app. right. apply in_or_app. now left.
  - apply in_or_app. right. apply in_or_app. right.
    apply in_map_iff. now exists g.
Qed.

Lemma wordAfter_rest (e post : string) :
  Regex.wordAfter (e ++ post) = false -> headIs JS.isWhiteSpace post = true ->
  Regex.wordAfter e = false.
Proof. destruct e; [reflexivity | intros H _; exact H]. Qed.

(** A listed gloss, with or without a final [s], between word
    boundaries: no token that names no repair word holds one. *)
Lemma gloss_excluded (t t1 g ending b : string) :
  namesNoRepairWord t = true -> t = t1 ++ g ++ ending ++ b ->
  Regex.wordBefore (lastOr None t1) = false ->
  In g Translate.verbGlosses -> ending = "" \/ ending = "s" ->
  Regex.wordAfter b = false -> False.
Proof.
  intros Hrep Et Hlast Hg He Hb.
  destruct (verbGlosses_facts g Hg) as (Hne & _ & _ & _ & [Hw| ->]).
  - destruct (in_repairWords_gloss g Hg) as [I1 I2].
    apply (repairWord_excluded t t1 (g ++ ending) b Hrep); auto.
    + now rewrite append_assoc.
    + now apply append_nonempty_l.
    + rewrite allChars_app, Hw. destruct He as [-> | ->]; reflexivity.
    + destruct He as [-> | ->]; [now rewrite append_empty_r | exact I2].
  - unfold namesNoRepairWord in Hrep. apply andb_true_iff in Hrep.
    destruct Hrep as [_ Hrep]. apply negb_true_iff in Hrep.
    rewrite Et, includes_app_r in Hrep; [discriminate | apply includes_self_app].
Qed.

(** *** The six replacements *)

Ltac norm_app := repeat first [rewrite !append_assoc | progress (cbn [append])].

Section Repair.
Variable t : string.
Hypothesis t_nows : allChars notWhiteSpace t = true.
Hypothesis t_norepair : namesNoRepairWord t = true.

(** The token does not start with a repair word that ends there or is
    followed by a character that is none of a word. *)
Lemma starts_no_repairWord (w e : string) :
  t = w ++ e -> In w repairWords -> w <> "" -> allChars Regex.isWordChar w = true ->
  Regex.wordAfter e = false -> False.
Proof.
  intros Et Hin Hne Hw He.
  apply (repairWord_excluded t "" w e t_norepair); auto.
Qed.

Lemma starts_no_gloss (g e post s' : string) :
  t = g ++ e -> s' = e ++ post -> In g Translate.verbGlosses ->
  Regex.wordAfter s' = false -> headIs JS.isWhiteSpace post = true -> False.
Proof.
  intros Et -> Hg Hafter Hpost.
  apply (gloss_excluded t "" g "" e t_norepair); auto.
  exact (wordAfter_rest _ _ Hafter Hpost).
Qed.

Lemma toVerb_reads prev s s' caps :
  Regex.matchHere Translate.reToVerb prev s = Some (s', caps) ->
  exists m, m <> "" /\ s = m ++ s'.
Proof.
  intros H.
  destruct (reToVerb_shape _ _ _ _ H) as (subject & gloss & E & Hs & _).
  exists (subject ++ " to " ++ gloss). split; [now apply append_nonempty_l|].
  rewrite E. now rewrite !append_assoc.
Qed.

Lemma toVerb_before prev p2 post s' caps m :
  p2 <> "" -> lastIs JS.isWhiteSpace p2 = true -> headIs JS.isWhiteSpace post = true ->
  Regex.matchHere Translate.reToVerb prev (p2 ++ t ++ post) = Some (s', caps) ->
  p2 ++ t ++ post = m ++ s' ->
  (exists p2', p2 = m ++ p2' /\ p2' <> "") \/
  (exists y y', m = p2 ++ t ++ y /\ Translate.toVerbCallback m caps = p2 ++ t ++ y' /\
                y' <> "" /\ headIs JS.isWhiteSpace y' = true).
Proof.
  intros Hp2 Hlast Hpost H Em. left.
  destruct (reToVerb_shape _ _ _ _ H) as (subject & gloss & E & Hs & Hw & Hg & Hafter & _).
  destruct (verbGlosses_facts gloss Hg) as (_ & _ & _ & Hgws & _).
  assert (m = subject ++ " to " ++ gloss) as ->.
  { apply (append_cancel_r _ _ s'). rewrite <- Em, E. now rewrite !append_assoc. }
  clear Em H.
  destruct (lastIs_snoc _ _ Hp2 Hlast) as (x & c & -> & Wc).
  rewrite append_assoc in E. cbn [append] in E.
  destruct (before_space _ _ _ _ _ E Wc (word_notWhiteSpace _ Hw)) as (e1 & -> & E1).
  destruct e1 as [|c1 e1]; cbn [append] in E1; injection E1 as <- E1.
  - exfalso. symmetry in E1.
    change (t ++ post = "to" ++ String " " (gloss ++ s')) in E1.
    destruct (is_word _ _ _ _ E1 t_nows Hpost eq_refl ltac:(discriminate) eq_refl) as [Et _].
    apply (starts_no_repairWord "to" "");
      [exact Et | unfold repairWords; simpl; tauto | discriminate | reflexivity | reflexivity].
  - change ("to" ++ String " " (gloss ++ s') = e1 ++ String c (t ++ post)) in E1.
    symmetry in E1.
    destruct (before_space _ _ _ _ _ E1 Wc eq_refl) as (e2 & -> & E2).
    destruct e2 as [|c2 e2]; cbn [append] in E2; injection E2 as <- E2.
    + exfalso. symmetry in E2.
      destruct (in_word _ _ _ _ E2 Hpost Hgws) as (e & Et & Es).
      exact (starts_no_gloss gloss e post s' Et Es Hg Hafter Hpost).
    + symmetry in E2.
      destruct (before_space _ _ _ _ _ E2 Wc Hgws) as (e3 & -> & E3).
      exists (e3 ++ String c ""). split; [now norm_app|].
      destruct e3; discriminate.
Qed.

Lemma toVerb_inside prev t1 t2 post s' caps m :
  t = t1 ++ t2 -> t2 <> "" ->
  Regex.wordBefore prev = Regex.wordBefore (lastOr None t1) ->
  headIs JS.isWhiteSpace post = true ->
  Regex.matchHere Translate.reToVerb prev (t2 ++ post) = Some (s', caps) ->
  t2 ++ post = m ++ s' ->
  exists y y', m = t2 ++ y /\ Translate.toVerbCallback m caps = t2 ++ y' /\
               y' <> "" /\ headIs JS.isWhiteSpace y' = true.
Proof.
  intros Et Hne _ Hpost H Em.
  destruct (reToVerb_shape _ _ _ _ H) as (subject & gloss & E & Hs & Hw & Hg & Hafter & G1 & G2).
  assert (m = subject ++ " to " ++ gloss) as ->.
  { apply (append_cancel_r _ _ s'). rewrite <- Em, E. now rewrite !append_assoc. }
  assert (T2 : allChars notWhiteSpace t2 = true).
  { pose proof t_nows as N. rewrite Et, allChars_app in N.
    apply andb_true_iff in N. tauto. }
  destruct (is_word _ _ _ _ E T2 Hpost (word_notWhiteSpace _ Hw) ltac:(discriminate) eq_refl)
    as [-> _].
  exists (" to " ++ gloss). unfold Translate.toVerbCallback. rewrite G1, G2.
  destruct (negb (JS.includes (JS.toLowerCase subject) "to")).
  - destruct (JS.array_includes Translate.commonSubjects (JS.toLowerCase subject)).
    + exists (" " ++ gloss ++ "s"). repeat split; auto. discriminate.
    + exists (" to " ++ gloss). repeat split; auto. discriminate.
  - exists (" to " ++ gloss). repeat split; auto. discriminate.
Qed.

Lemma toVerb_after prev c post s' caps m :
  JS.isWhiteSpace c = true ->
  Regex.matchHere Translate.reToVerb prev (String c post) = Some (s', caps) ->
  String c post = m ++ s' ->
  Translate.toVerbCallback m caps <> "" /\
  headIs JS.isWhiteSpace (Translate.toVerbCallback m caps) = true.
Proof.
  intros Wc H _. exfalso.
  destruct (reToVerb_shape _ _ _ _ H) as (subject & gloss & E & Hs & Hw & _).
  destruct subject as [|x subject]; [contradiction|].
  cbn [append] in E. injection E as <- _. cbn [allChars] in Hw.
  apply andb_true_iff in Hw. destruct Hw as [Hw _].
  rewrite (ws_not_word c Wc) in Hw. discriminate.
Qed.

Lemma toVerb_keeps (s : string) :
  standsAsWord t s ->
  standsAsWord t (Regex.replaceAll Translate.reToVerb Translate.toVerbCallback s).
Proof.
  apply replaceAll_keeps.
  - exact toVerb_reads.
  - exact toVerb_before.
  - exact toVerb_inside.
  - exact toVerb_after.
Qed.

Lemma verb_reads prev s s' caps :
  Regex.matchHere Translate.reVerb prev s = Some (s', caps) ->
  exists m, m <> "" /\ s = m ++ s'.
Proof.
  intros H.
  destruct (reVerb_shape _ _ _ _ H) as (gloss & ending & E & Hg & _).
  destruct (verbGlosses_facts gloss Hg) as (Hne & _).
  exists (gloss ++ ending). split; [now apply append_nonempty_l|].
  rewrite E. now rewrite !append_assoc.
Qed.

Lemma verb_before prev p2 post s' caps m :
  p2 <> "" -> lastIs JS.isWhiteSpace p2 = true -> headIs JS.isWhiteSpace post = true ->
  Regex.matchHere Translate.reVerb prev (p2 ++ t ++ post) = Some (s', caps) ->
  p2 ++ t ++ post = m ++ s' ->
  (exists p2', p2 = m ++ p2' /\ p2' <> "") \/
  (exists y y', m = p2 ++ t ++ y /\ Translate.verbCallback m caps = p2 ++ t ++ y' /\
                y' <> "" /\ headIs JS.isWhiteSpace y' = true).
Proof.
  intros Hp2 Hlast Hpost H Em. left.
  destruct (reVerb_shape _ _ _ _ H) as (gloss & ending & E & Hg & He & _).
  destruct (verbGlosses_facts gloss Hg) as (_ & _ & _ & Hgws & _).
  assert (m = gloss ++ ending) as ->.
  { apply (append_cancel_r _ _ s'). rewrite <- Em, E. now rewrite !append_assoc. }
  destruct (lastIs_snoc _ _ Hp2 Hlast) as (x & c & -> & Wc).
  rewrite append_assoc in E. cbn [append] in E. rewrite <- (append_assoc gloss) in E.
  assert (N : allChars notWhiteSpace (gloss ++ ending) = true).
  { rewrite allChars_app, Hgws. destruct He as [-> | ->]; reflexivity. }
  destruct (before_space _ _ _ _ _ E Wc N) as (e & -> & _).
  exists (e ++ String c ""). split; [now rewrite append_assoc|].
  destruct e; discriminate.
Qed.

Lemma verb_inside prev t1 t2 post s' caps m :
  t = t1 ++ t2 -> t2 <> "" ->
  Regex.wordBefore prev = Regex.wordBefore (lastOr None t1) ->
  headIs JS.isWhiteSpace post = true ->
  Regex.matchHere Translate.reVerb prev (t2 ++ post) = Some (s', caps) ->
  t2 ++ post = m ++ s' ->
  exists y y', m = t2 ++ y /\ Translate.verbCallback m caps = t2 ++ y' /\
               y' <> "" /\ headIs JS.isWhiteSpace y' = true.
Proof.
  intros Et Hne Hprev Hpost H _. exfalso.
  destruct (reVerb_shape _ _ _ _ H) as (gloss & ending & E & Hg & He & Hbefore & Hafter).
  destruct (verbGlosses_facts gloss Hg) as (_ & _ & _ & Hgws & _).
  rewrite <- (append_assoc gloss) in E.
  assert (N : allChars notWhiteSpace (gloss ++ ending) = true).
  { rewrite allChars_app, Hgws. destruct He as [-> | ->]; reflexivity. }
  destruct (in_word _ _ _ _ E Hpost N) as (e & -> & ->).
  apply (gloss_excluded t t1 gloss ending e t_norepair); auto.
  - rewrite Et. now rewrite !append_assoc.
  - now rewrite <- Hprev.
  - exact (wordAfter_rest _ _ Hafter Hpost).
Qed.

Lemma verb_after prev c post s' caps m :
  JS.isWhiteSpace c = true ->
  Regex.matchHere Translate.reVerb prev (String c post) = Some (s', caps) ->
  String c post = m ++ s' ->
  Translate.verbCallback m caps <> "" /\
  headIs JS.isWhiteSpace (Translate.verbCallback m caps) = true.
Proof.
  intros Wc H _. exfalso.
  destruct (reVerb_shape _ _ _ _ H) as (gloss & ending & E & Hg & _).
  destruct (verbGlosses_facts gloss Hg) as (Hne & Hfirst & _).
  destruct gloss as [|x gloss]; [contradiction|].
  cbn [append] in E. injection E as <- _. cbn [Regex.wordAfter] in Hfirst.
  rewrite (ws_not_word c Wc) in Hfirst. discriminate.
Qed.

Lemma verb_keeps (s : string) :
  standsAsWord t s ->
  standsAsWord t (Regex.replaceAll Translate.reVerb Translate.verbCallback s).
Proof.
  apply replaceAll_keeps.
  - exact verb_reads.
  - exact verb_before.
  - exact verb_inside.
  - exact verb_after.
Qed.

(** The token does not start with an article that ends there. *)
Lemma starts_no_article (article e post s' : string) :
  article = "a" \/ article = "an" ->
  t = article ++ e -> s' = e ++ post ->
  Regex.wordAfter s' = false -> headIs JS.isWhiteSpace post = true -> False.
Proof.
  intros Ha Et -> Hafter Hpost.
  apply (starts_no_repairWord article e Et).
  - unfold repairWords. destruct Ha as [-> | ->]; simpl; tauto.
  - destruct Ha as [-> | ->]; discriminate.
  - destruct Ha as [-> | ->]; reflexivity.
  - exact (wordAfter_rest _ _ Hafter Hpost).
Qed.

Lemma article_notWhiteSpace (article : string) :
  article = "a" \/ article = "an" -> allChars notWhiteSpace article = true.
Proof. intros [-> | ->]; reflexivity. Qed.

Lemma theAn_reads prev s s' caps :
  Regex.matchHere Translate.reTheAn prev s = Some (s', caps) ->
  exists m, m <> "" /\ s = m ++ s'.
Proof.
  intros H. destruct (reTheAn_shape _ _ _ _ H) as (article & Ha & E & _).
  exists (" the " ++ article). split; [discriminate|].
  rewrite E. now rewrite !append_assoc.
Qed.

Lemma theAn_before prev p2 post s' caps m :
  p2 <> "" -> lastIs JS.isWhiteSpace p2 = true -> headIs JS.isWhiteSpace post = true ->
  Regex.matchHere Translate.reTheAn prev (p2 ++ t ++ post) = Some (s', caps) ->
  p2 ++ t ++ post = m ++ s' ->
  (exists p2', p2 = m ++ p2' /\ p2' <> "") \/
  (exists y y', m = p2 ++ t ++ y /\ " the " = p2 ++ t ++ y' /\
                y' <> "" /\ headIs JS.isWhiteSpace y' = true).
Proof.
  intros Hp2 Hlast Hpost H Em.
  destruct (reTheAn_shape _ _ _ _ H) as (article & Ha & E & Hafter).
  pose proof (article_notWhiteSpace article Ha) as Hws.
  assert (m = " the " ++ article) as ->.
  { apply (append_cancel_r _ _ s'). rewrite <- Em, E. now rewrite !append_assoc. }
  clear Em H.
  destruct (lastIs_snoc _ _ Hp2 Hlast) as (x & c & -> & Wc).
  rewrite append_assoc in E. cbn [append] in E.
  destruct x as [|c0 x]; cbn [append] in E; injection E as -> E.
  - right. change (t ++ post = "the" ++ String " " (article ++ s')) in E.
    destruct (is_word _ _ _ _ E t_nows Hpost eq_refl ltac:(discriminate) eq_refl) as [Et Ep].
    exists (" " ++ article), " ". rewrite Et.
    split; [reflexivity|]. split; [reflexivity|]. split; [discriminate | reflexivity].
  - change (x ++ String c (t ++ post) = "the" ++ String " " (article ++ s')) in E.
    destruct (before_space _ _ _ _ _ E Wc eq_refl) as (e1 & -> & E1).
    destruct e1 as [|c1 e1]; cbn [append] in E1; injection E1 as <- E1.
    + exfalso. symmetry in E1.
      destruct (in_word _ _ _ _ E1 Hpost Hws) as (e & Et & Es).
      exact (starts_no_article article e post s' Ha Et Es Hafter Hpost).
    + left. symmetry in E1.
      destruct (before_space _ _ _ _ _ E1 Wc Hws) as (e2 & -> & E2).
      exists (e2 ++ String c ""). split; [now norm_app|].
      destruct e2; discriminate.
Qed.

Lemma theAn_inside prev t1 t2 post s' caps m :
  t = t1 ++ t2 -> t2 <> "" ->
  Regex.wordBefore prev = Regex.wordBefore (lastOr None t1) ->
  headIs JS.isWhiteSpace post = true ->
  Regex.matchHere Translate.reTheAn prev (t2 ++ post) = Some (s', caps) ->
  t2 ++ post = m ++ s' ->
  exists y y', m = t2 ++ y /\ " the " = t2 ++ y' /\
               y' <> "" /\ headIs JS.isWhiteSpace y' = true.
Proof.
  intros Et Hne _ _ H _. exfalso.
  destruct (reTheAn_shape _ _ _ _ H) as (article & _ & E & _).
  destruct t2 as [|c t2]; [contradiction|].
  cbn [append] in E. injection E as -> _.
  pose proof t_nows as N. rewrite Et, allChars_app in N.
  apply andb_true_iff in N. destruct N as [_ N]. discriminate N.
Qed.

Lemma theAn_keeps (s : string) :
  standsAsWord t s ->
  standsAsWord t (Regex.replaceAll Translate.reTheAn (fun _ _ => " the ") s).
Proof.
  apply replaceAll_keeps.
  - exact theAn_reads.
  - exact theAn_before.
  - exact theAn_inside.
  - intros. split; [discriminate | reflexivity].
Qed.

Lemma anAn_reads prev s s' caps :
  Regex.matchHere Translate.reAnAn prev s = Some (s', caps) ->
  exists m, m <> "" /\ s = m ++ s'.
Proof.
  intros H. destruct (reAnAn_shape _ _ _ _ H) as (a1 & a2 & _ & _ & E & _).
  exists (" " ++ a1 ++ " " ++ a2). split; [discriminate|].
  rewrite E. now norm_app.
Qed.

Lemma anAn_before prev p2 post s' caps m :
  p2 <> "" -> lastIs JS.isWhiteSpace p2 = true -> headIs JS.isWhiteSpace post = true ->
  Regex.matchHere Translate.reAnAn prev (p2 ++ t ++ post) = Some (s', caps) ->
  p2 ++ t ++ post = m ++ s' ->
  (exists p2', p2 = m ++ p2' /\ p2' <> "") \/
  (exists y y', m = p2 ++ t ++ y /\ " " ++ Translate.group caps 1 = p2 ++ t ++ y' /\
                y' <> "" /\ headIs JS.isWhiteSpace y' = true).
Proof.
  intros Hp2 Hlast Hpost H Em. left.
  destruct (reAnAn_shape _ _ _ _ H) as (a1 & a2 & H1 & H2 & E & Hafter).
  pose proof (article_notWhiteSpace a1 H1) as W1.
  pose proof (article_notWhiteSpace a2 H2) as W2.
  assert (m = " " ++ a1 ++ " " ++ a2) as ->.
  { apply (append_cancel_r _ _ s'). rewrite <- Em, E. now norm_app. }
  clear Em H.
  destruct (lastIs_snoc _ _ Hp2 Hlast) as (x & c & -> & Wc).
  rewrite append_assoc in E. cbn [append] in E.
  destruct x as [|c0 x]; cbn [append] in E; injection E as -> E.
  - exfalso.
    assert (E' : t ++ post = a1 ++ String " " (a2 ++ s')) by exact E.
    destruct (is_word _ _ _ _ E' t_nows Hpost W1 ltac:(discriminate) eq_refl) as [Et _].
    apply (starts_no_article a1 "" "" "" H1); auto. now rewrite append_empty_r.
  - assert (E' : x ++ String c (t ++ post) = a1 ++ String " " (a2 ++ s')) by exact E.
    destruct (before_space _ _ _ _ _ E' Wc W1) as (e1 & -> & E1).
    destruct e1 as [|c1 e1]; cbn [append] in E1; injection E1 as <- E1.
    + exfalso. symmetry in E1.
      destruct (in_word _ _ _ _ E1 Hpost W2) as (e & Et & Es).
      exact (starts_no_article a2 e post s' H2 Et Es Hafter Hpost).
    + symmetry in E1.
      destruct (before_space _ _ _ _ _ E1 Wc W2) as (e2 & -> & E2).
      exists (e2 ++ String c ""). split; [now norm_app|].
      destruct e2; discriminate.
Qed.

Lemma anAn_inside prev t1 t2 post s' caps m :
  t = t1 ++ t2 -> t2 <> "" ->
  Regex.wordBefore prev = Regex.wordBefore (lastOr None t1) ->
  headIs JS.isWhiteSpace post = true ->
  Regex.matchHere Translate.reAnAn prev (t2 ++ post) = Some (s', caps) ->
  t2 ++ post = m ++ s' ->
  exists y y', m = t2 ++ y /\ " " ++ Translate.group caps 1 = t2 ++ y' /\
               y' <> "" /\ headIs JS.isWhiteSpace y' = true.
Proof.
  intros Et Hne _ _ H _. exfalso.
  destruct (reAnAn_shape _ _ _ _ H) as (a1 & a2 & _ & _ & E & _).
  destruct t2 as [|c t2]; [contradiction|].
  cbn [append] in E. injection E as -> _.
  pose proof t_nows as N. rewrite Et, allChars_app in N.
  apply andb_true_iff in N. destruct N as [_ N]. discriminate N.
Qed.

Lemma anAn_keeps (s : string) :
  standsAsWord t s ->
  standsAsWord t (Regex.replaceAll Translate.reAnAn
                    (fun _ caps => " " ++ Translate.group caps 1) s).
Proof.
  apply replaceAll_keeps.
  - exact anAn_reads.
  - exact anAn_before.
  - exact anAn_inside.
  - intros. split; [discriminate | reflexivity].
Qed.

Hypothesis t_nonempty : t <> "".

Lemma suffix_lastIs (a e : string) :
  lastIs JS.isWhiteSpace (a ++ e) = true -> e = "" \/ lastIs JS.isWhiteSpace e = true.
Proof.
  intros H. destruct e as [|c e]; [now left | right].
  rewrite lastIs_app in H; [exact H | discriminate].
Qed.

Lemma spaced_before (one two : string) prev p2 post s' caps :
  one = "a" \/ one = "an" -> two = "a" \/ two = "an" ->
  p2 <> "" -> lastIs JS.isWhiteSpace p2 = true -> headIs JS.isWhiteSpace post = true ->
  Regex.matchHere
    (Regex.Seq Translate.spaces
       (Regex.Seq (Regex.Lit one)
          (Regex.Seq Translate.spaces (Regex.Seq (Regex.Lit two) Translate.spaces))))
    prev (p2 ++ t ++ post) = Some (s', caps) ->
  exists p2', s' = p2' ++ t ++ post /\ (p2' = "" \/ lastIs JS.isWhiteSpace p2' = true).
Proof.
  intros H1 H2 Hp2 Hlast Hpost H.
  destruct (spaced_shape _ _ _ _ _ _ H) as (w1 & w2 & w3 & E & N1 & W1 & N2 & W2 & N3 & W3).
  pose proof (article_notWhiteSpace one H1) as O1.
  pose proof (article_notWhiteSpace two H2) as O2.
  assert (headWs : forall w s, w <> "" -> allChars JS.isWhiteSpace w = true ->
                               w ++ s <> "" /\ headIs JS.isWhiteSpace (w ++ s) = true).
  { intros w s Hw Hall. destruct w as [|c w]; [contradiction|]. split; [discriminate|].
    simpl in *. apply andb_true_iff in Hall. tauto. }
  destruct (before_word _ _ _ _ _ E t_nonempty t_nows W1) as (e1 & -> & E1).
  destruct (suffix_lastIs _ _ Hlast) as [-> | L1].
  { exfalso. cbn [append] in E1. symmetry in E1.
    destruct (headWs w2 (two ++ w3 ++ s') N2 W2) as [Hb Hhb].
    destruct (is_word _ _ _ _ E1 t_nows Hpost O1 Hb Hhb) as [Et _].
    apply (starts_no_article one "" "" "" H1); auto. now rewrite append_empty_r. }
  assert (Ne1 : e1 <> "").
  { intros ->. cbn [append] in E1. symmetry in E1.
    destruct (headWs w2 (two ++ w3 ++ s') N2 W2) as [Hb Hhb].
    destruct (is_word _ _ _ _ E1 t_nows Hpost O1 Hb Hhb) as [Et _].
    apply (starts_no_article one "" "" "" H1); auto. now rewrite append_empty_r. }
  destruct (lastIs_snoc _ _ Ne1 L1) as (x1 & c & -> & Wc).
  symmetry in E1. rewrite append_assoc in E1. cbn [append] in E1.
  destruct (before_space _ _ _ _ _ E1 Wc O1) as (e2 & -> & E2).
  assert (E2' : (e2 ++ String c "") ++ t ++ post = w2 ++ two ++ w3 ++ s')
    by (rewrite append_assoc; cbn [append]; now symmetry).
  destruct (before_word _ _ _ _ _ E2' t_nonempty t_nows W2) as (e3 & E3 & E4).
  assert (L3 : e3 = "" \/ lastIs JS.isWhiteSpace e3 = true).
  { apply (suffix_lastIs w2). rewrite <- E3. rewrite lastIs_app; [exact Wc | discriminate]. }
  assert (Ne3 : e3 <> "").
  { intros ->. cbn [append] in E4. symmetry in E4.
    destruct (headWs w3 s' N3 W3) as [Hb Hhb].
    destruct (is_word _ _ _ _ E4 t_nows Hpost O2 Hb Hhb) as [Et _].
    apply (starts_no_article two "" "" "" H2); auto. now rewrite append_empty_r. }
  destruct L3 as [? | L3]; [contradiction|].
  destruct (lastIs_snoc _ _ Ne3 L3) as (x3 & c' & -> & Wc').
  symmetry in E4. rewrite append_assoc in E4. cbn [append] in E4.
  destruct (before_space _ _ _ _ _ E4 Wc' O2) as (e4 & -> & E5).
  assert (E5' : (e4 ++ String c' "") ++ t ++ post = w3 ++ s')
    by (rewrite append_assoc; cbn [append]; now symmetry).
  destruct (before_word _ _ _ _ _ E5' t_nonempty t_nows W3) as (e5 & E6 & E7).
  exists e5. split; [exact E7|].
  apply (suffix_lastIs w3). rewrite <- E6. rewrite lastIs_app; [exact Wc' | discriminate].
Qed.

Lemma spaced_inside (one two : string) prev t1 t2 post :
  t = t1 ++ t2 -> t2 <> "" ->
  Regex.matchHere
    (Regex.Seq Translate.spaces
       (Regex.Seq (Regex.Lit one)
          (Regex.Seq Translate.spaces (Regex.Seq (Regex.Lit two) Translate.spaces))))
    prev (t2 ++ post) = None.
Proof.
  intros Et Hne.
  match goal with |- ?m = None => destruct m as [[s' caps]|] eqn:H; [exfalso | reflexivity] end.
  destruct (spaced_shape _ _ _ _ _ _ H) as (w1 & w2 & w3 & E & N1 & W1 & _).
  destruct t2 as [|c t2]; [contradiction|]. destruct w1 as [|x w1]; [contradiction|].
  cbn [append] in E. injection E as -> _.
  pose proof t_nows as N. rewrite Et, allChars_app in N.
  apply andb_true_iff in N. destruct N as [_ N]. cbn [allChars] in N, W1.
  apply andb_true_iff in N. apply andb_true_iff in W1.
  exact (notWhiteSpace_false x (proj1 N) (proj1 W1)).
Qed.

(** The "final pass" keeps the token, between white space. *)
Lemma phraseRepair_keeps (s : string) :
  standsAsWord t s -> standsAsWord t (Translate.phraseRepair s).
Proof.
  intros H. unfold Translate.phraseRepair. cbv zeta.
  apply (replaceFirst_keeps Translate.reAnA " an " t).
  - repeat split. discriminate.
  - intros prev p2 post s' caps. apply spaced_before; auto.
  - intros prev t1 t2 post. apply spaced_inside.
  - apply (replaceFirst_keeps Translate.reAAn " a " t).
    + repeat split. discriminate.
    + intros prev p2 post s' caps. apply spaced_before; auto.
    + intros prev t1 t2 post. apply spaced_inside.
    + now apply anAn_keeps, theAn_keeps, verb_keeps, toVerb_keeps.
Qed.

End Repair.

Lemma join_stands (l : list (option string)) (i : nat) (x : string) :
  nth_error l i = Some (Some x) -> standsAsWord x (JS.join " " l).
Proof.
  revert i. induction l as [|a l IH]; intros [|i] H; simpl in H; try discriminate.
  - injection H as ->. destruct l as [|b l].
    + exists "", "". simpl. now rewrite append_empty_r.
    + exists "", (" " ++ JS.join " " (b :: l)). now split.
  - destruct l as [|b l]; [destruct i; discriminate|].
    destruct (IH i H) as (before & after & E & Hb & Ha).
    change (JS.join " " (a :: b :: l))
      with ((match a with Some s => s | None => "" end) ++ " " ++ JS.join " " (b :: l)).
    rewrite E.
    exists ((match a with Some s => s | None => "" end) ++ " " ++ before), after.
    split; [now rewrite !append_assoc|]. split; [|exact Ha].
    destruct before as [|c before].
    + rewrite lastIs_app; [reflexivity | discriminate].
    + rewrite lastIs_app; [|discriminate]. rewrite lastIs_app; [exact Hb | discriminate].
Qed.

Lemma stands_includes (token out : string) :
  standsAsWord token out -> JS.includes out token = true.
Proof.
  intros (before & after & -> & _). apply includes_app_r, includes_self_app.
Qed.

(** The loop of lines 387-445 pushes such a word as it is. *)
Lemma translatedWords_unknown (v : Vocabulary) (sentence : string) (i : nat) (token : string) :
  nth_error (Translate.wordsOf sentence) i = Some token ->
  JS.get (allForms v) token = None ->
  Translate.scanVocabulary v token = None ->
  nth_error (Translate.translatedWords (allForms v) v sentence) i = Some (Some token).
Proof.
  intros Hi Hget Hscan. unfold Translate.translatedWords.
  rewrite nth_error_map, Hi. simpl. unfold Translate.translateWord.
  now rewrite Hget, Hscan.
Qed.

Lemma find_none {A} (p : A -> bool) (l : list A) :
  (forall x, In x l -> p x = false) -> find p l = None.
Proof.
  induction l as [|a l IH]; intros H; simpl; [reflexivity|].
  rewrite (H a (or_introl eq_refl)). apply IH. intros x Hx. apply H. now right.
Qed.

(** C6, as it is stated, fails.  None of the words below is a key of
    the index, and neither suffix stripping nor the scan of the
    vocabulary resolves them, yet the translation does not hold them:
    - "be" comes back as "is": the expression of line 468 rewrites the
      word, which is one of its glosses;
    - [koebe] comes back with its last two letters rewritten to "is":
      the letter before them is no character of the class [\w], so
      that a word boundary lies inside the word;
    - "to" is deleted from "jeg to eat", which becomes "jeg is eating"
      (lines 452-463, then 468);
    - "an" is deleted from "hus the an", which becomes "house the "
      (line 475);
    - "er" is a word of the sentence "Huset er stort.", which is the
      example of an entry: what is returned is the stored translation,
      "The house is big." (lines 377-381). *)
Lemma unknown_token_not_kept :
  ~ unknownTokenClaim husVocabulary "be" "be" /\
  ~ unknownTokenClaim husVocabulary koebe koebe /\
  ~ unknownTokenClaim husVocabulary "jeg to eat" "to" /\
  ~ unknownTokenClaim husVocabulary "hus the an" "an" /\
  ~ unknownTokenClaim exampleVocabulary "Huset er stort." "er".
Proof.
  repeat split; intros H;
    destruct H as (out & Hout & Hinc);
    try reflexivity; try (vm_compute; tauto);
    vm_compute in Hout; injection Hout as <-; vm_compute in Hinc; discriminate Hinc.
Qed.

(** Why every listed gloss is a repair word: "eat" comes back inside
    "eating", and the modal "can" after "jeg to" with an [s]; the word
    is in the output, but not as a word of its own. *)
Lemma glosses_come_back_changed :
  translation husVocabulary "eat" = Some "is eating" /\
  translation husVocabulary "jeg to can" = Some "jeg cans".
Proof. split; reflexivity. Qed.

(** C6, amended.  A word of the sentence that is no key of the index
    and that the scan of the vocabulary does not match comes back in
    the translation as it is, as a word of its own (between white space
    or the ends of the string), when no record of the index has the
    sentence as its example and the word names no word of the phrase
    repair ([namesNoRepairWord]): no maximal run of characters of the
    class [\w] in it is "to", "a", "an" or a listed gloss, with or
    without a final [s], and it does not hold "think/find". *)
Theorem unknown_token_kept (v : Vocabulary) (sentence token : string) :
  In token (Translate.wordsOf sentence) ->
  JS.get (allForms v) token = None ->
  Translate.scanVocabulary v token = None ->
  (forall wordData ex,
     In wordData (JS.values (allForms v)) ->
     example (data wordData) = Some ex -> ex <> "" ->
     JS.toLowerCase ex <> JS.toLowerCase sentence) ->
  namesNoRepairWord token = true ->
  exists out,
    translation v sentence = Some out /\
    standsAsWord token out /\ JS.includes out token = true.
Proof.
  intros Hin Hget Hscan Hex Hrep.
  destruct (wordsOf_chars _ _ Hin) as (Hne & Hws & _).
  destruct (In_nth_error _ _ Hin) as (i & Hi).
  pose proof (translatedWords_unknown v sentence i token Hi Hget Hscan) as N.
  assert (Hfind : find (Translate.isExampleOf sentence) (JS.values (allForms v)) = None).
  { apply find_none. intros wordData Hw.
    destruct (Translate.isExampleOf sentence wordData) eqn:E; [|reflexivity].
    apply isExampleOf_spec in E. destruct E as (ex & E1 & E2 & E3).
    exfalso. exact (Hex wordData ex Hw E1 E2 E3). }
  exists (Translate.phraseRepair
            (JS.join " " (Translate.translatedWords (allForms v) v sentence))).
  assert (S : standsAsWord token
                (Translate.phraseRepair
                   (JS.join " " (Translate.translatedWords (allForms v) v sentence)))).
  { apply phraseRepair_keeps; auto. now apply (join_stands _ i). }
  split; [|split; [exact S | now apply stands_includes]].
  unfold translation.
  destruct (translateSentenceWords_coherent _ sentence (new_coherent v)) as (E & _ & _).
  rewrite E. simpl. unfold translationOn. now rewrite Hfind.
Qed.

Lemma unknown_token_kept_witness :
  (In "xyz" (Translate.wordsOf "Hus spiser xyz!") /\
   JS.get (allForms husVocabulary) "xyz" = None /\
   Translate.scanVocabulary husVocabulary "xyz" = None /\
   namesNoRepairWord "xyz" = true) /\
  exists out,
    translation husVocabulary "Hus spiser xyz!" = Some out /\
    standsAsWord "xyz" out /\ JS.includes out "xyz" = true.
Proof.
  split; [repeat split; vm_compute; tauto|].
  apply (unknown_token_kept husVocabulary "Hus spiser xyz!" "xyz").
  - vm_compute; tauto.
  - reflexivity.
  - reflexivity.
  - intros wordData ex Hw E. exfalso.
    repeat (destruct Hw as [<-|Hw]; [discriminate E|]). contradiction.
  - reflexivity.
Defined.

(* ------------------------------------------------------------------ *)
(** ** The caches and the root sets *)

(** X15.  In any state of the object, each of the four cached methods
    returns at a second call what it returned at the first and changes
    the object no more; and [getWordData] is a lookup in what
    [getAllWords] returns. *)
Theorem cached_methods_are_idempotent (vm : VocabularyManager.t) :
  VocabularyManager.getAllWords (snd (VocabularyManager.getAllWords vm))
    = (fst (VocabularyManager.getAllWords vm), snd (VocabularyManager.getAllWords vm)) /\
  VocabularyManager.getAllVerbs (snd (VocabularyManager.getAllVerbs vm))
    = (fst (VocabularyManager.getAllVerbs vm), snd (VocabularyManager.getAllVerbs vm)) /\
  VocabularyManager.getAllNouns (snd (VocabularyManager.getAllNouns vm))
    = (fst (VocabularyManager.getAllNouns vm), snd (VocabularyManager.getAllNouns vm)) /\
  VocabularyManager.getAllAdjectives (snd (VocabularyManager.getAllAdjectives vm))
    = (fst (VocabularyManager.getAllAdjectives vm),
       snd (VocabularyManager.getAllAdjectives vm)) /\
  (forall w, VocabularyManager.getWordData w vm
             = (JS.get (fst (VocabularyManager.getAllWords vm)) w,
                snd (VocabularyManager.getAllWords vm))).
Proof.
  destruct vm as [v [c1|] [c2|] [c3|] [c4|]]; repeat split.
Qed.

Lemma get_in {V} (m : JS.Map V) (k : string) (x : V) :
  JS.get m k = Some x -> In (k, x) m.
Proof.
  induction m as [|[k' x'] m IH]; simpl; [discriminate|].
  destruct (String.eqb k' k) eqn:E.
  - apply String.eqb_eq in E. intros [= ->]. left. now subst.
  - intros H. right. now apply IH.
Qed.

(** X16.  Every element of the sets of [getAllVerbs], [getAllNouns]
    and [getAllAdjectives] is a word that the vocabulary lists under
    that category at some level, and is a key of the index. *)
Theorem root_sets_hold_listed_words (v : Vocabulary) (cat w : string) :
  In w (VocabularyManager.rootsOf cat v) ->
  (exists lvl e, In (lvl, cat, w, e) (entriesOf v)) /\
  JS.has (allForms v) w = true.
Proof.
  intros H. unfold VocabularyManager.rootsOf in H.
  apply in_flat_map in H. destruct H as (l & Hl & H).
  destruct (JS.get (snd l) cat) as [words|] eqn:G; [|contradiction].
  apply in_map_iff in H. destruct H as ([w' e] & <- & Hw).
  assert (Hin : In (fst l, cat, w', e) (entriesOf v))
    by exact (in_entriesOf v l (cat, words) (w', e) Hl (get_in _ _ _ G) Hw).
  split; [exists (fst l), e; exact Hin|].
  apply form_has. left. exists (fst l), cat, e. exact Hin.
Qed.

Lemma root_sets_hold_listed_words_witness :
  In "spise" (VocabularyManager.rootsOf "verbs" husVocabulary) /\
  JS.has (allForms husVocabulary) "spise" = true.
Proof.
  split; [left; reflexivity|].
  exact (proj2 (root_sets_hold_listed_words husVocabulary "verbs" "spise"
                  (or_introl eq_refl))).
Defined.

(* ------------------------------------------------------------------ *)
(** ** The shuffle *)

Section Shuffle.
Import UIManager.

Lemma at_nth_error (l : StringArray) (i : nat) :
  i < length l -> nth_error l i = Some (at_ l i).
Proof.
  intros H. unfold at_. destruct (nth_error l i) eqn:E; [reflexivity|].
  apply nth_error_None in E. lia.
Qed.

Lemma length_assign (l : StringArray) (i : nat) (x : option string) :
  i < length l -> length (assign l i x) = length l.
Proof.
  revert l. induction i as [|i IH]; intros [|a l] H; simpl in *; try lia.
  rewrite IH; lia.
Qed.

Lemma nth_error_assign_same (l : StringArray) (i : nat) (x : option string) :
  i < length l -> nth_error (assign l i x) i = Some x.
Proof.
  revert l. induction i as [|i IH]; intros [|a l] H; simpl in *; try lia.
  - reflexivity.
  - apply IH. lia.
Qed.

Lemma nth_error_assign_other (l : StringArray) (i j : nat) (x : option string) :
  i < length l -> i <> j -> nth_error (assign l i x) j = nth_error l j.
Proof.
  revert l j. induction i as [|i IH]; intros [|a l] [|j] H Hne; simpl in *; try lia;
    try reflexivity.
  apply IH; lia.
Qed.

(** An assignment within the array takes one occurrence of the old
    element away and brings one of the new element. *)
Lemma count_assign (l : StringArray) (i : nat) (old x y : option string) :
  nth_error l i = Some old ->
  count_occ element_dec (assign l i x) y + (if element_dec old y then 1 else 0)
  = count_occ element_dec l y + (if element_dec x y then 1 else 0).
Proof.
  revert l. induction i as [|i IH]; intros [|a l] H; simpl in H; try discriminate.
  - injection H as ->. simpl.
    destruct (element_dec x y), (element_dec old y); lia.
  - simpl. specialize (IH l H). destruct (element_dec a y); lia.
Qed.

(** The exchange of line 261 within the array. *)
Lemma exchange_permutation (l : StringArray) (i j : nat) :
  i < length l -> j < length l ->
  Permutation (assign (assign l i (at_ l j)) j (at_ l i)) l /\
  length (assign (assign l i (at_ l j)) j (at_ l i)) = length l.
Proof.
  intros Hi Hj.
  assert (L1 : length (assign l i (at_ l j)) = length l) by now apply length_assign.
  split.
  - apply (Permutation_count_occ element_dec). intros y.
    assert (O1 : nth_error (assign l i (at_ l j)) j = Some (at_ l j)).
    { destruct (Nat.eq_dec i j) as [->|Hne].
      - now apply nth_error_assign_same.
      - rewrite nth_error_assign_other by assumption. now apply at_nth_error. }
    pose proof (count_assign _ j _ (at_ l i) y O1) as C2.
    pose proof (count_assign l i _ (at_ l j) y (at_nth_error l i Hi)) as C1.
    lia.
  - rewrite length_assign; [exact L1 | lia].
Qed.

Lemma shuffleFrom_permutation (draw : Random) (i n : nat) (l : StringArray) :
  i < length l -> drawsInRange draw n i ->
  Permutation (fst (shuffleFrom draw n i l)) l /\
  snd (shuffleFrom draw n i l) = n + i.
Proof.
  revert n l. induction i as [|i IH]; intros n l Hi Hd.
  - simpl. split; [apply Permutation_refl | lia].
  - change (shuffleFrom draw n (S i) l)
      with (shuffleFrom draw (S n) i
              (assign (assign l (S i) (at_ l (draw n))) (draw n) (at_ l (S i)))).
    assert (Hj : draw n <= S i).
    { specialize (Hd 0). rewrite Nat.add_0_r, Nat.sub_0_r in Hd. apply Hd. lia. }
    destruct (exchange_permutation l (S i) (draw n)) as [P L]; [lia | lia |].
    destruct (IH (S n) (assign (assign l (S i) (at_ l (draw n))) (draw n) (at_ l (S i))))
      as [P' N'].
    + lia.
    + intros k Hk. specialize (Hd (S k)).
      replace (S n + k) with (n + S k) by lia.
      replace (i - k) with (S i - S k) by lia. apply Hd. lia.
    + split; [eapply perm_trans; eassumption | rewrite N'; lia].
Qed.

Lemma shuffleArray_permutation (draw : Random) (n : nat) (array : StringArray) :
  drawsInRange draw n (length array - 1) ->
  Permutation (fst (shuffleArray draw n array)) array /\
  length (fst (shuffleArray draw n array)) = length array /\
  snd (shuffleArray draw n array) = n + (length array - 1).
Proof.
  intros H. unfold shuffleArray. destruct array as [|a array].
  - simpl. repeat split; [constructor | lia].
  - destruct (shuffleFrom_permutation draw (length (a :: array) - 1) n (a :: array))
      as [P N]; [simpl; lia | exact H |].
    split; [exact P|]. split; [|exact N].
    now apply Permutation_length.
Qed.


(** X17.  When every draw falls within the part of the array still to
    be shuffled, [shuffleArray] returns the elements of its argument in
    some order: none is lost, none is added, none is repeated; and it
    draws once for each element but one. *)
Theorem shuffle_is_a_permutation (draw : Random) (n : nat) (array : StringArray) :
  drawsInRange draw n (length array - 1) ->
  Permutation (fst (shuffleArray draw n array)) array /\
  length (fst (shuffleArray draw n array)) = length array /\
  snd (shuffleArray draw n array) = n + (length array - 1).
Proof.
  intros H. unfold shuffleArray. destruct array as [|a array].
  - simpl. repeat split; [constructor | lia].
  - destruct (shuffleFrom_permutation draw (length (a :: array) - 1) n (a :: array))
      as [P N]; [simpl; lia | exact H |].
    split; [exact P|]. split; [|exact N].
    now apply Permutation_length.
Qed.

Lemma shuffle_is_a_permutation_witness :
  drawsInRange (fun _ => 0) 0 (length [Some "hus"; Some "pige"; Some "spiser"] - 1) /\
  Permutation
    (fst (shuffleArray (fun _ => 0) 0 [Some "hus"; Some "pige"; Some "spiser"]))
    [Some "hus"; Some "pige"; Some "spiser"].
Proof.
  assert (H : drawsInRange (fun _ => 0) 0
                (length [Some "hus"; Some "pige"; Some "spiser"] - 1))
    by (intros k _; lia).
  split; [exact H|].
  exact (proj1 (shuffle_is_a_permutation (fun _ => 0) 0
                  [Some "hus"; Some "pige"; Some "spiser"] H)).
Defined.

End Shuffle.

(* ------------------------------------------------------------------ *)
(** ** The word bank and the suggestion *)

Lemma conj_in (conjs : list (string * string)) (tense form : string) :
  conj conjs tense = Some form -> In (tense, form) conjs.
Proof. apply get_in. Qed.

(** A word that [populateWordBank] collects is a word of the level or
    the non-empty present form of one of its verbs. *)
Lemma bankWords_source (levelVocab : list (string * list (string * Entry))) (w : string) :
  In w (UIManager.bankWords levelVocab) ->
  exists cat words k e,
    In (cat, words) levelVocab /\ In (k, e) words /\
    (w = k \/
     (cat = "verbs" /\ exists conjs,
        conjugations e = Some conjs /\ In ("present", w) conjs /\ w <> "")).
Proof.
  unfold UIManager.bankWords. intros H. apply in_flat_map in H.
  destruct H as ([cat words] & Hc & H). simpl in H.
  destruct (String.eqb cat "verbs") eqn:V.
  - apply String.eqb_eq in V. apply in_map_iff in H. destruct H as ([k e] & <- & Hw).
    exists cat, words, k, e. split; [exact Hc|]. split; [exact Hw|].
    unfold UIManager.bankWord. simpl.
    destruct (conjugations e) as [conjs|] eqn:C; [|now left].
    destruct (conj conjs "present") as [present|] eqn:P; [|now left].
    destruct (String.eqb present "") eqn:T; simpl; [now left|].
    right. split; [exact V|]. exists conjs. split; [reflexivity|].
    split; [now apply conj_in|]. now apply String.eqb_neq.
  - apply in_map_iff in H. destruct H as ([k e] & <- & Hw).
    exists cat, words, k, e. auto.
Qed.

(** X18.  When the draws of the shuffle are in range, the word bank
    shows fifteen of the words collected for the level, or all of them
    when they are fewer: the buttons are the first elements of a
    reordering of these words, so no word is shown more often than it
    was collected; and each word shown is a word of that level or the
    present form of one of its verbs, hence a key of the index. *)
Theorem word_bank_shows_words_of_the_level
  (draw : UIManager.Random) (n : nat) (v : Vocabulary) (lvl : string) :
  let words := UIManager.bankWords (levelOf v lvl) in
  let buttons := fst (UIManager.populateWordBank draw n (levelOf v lvl)) in
  drawsInRange draw n (length words - 1) ->
  length buttons = Nat.min 15 (length words) /\
  (exists rest, Permutation (buttons ++ rest) (map Some words)) /\
  (forall b, In b buttons ->
     exists w, b = Some w /\ In w words /\ JS.has (allForms v) w = true).
Proof.
  intros words buttons H.
  assert (K : forall w, In w words -> JS.has (allForms v) w = true).
  { intros w Hw. unfold words, levelOf, VocabularyManager.getWordsForLevel in Hw.
    simpl in Hw. destruct (JS.get v lvl) as [cats|] eqn:G; [|contradiction].
    apply get_in in G.
    destruct (bankWords_source cats w Hw) as (cat & ws & k & e & Hc & Hk & Hform).
    pose proof (in_entriesOf v (lvl, cats) (cat, ws) (k, e) G Hc Hk) as Hin.
    simpl in Hin. apply form_has.
    destruct Hform as [->|(-> & conjs & C & P & _)].
    - left. exists lvl, cat, e. exact Hin.
    - right; left. exists lvl, k, e, conjs, "present". auto. }
  unfold buttons, UIManager.populateWordBank. fold words.
  assert (L : length (map Some words) - 1 = length words - 1) by now rewrite length_map.
  rewrite <- L in H.
  destruct (shuffleArray_permutation draw n (map Some words) H) as (P & Len & _).
  destruct (UIManager.shuffleArray draw n (map Some words)) as [shuffled n'].
  cbn [fst] in *. rewrite length_map in Len.
  split; [now rewrite length_firstn, Len|]. split.
  - exists (skipn 15 shuffled). now rewrite firstn_skipn.
  - intros b Hb. assert (Hs : In b shuffled).
    { rewrite <- (firstn_skipn 15 shuffled). apply in_or_app. now left. }
    apply (Permutation_in _ P) in Hs. apply in_map_iff in Hs.
    destruct Hs as (w & <- & Hw). exists w. auto.
Qed.

Lemma word_bank_shows_words_of_the_level_witness :
  drawsInRange (fun _ => 0) 0
    (length (UIManager.bankWords (levelOf husVocabulary "A1")) - 1) /\
  length (fst (UIManager.populateWordBank (fun _ => 0) 0 (levelOf husVocabulary "A1")))
  = Nat.min 15 (length (UIManager.bankWords (levelOf husVocabulary "A1"))).
Proof.
  assert (H : drawsInRange (fun _ => 0) 0
                (length (UIManager.bankWords (levelOf husVocabulary "A1")) - 1))
    by (intros k _; lia).
  split; [exact H|].
  exact (proj1 (word_bank_shows_words_of_the_level (fun _ => 0) 0 husVocabulary "A1" H)).
Defined.





(* ------------------------------------------------------------------ *)
(** ** More on the translation *)

(** X20.  A word of the sentence whose record in the index is a derived
    one (a conjugated form, an 'et' form) is translated by the English
    gloss of the entry it derives from: the word pushed is the [en] of
    an entry of its root, or [undefined] when that gloss is missing or
    empty. *)
Theorem inflected_form_gets_the_gloss_of_its_root
  (v : Vocabulary) (k r : string) (d : WordData) :
  JS.get (allForms v) k = Some d -> root d = Some r ->
  exists lvl cat e,
    In (lvl, cat, r, e) (entriesOf v) /\
    (cat = "verbs" \/ cat = "adjectives") /\ category d = cat /\
    Translate.translateWord (allForms v) v k
    = (if JS.truthy (en e) then en e else None).
Proof.
  intros G Hr. unfold Translate.translateWord. rewrite G.
  destruct (allForms_recordOf v k d G)
    as [(lvl & cat & e & Hin & ->)
       | [(lvl & w & e & conjs & t & Hin & Hc & Hf & Hne & ->)
         | (lvl & w & e & Hin & Hf & Hne & Hw & ->)]]; simpl in Hr;
    [discriminate | |]; injection Hr as <-.
  - exists lvl, "verbs", e. split; [exact Hin|]. split; [now left|].
    split; [reflexivity|]. simpl. unfold JS.or. simpl baseEn.
    destruct (JS.truthy (en e)); reflexivity.
  - exists lvl, "adjectives", e. split; [exact Hin|]. split; [now right|].
    split; [reflexivity|]. simpl. unfold JS.or. simpl baseEn.
    destruct (JS.truthy (en e)); reflexivity.
Qed.

Lemma inflected_form_gets_the_gloss_of_its_root_witness :
  JS.get (allForms husVocabulary) "spiste"
  = Some (VocabularyManager.conjugatedRecord "spise" "A1" "spiste"
            (rootRecord "A1" "verbs"
               (mkEntry (Some "to eat") None None None
                        (Some [("present", "spiser"); ("past", "spiste")]) None))) /\
  exists lvl cat e,
    In (lvl, cat, "spise", e) (entriesOf husVocabulary) /\
    (cat = "verbs" \/ cat = "adjectives") /\
    category (VocabularyManager.conjugatedRecord "spise" "A1" "spiste"
                (rootRecord "A1" "verbs"
                   (mkEntry (Some "to eat") None None None
                            (Some [("present", "spiser"); ("past", "spiste")]) None)))
    = cat /\
    Translate.translateWord (allForms husVocabulary) husVocabulary "spiste"
    = (if JS.truthy (en e) then en e else None).
Proof.
  split; [reflexivity|].
  exact (inflected_form_gets_the_gloss_of_its_root husVocabulary "spiste" "spise" _
           eq_refl eq_refl).
Defined.

Lemma translation_lower (v : Vocabulary) (s : string) :
  translation v (JS.toLowerCase s) = translation v s.
Proof.
  unfold translation.
  destruct (translateSentenceWords_coherent _ (JS.toLowerCase s) (new_coherent v))
    as (-> & _ & _).
  destruct (translateSentenceWords_coherent _ s (new_coherent v)) as (-> & _ & _).
  simpl. unfold translationOn.
  rewrite (find_same (Translate.isExampleOf (JS.toLowerCase s)) (Translate.isExampleOf s)).
  - unfold Translate.translatedWords, Translate.wordsOf. now rewrite toLowerCase_idem.
  - intros wd. unfold Translate.isExampleOf. now rewrite toLowerCase_idem.
Qed.

(** X21.  [translateSentence] on an input that is blank (empty once
    trimmed) asks for a sentence and leaves the object as it is, the
    index not even being built; on any other input its text is the
    translation of the trimmed input between quotation marks. *)
Theorem translateSentence_text (v : Vocabulary) (input : string) :
  (JS.trim input = "" ->
   Translate.translateSentence input (VocabularyManager.new v)
   = ("Write a sentence first to translate!", VocabularyManager.new v)) /\
  (JS.trim input <> "" ->
   fst (Translate.translateSentence input (VocabularyManager.new v))
   = "Translation: " ++ Translate.dquote ++ JS.show (translation v (JS.trim input))
     ++ Translate.dquote).
Proof.
  unfold Translate.translateSentence. rewrite length_toLowerCase. split.
  - intros ->. reflexivity.
  - intros H. destruct (JS.trim input) as [|c s] eqn:E; [contradiction|].
    unfold VocabularyManager.bind.
    rewrite <- (translation_lower v (String c s)). unfold translation.
    change (String.length (String c s) =? 0) with false. cbv beta iota.
    now destruct (Translate.translateSentenceWords (JS.toLowerCase (String c s))
                    (VocabularyManager.new v)).
Qed.

(* ------------------------------------------------------------------ *)
(** ** The gender of a noun, anywhere in a sentence *)

(** X22.  At any position of a sentence, a recognized article 'en' or
    'et' followed by a word that resolves to a noun is checked against
    the record of the noun's root: the turn of step 3 at that position
    gives the gender-mismatch diagnostic, naming that root, when the
    record has the gender property of the other article (and then the
    feedback holds it), and gives nothing when it has not. *)
Theorem noun_gender_checked_at_any_position
  (v : Vocabulary) (input : string) (fb : list Diagnostic) (i : nat)
  (article noun nounRoot : string) (nounData : WordData) :
  analyzeSentence v input = Some fb ->
  nth_error (tokens input) i = Some article ->
  nth_error (tokens input) (i + 1) = Some noun ->
  (article = "en" \/ article = "et") ->
  WordInfo.category (Grammar.recognize (allForms v) article) <> "unknown" ->
  WordInfo.category (Grammar.recognize (allForms v) noun) = "nouns" ->
  WordInfo.rootWord (Grammar.recognize (allForms v) noun) = Some nounRoot ->
  JS.get (allForms v) nounRoot = Some nounData ->
  fst (Grammar.agreementAt (Grammar.knownWordsInfo (allForms v) (tokens input)) i (warm v))
  = (if hasOpposite article nounData
     then [NounArticle (Some nounRoot) (otherArticle article) article] else []) /\
  (hasOpposite article nounData = true ->
   In (NounArticle (Some nounRoot) (otherArticle article) article) fb).
Proof.
  intros H H0 H1 Hart Hknown Hcat Hroot Hget.
  assert (Hi : i < length (tokens input)) by (apply nth_error_Some; congruence).
  assert (Hsome : Grammar.isSome (WordInfo.originalWordData
                                    (Grammar.recognize (allForms v) noun)) = true)
    by (apply recognize_known; rewrite Hcat; discriminate).
  assert (E : fst (Grammar.agreementAt (Grammar.knownWordsInfo (allForms v) (tokens input))
                     i (warm v))
              = (if hasOpposite article nounData
                 then [NounArticle (Some nounRoot) (otherArticle article) article]
                 else [])).
  { apply String.eqb_neq in Hknown.
    unfold Grammar.agreementAt, Grammar.knownWordsInfo.
    rewrite !nth_error_map, H0, H1. cbn [option_map].
    rewrite Hknown, word_recognize.
    assert (Ea : String.eqb article "en" || String.eqb article "et" = true)
      by (destruct Hart as [-> | ->]; reflexivity).
    rewrite Ea, Hcat, Hsome, String.eqb_refl. cbn [andb].
    unfold VocabularyManager.bind. cbv beta.
    rewrite Hroot, getWordDataOf_warm, Hget. simpl.
    unfold Grammar.articleFeedback, hasOpposite, otherArticle.
    destruct Hart as [-> | ->]; simpl.
    - destruct (hasOwnProperty_et nounData); reflexivity.
    - destruct (hasOwnProperty_en nounData); reflexivity. }
  split; [exact E|].
  intros Hopp. apply (in_agreement v input fb i _ H Hi).
  rewrite E, Hopp. now left.
Qed.

Lemma noun_gender_checked_at_any_position_witness :
  analyzeSentence articleVocabulary "pige spiser en hus"
  = Some [NounArticle (Some "hus") "et" "en"] /\
  In (NounArticle (Some "hus") "et" "en") [NounArticle (Some "hus") "et" "en"].
Proof.
  split; [reflexivity|].
  exact (proj2 (noun_gender_checked_at_any_position articleVocabulary "pige spiser en hus"
                  _ 2 "en" "hus" "hus"
                  (rootRecord "A1" "nouns" (mkEntry None (Some "house") None None None None))
                  eq_refl eq_refl eq_refl (or_introl eq_refl) ltac:(discriminate)
                  eq_refl eq_refl eq_refl) eq_refl).
Defined.

(* ------------------------------------------------------------------ *)
(** ** The phrase repair *)

(** X23.  For each of the subjects of line 457 and each of the glosses
    of lines 452 and 468: of "subject to gloss" (what the words of a
    subject and of a verb glossed "to ..." are joined to) the phrase
    repair makes "subject is glossing", with "is" alone for the copula
    and with the gloss followed by "s" for a modal; and of the bare
    gloss it makes "is glossing", "is" for the copula, the modal
    itself for a modal. *)
Theorem repair_of_subject_and_verb (subject gloss : string) :
  In subject Translate.commonSubjects -> In gloss Translate.verbGlosses ->
  Translate.phraseRepair (subject ++ " to " ++ gloss)
    = subject ++ " " ++ repairedVerb gloss "s" /\
  Translate.phraseRepair gloss = repairedVerb gloss "".
Proof.
  intros Hs Hg.
  assert (A : forallb (fun s =>
                forallb (fun g =>
                  String.eqb (Translate.phraseRepair (s ++ " to " ++ g))
                             (s ++ " " ++ repairedVerb g "s")
                  && String.eqb (Translate.phraseRepair g) (repairedVerb g ""))
                  Translate.verbGlosses)
                Translate.commonSubjects = true) by (vm_compute; reflexivity).
  pose proof (proj1 (forallb_forall _ _) A subject Hs) as B. cbv beta in B.
  pose proof (proj1 (forallb_forall _ _) B gloss Hg) as C. cbv beta in C.
  apply andb_true_iff in C. destruct C as [C1 C2].
  split; now apply String.eqb_eq.
Qed.

Lemma repair_of_subject_and_verb_witness :
  (In "pigen" Translate.commonSubjects /\ In "eat" Translate.verbGlosses) /\
  Translate.phraseRepair ("pigen" ++ " to " ++ "eat") = "pigen" ++ " " ++ repairedVerb "eat" "s".
Proof.
  assert (Hs : In "pigen" Translate.commonSubjects) by (simpl; tauto).
  assert (Hg : In "eat" Translate.verbGlosses) by (simpl; tauto).
  split; [split; assumption|].
  exact (proj1 (repair_of_subject_and_verb "pigen" "eat" Hs Hg)).
Defined.
